(** * ClanEventBot: event lifecycle, team formation and reminder scheduler

    A shallow embedding of the core of the clan event bot
    ([models/event.py], [services/event_service.py],
    [services/team_service.py], [services/reminder_service.py]) and the
    properties of its specification that concern that core.

    Conventions of the embedding.
    - Python [int] is [Z]; user, guild, message and thread ids are [Z].
    - A Python [list] is a [list]; a method that mutates its object is
      the function from the object's old state to its new one, returned
      next to the method's answer.
    - The registry dictionary [_events] and the dictionary produced by
      [to_dict] are [gmap]s with [string] keys.  A [gmap] does not keep
      the insertion order of a Python dictionary: the loop of the
      scheduler, whose outcome depends on it, takes the order as an
      argument; the other statements are by membership or by length.
    - [datetime.utcnow()] is an argument [now] of every function that
      reads the clock.
    - A raised exception is the [Raise] branch of [result].
    - The random generator and the Discord client are arguments: the
      draws of the generator, and for the client whether a thread is
      found and whether a post succeeds.
    - The scheduler is a task of the event loop on which the handlers
      of the bot run.  A scan is suspended at each [await] of the
      reminder it sends, and what the handlers do to the registry
      meanwhile is an argument of the scan, as is what the dictionary
      iterator does where Python leaves it open.  [stop] is called
      nowhere in the bot, so the task is never cancelled. *)

From Stdlib Require Import ZArith List Bool Arith Lia.
From stdpp Require Import gmap strings list fin_maps pretty.

Local Open Scope Z_scope.

(** ** Exceptions *)

Inductive exn :=
| ValueError (msg : string)
| KeyError (key : string)
| TypeError
| RuntimeError (msg : string)
| ZeroDivisionError.

Inductive result (A : Type) :=
| Ok (a : A)
| Raise (e : exn).
Arguments Ok {A} a.
Arguments Raise {A} e.

Definition bind {A B} (r : result A) (k : A -> result B) : result B :=
  match r with
  | Ok a => k a
  | Raise e => Raise e
  end.

Notation "'try!' x ':=' r 'in' k" := (bind r (fun x => k))
  (at level 10, x name, r at level 100, k at level 200).

(** ** [datetime]: naive timestamps of the standard library

    A naive [datetime] is its calendar fields.  Subtraction of two of
    them is a [timedelta], here its total number of microseconds;
    [replace(day=...)] rebuilds the value and raises [ValueError] unless
    the day exists in the month. *)

Module datetime.

Record t := mk {
  year : Z; month : Z; day : Z;
  hour : Z; minute : Z; second : Z; microsecond : Z
}.

Definition is_leap (y : Z) : bool :=
  (y mod 4 =? 0) && (negb (y mod 100 =? 0) || (y mod 400 =? 0)).

Definition days_in_month (y m : Z) : Z :=
  if m =? 2 then (if is_leap y then 29 else 28)
  else if (m =? 4) || (m =? 6) || (m =? 9) || (m =? 11) then 30
  else 31.

Definition days_before_year (y : Z) : Z :=
  let y1 := y - 1 in y1 * 365 + y1 / 4 - y1 / 100 + y1 / 400.

Definition days_before_month (y m : Z) : Z :=
  nth (Z.to_nat m) [0; 0; 31; 59; 90; 120; 151; 181; 212; 243; 273; 304; 334] 0
  + (if (2 <? m) && is_leap y then 1 else 0).

Definition toordinal (d : t) : Z :=
  days_before_year (year d) + days_before_month (year d) (month d) + day d.

Definition micros (d : t) : Z :=
  ((toordinal d * 86400
    + hour d * 3600 + minute d * 60 + second d) * 1000000)
  + microsecond d.

(** [a - b], a [timedelta] in microseconds. *)
Definition sub (a b : t) : Z := micros a - micros b.

(** [a < b] and [a > b] on naive timestamps. *)
Definition ltb (a b : t) : bool := micros a <? micros b.
Definition gtb (a b : t) : bool := micros b <? micros a.

(** [d.replace(day=new_day)] *)
Definition replace_day (d : t) (new_day : Z) : result t :=
  if (1 <=? new_day) && (new_day <=? days_in_month (year d) (month d))
  then Ok (mk (year d) (month d) new_day
              (hour d) (minute d) (second d) (microsecond d))
  else Raise (ValueError "day is out of range for month").

#[global] Instance eq_dec : EqDecision t.
Proof. solve_decision. Defined.

End datetime.

(** [timedelta(seconds=s)] and [timedelta(minutes=m)], in microseconds. *)
Definition timedelta_seconds (s : Z) : Z := s * 1000000.
Definition timedelta_minutes (m : Z) : Z := m * 60 * 1000000.
Definition timedelta_days (d : Z) : Z := d * 86400 * 1000000.

(** ** [utils/constants.py] *)

Inductive EventType := BINGO | PVP_TOURNAMENT | GENERAL.

Inductive EventStatus := OPEN | FULL | IN_PROGRESS | COMPLETED | CANCELLED.

#[global] Instance EventType_eq_dec : EqDecision EventType.
Proof. solve_decision. Defined.
#[global] Instance EventStatus_eq_dec : EqDecision EventStatus.
Proof. solve_decision. Defined.

Definition EventType_value (t : EventType) : string :=
  match t with
  | BINGO => "Bingo"
  | PVP_TOURNAMENT => "Tournoi JcJ"
  | GENERAL => "Événement général"
  end.

Definition EventStatus_value (s : EventStatus) : string :=
  match s with
  | OPEN => "Ouvert"
  | FULL => "Complet"
  | IN_PROGRESS => "En cours"
  | COMPLETED => "Terminé"
  | CANCELLED => "Annulé"
  end.

(** [EventType(v)] and [EventStatus(v)]: lookup of a member by value. *)
Definition EventType_of_value (v : string) : result EventType :=
  if decide (v = EventType_value BINGO) then Ok BINGO
  else if decide (v = EventType_value PVP_TOURNAMENT) then Ok PVP_TOURNAMENT
  else if decide (v = EventType_value GENERAL) then Ok GENERAL
  else Raise (ValueError "not a valid EventType").

Definition EventStatus_of_value (v : string) : result EventStatus :=
  if decide (v = EventStatus_value OPEN) then Ok OPEN
  else if decide (v = EventStatus_value FULL) then Ok FULL
  else if decide (v = EventStatus_value IN_PROGRESS) then Ok IN_PROGRESS
  else if decide (v = EventStatus_value COMPLETED) then Ok COMPLETED
  else if decide (v = EventStatus_value CANCELLED) then Ok CANCELLED
  else Raise (ValueError "not a valid EventStatus").

(** ** Python list primitives *)

(** [x in l] *)
Definition py_in (x : Z) (l : list Z) : bool := bool_decide (x ∈ l).

(** [l.remove(x)] when [x in l]: drops the first occurrence. *)
Fixpoint py_remove (x : Z) (l : list Z) : list Z :=
  match l with
  | [] => []
  | y :: l' => if decide (x = y) then l' else y :: py_remove x l'
  end.

(** Truth value of an [Optional[int]]: [None] and [0] are falsy. *)
Definition truthy_id (o : option Z) : bool :=
  match o with
  | Some z => negb (z =? 0)
  | None => false
  end.

(** ** [models/event.py] *)

Module Event.

Record t := mk {
  event_id : string;
  event_type : EventType;
  name : string;
  description : string;
  creator_id : Z;
  guild_id : Z;
  max_participants : Z;
  created_at : datetime.t;
  event_date : option datetime.t;
  status : EventStatus;
  participants : list Z;
  checked_in_participants : list Z;
  teams : list (list Z);
  team_size : option Z;
  message_id : option Z;
  thread_id : option Z;
  reminder_sent : bool;
  check_in_enabled : bool;
  check_in_start_time : option datetime.t;
  check_in_end_time : option datetime.t
}.

(** [Event.__init__]; [now] is the [datetime.utcnow()] it reads. *)
Definition init (now : datetime.t) (event_id : string)
    (event_type : EventType) (name description : string)
    (creator_id guild_id max_participants : Z)
    (event_date : option datetime.t) : t :=
  {| event_id := event_id; event_type := event_type; name := name;
     description := description; creator_id := creator_id;
     guild_id := guild_id; max_participants := max_participants;
     created_at := now; event_date := event_date; status := OPEN;
     participants := []; checked_in_participants := [];
     teams := []; team_size := None;
     message_id := None; thread_id := None;
     reminder_sent := false;
     check_in_enabled := false;
     check_in_start_time := None; check_in_end_time := None |}.

(** Assignments to one attribute. *)
Definition set_participants (l : list Z) (e : t) : t :=
  mk (event_id e) (event_type e) (name e) (description e) (creator_id e)
     (guild_id e) (max_participants e) (created_at e) (event_date e)
     (status e) l (checked_in_participants e) (teams e) (team_size e)
     (message_id e) (thread_id e) (reminder_sent e) (check_in_enabled e)
     (check_in_start_time e) (check_in_end_time e).

Definition set_status (s : EventStatus) (e : t) : t :=
  mk (event_id e) (event_type e) (name e) (description e) (creator_id e)
     (guild_id e) (max_participants e) (created_at e) (event_date e)
     s (participants e) (checked_in_participants e) (teams e) (team_size e)
     (message_id e) (thread_id e) (reminder_sent e) (check_in_enabled e)
     (check_in_start_time e) (check_in_end_time e).

Definition set_checked_in_participants (l : list Z) (e : t) : t :=
  mk (event_id e) (event_type e) (name e) (description e) (creator_id e)
     (guild_id e) (max_participants e) (created_at e) (event_date e)
     (status e) (participants e) l (teams e) (team_size e)
     (message_id e) (thread_id e) (reminder_sent e) (check_in_enabled e)
     (check_in_start_time e) (check_in_end_time e).

Definition set_teams_attr (ts : list (list Z)) (e : t) : t :=
  mk (event_id e) (event_type e) (name e) (description e) (creator_id e)
     (guild_id e) (max_participants e) (created_at e) (event_date e)
     (status e) (participants e) (checked_in_participants e) ts (team_size e)
     (message_id e) (thread_id e) (reminder_sent e) (check_in_enabled e)
     (check_in_start_time e) (check_in_end_time e).

Definition set_team_size (n : option Z) (e : t) : t :=
  mk (event_id e) (event_type e) (name e) (description e) (creator_id e)
     (guild_id e) (max_participants e) (created_at e) (event_date e)
     (status e) (participants e) (checked_in_participants e) (teams e) n
     (message_id e) (thread_id e) (reminder_sent e) (check_in_enabled e)
     (check_in_start_time e) (check_in_end_time e).

Definition set_thread_id (thread : option Z) (e : t) : t :=
  mk (event_id e) (event_type e) (name e) (description e) (creator_id e)
     (guild_id e) (max_participants e) (created_at e) (event_date e)
     (status e) (participants e) (checked_in_participants e) (teams e)
     (team_size e) (message_id e) thread (reminder_sent e)
     (check_in_enabled e) (check_in_start_time e) (check_in_end_time e).

Definition set_message_id (message : option Z) (e : t) : t :=
  mk (event_id e) (event_type e) (name e) (description e) (creator_id e)
     (guild_id e) (max_participants e) (created_at e) (event_date e)
     (status e) (participants e) (checked_in_participants e) (teams e)
     (team_size e) message (thread_id e) (reminder_sent e)
     (check_in_enabled e) (check_in_start_time e) (check_in_end_time e).

Definition set_reminder_sent (b : bool) (e : t) : t :=
  mk (event_id e) (event_type e) (name e) (description e) (creator_id e)
     (guild_id e) (max_participants e) (created_at e) (event_date e)
     (status e) (participants e) (checked_in_participants e) (teams e)
     (team_size e) (message_id e) (thread_id e) b (check_in_enabled e)
     (check_in_start_time e) (check_in_end_time e).

Definition set_check_in (enabled : bool) (start_time end_time : option datetime.t)
    (e : t) : t :=
  mk (event_id e) (event_type e) (name e) (description e) (creator_id e)
     (guild_id e) (max_participants e) (created_at e) (event_date e)
     (status e) (participants e) (checked_in_participants e) (teams e)
     (team_size e) (message_id e) (thread_id e) (reminder_sent e) enabled
     start_time end_time.

(** Properties *)
Definition participant_count (e : t) : Z := Z.of_nat (length (participants e)).

Definition checked_in_count (e : t) : Z :=
  Z.of_nat (length (checked_in_participants e)).

Definition is_full (e : t) : bool := max_participants e <=? participant_count e.

Definition has_teams (e : t) : bool :=
  match teams e with [] => false | _ => true end.

Definition team_count (e : t) : Z := Z.of_nat (length (teams e)).

(** [add_participant] *)
Definition add_participant (user_id : Z) (e : t) : bool * t :=
  if py_in user_id (participants e) then (false, e)
  else if is_full e then (false, e)
  else
    let e1 := set_participants (participants e ++ [user_id]) e in
    let e2 := if is_full e1 then set_status FULL e1 else e1 in
    (true, e2).

(** The loop of [remove_participant] over [self.teams]: the first team
    that holds the user loses the user's first occurrence, then
    [break]. *)
Fixpoint remove_from_first_team (user_id : Z) (ts : list (list Z))
    : list (list Z) :=
  match ts with
  | [] => []
  | team :: rest =>
      if py_in user_id team then py_remove user_id team :: rest
      else team :: remove_from_first_team user_id rest
  end.

(** [remove_participant] *)
Definition remove_participant (user_id : Z) (e : t) : bool * t :=
  if negb (py_in user_id (participants e)) then (false, e)
  else
    let e1 := set_participants (py_remove user_id (participants e)) e in
    let e2 := set_teams_attr (remove_from_first_team user_id (teams e1)) e1 in
    let e3 :=
      if bool_decide (status e2 = FULL) && negb (is_full e2)
      then set_status OPEN e2 else e2 in
    (true, e3).

Definition is_participant (user_id : Z) (e : t) : bool :=
  py_in user_id (participants e).

Definition is_checked_in (user_id : Z) (e : t) : bool :=
  py_in user_id (checked_in_participants e).

(** [self.check_in_start_time and now < self.check_in_start_time]: a
    [datetime] is always truthy, so the bound counts whenever it is
    set. *)
Definition before_start (now : datetime.t) (e : t) : bool :=
  match check_in_start_time e with
  | Some s => datetime.ltb now s
  | None => false
  end.

Definition after_end (now : datetime.t) (e : t) : bool :=
  match check_in_end_time e with
  | Some s => datetime.gtb now s
  | None => false
  end.

(** [check_in_participant] *)
Definition check_in_participant (now : datetime.t) (user_id : Z) (e : t)
    : bool * t :=
  if negb (is_participant user_id e) then (false, e)
  else if negb (check_in_enabled e) then (false, e)
  else if before_start now e then (false, e)
  else if after_end now e then (false, e)
  else if py_in user_id (checked_in_participants e) then (false, e)
  else
    (true,
     set_checked_in_participants (checked_in_participants e ++ [user_id]) e).

(** [check_out_participant] *)
Definition check_out_participant (user_id : Z) (e : t) : bool * t :=
  if negb (py_in user_id (checked_in_participants e)) then (false, e)
  else
    (true,
     set_checked_in_participants
       (py_remove user_id (checked_in_participants e)) e).

Definition enable_check_in (start_time end_time : option datetime.t)
    (e : t) : t :=
  set_check_in true start_time end_time e.

Definition disable_check_in (e : t) : t :=
  set_check_in false (check_in_start_time e) (check_in_end_time e) e.

Definition is_check_in_active (now : datetime.t) (e : t) : bool :=
  if negb (check_in_enabled e) then false
  else if before_start now e then false
  else if after_end now e then false
  else true.

Definition get_no_show_participants (e : t) : list Z :=
  List.filter (fun u => negb (py_in u (checked_in_participants e)))
    (participants e).

Definition clear_teams (e : t) : t :=
  set_team_size None (set_teams_attr [] e).

Definition set_teams (ts : list (list Z)) (size : Z) (e : t) : t :=
  set_team_size (Some size) (set_teams_attr ts e).

(** [get_team_for_participant]: the loop over [enumerate(self.teams)],
    [i] being the index of the first team of [ts]. *)
Fixpoint find_team (user_id : Z) (i : nat) (ts : list (list Z)) : option Z :=
  match ts with
  | [] => None
  | team :: rest =>
      if py_in user_id team then Some (Z.of_nat i + 1)
      else find_team user_id (S i) rest
  end.

Definition get_team_for_participant (user_id : Z) (e : t) : option Z :=
  find_team user_id 0 (teams e).

(** *** Serialization

    The values a serialized event holds.  [PIso d] is the string
    [d.isoformat()], which [datetime.fromisoformat] reads back as [d]. *)
Inductive pyval :=
| PNone
| PBool (b : bool)
| PInt (z : Z)
| PStr (s : string)
| PIso (d : datetime.t)
| PList (l : list Z)
| PListList (l : list (list Z)).

Definition of_opt_int (o : option Z) : pyval :=
  match o with Some z => PInt z | None => PNone end.

(** [x.isoformat() if x else None] *)
Definition of_opt_iso (o : option datetime.t) : pyval :=
  match o with Some d => PIso d | None => PNone end.

(** [to_dict] *)
Definition to_dict (e : t) : gmap string pyval :=
  list_to_map [
    ("event_id", PStr (event_id e));
    ("event_type", PStr (EventType_value (event_type e)));
    ("name", PStr (name e));
    ("description", PStr (description e));
    ("creator_id", PInt (creator_id e));
    ("guild_id", PInt (guild_id e));
    ("max_participants", PInt (max_participants e));
    ("created_at", PIso (created_at e));
    ("status", PStr (EventStatus_value (status e)));
    ("participants", PList (participants e));
    ("checked_in_participants", PList (checked_in_participants e));
    ("teams", PListList (teams e));
    ("team_size", of_opt_int (team_size e));
    ("message_id", of_opt_int (message_id e));
    ("check_in_enabled", PBool (check_in_enabled e));
    ("check_in_start_time", of_opt_iso (check_in_start_time e));
    ("check_in_end_time", of_opt_iso (check_in_end_time e))
  ].

(** [data[key]] and [data.get(key, default)] *)
Definition getitem (data : gmap string pyval) (key : string) : result pyval :=
  match data !! key with
  | Some v => Ok v
  | None => Raise (KeyError key)
  end.

Definition get (data : gmap string pyval) (key : string) (dflt : pyval)
    : pyval :=
  default dflt (data !! key).

(** Readers of a value at the type the attribute has in [Event]; a
    value of another shape is outside this model and is reported as
    [TypeError]. *)
Definition as_str (v : pyval) : result string :=
  match v with PStr s => Ok s | _ => Raise TypeError end.
Definition as_int (v : pyval) : result Z :=
  match v with PInt z => Ok z | _ => Raise TypeError end.
Definition as_bool (v : pyval) : result bool :=
  match v with PBool b => Ok b | _ => Raise TypeError end.
Definition as_opt_int (v : pyval) : result (option Z) :=
  match v with
  | PInt z => Ok (Some z)
  | PNone => Ok None
  | _ => Raise TypeError
  end.
Definition as_list (v : pyval) : result (list Z) :=
  match v with PList l => Ok l | _ => Raise TypeError end.
Definition as_teams (v : pyval) : result (list (list Z)) :=
  match v with PListList l => Ok l | _ => Raise TypeError end.

(** Truth value of a serialized value. *)
Definition truthy (v : pyval) : bool :=
  match v with
  | PNone => false
  | PBool b => b
  | PInt z => negb (z =? 0)
  | PStr s => negb (bool_decide (s = EmptyString))
  | PIso _ => true
  | PList l => negb (bool_decide (l = []))
  | PListList l => negb (bool_decide (l = []))
  end.

(** [datetime.fromisoformat] *)
Definition fromisoformat (v : pyval) : result datetime.t :=
  match v with
  | PIso d => Ok d
  | PStr _ => Raise (ValueError "Invalid isoformat string")
  | _ => Raise TypeError
  end.

(** [if data.get(key): attr = datetime.fromisoformat(data[key])]; the
    attribute keeps the [None] of the constructor otherwise. *)
Definition parse_opt_time (data : gmap string pyval) (key : string)
    : result (option datetime.t) :=
  if truthy (get data key PNone) then
    try! v := getitem data key in
    try! d := fromisoformat v in
    Ok (Some d)
  else Ok None.

(** [from_dict]; [now] is the clock read by the constructor. *)
Definition from_dict (now : datetime.t) (data : gmap string pyval) : result t :=
  try! v_id := getitem data "event_id" in
  try! id := as_str v_id in
  try! v_ty := getitem data "event_type" in
  try! s_ty := as_str v_ty in
  try! ty := EventType_of_value s_ty in
  try! v_name := getitem data "name" in
  try! nm := as_str v_name in
  try! v_desc := getitem data "description" in
  try! desc := as_str v_desc in
  try! v_creator := getitem data "creator_id" in
  try! creator := as_int v_creator in
  try! v_guild := getitem data "guild_id" in
  try! guild := as_int v_guild in
  try! maxp := as_int (get data "max_participants" (PInt 100)) in
  let event := init now id ty nm desc creator guild maxp None in
  try! v_created := getitem data "created_at" in
  try! created := fromisoformat v_created in
  try! v_status := getitem data "status" in
  try! s_status := as_str v_status in
  try! st := EventStatus_of_value s_status in
  try! ps := as_list (get data "participants" (PList [])) in
  try! cps := as_list (get data "checked_in_participants" (PList [])) in
  try! tms := as_teams (get data "teams" (PListList [])) in
  try! tsz := as_opt_int (get data "team_size" PNone) in
  try! mid := as_opt_int (get data "message_id" PNone) in
  try! enabled := as_bool (get data "check_in_enabled" (PBool false)) in
  try! start_time := parse_opt_time data "check_in_start_time" in
  try! end_time := parse_opt_time data "check_in_end_time" in
  Ok {| event_id := event_id event; event_type := event_type event;
        name := name event; description := description event;
        creator_id := creator_id event; guild_id := guild_id event;
        max_participants := max_participants event;
        created_at := created;
        event_date := event_date event;
        status := st;
        participants := ps;
        checked_in_participants := cps;
        teams := tms;
        team_size := tsz;
        message_id := mid;
        thread_id := thread_id event;
        reminder_sent := reminder_sent event;
        check_in_enabled := enabled;
        check_in_start_time := start_time;
        check_in_end_time := end_time |}.

End Event.

(** ** [models/participant.py] *)

Module Participant.

Record t := mk {
  user_id : Z;
  event_id : string;
  joined_at : datetime.t;
  team_number : option Z
}.

(** [Participant.__init__]; [now] is the clock it reads. *)
Definition init (now : datetime.t) (user_id : Z) (event_id : string) : t :=
  mk user_id event_id now None.

Definition is_assigned_to_team (p : t) : bool :=
  match team_number p with Some _ => true | None => false end.

Definition assign_to_team (n : Z) (p : t) : t :=
  mk (user_id p) (event_id p) (joined_at p) (Some n).

Definition remove_from_team (p : t) : t :=
  mk (user_id p) (event_id p) (joined_at p) None.

(** [to_dict] *)
Definition to_dict (p : t) : gmap string Event.pyval :=
  list_to_map [
    ("user_id", Event.PInt (user_id p));
    ("event_id", Event.PStr (event_id p));
    ("joined_at", Event.PIso (joined_at p));
    ("team_number", Event.of_opt_int (team_number p))
  ].

(** [from_dict] *)
Definition from_dict (now : datetime.t) (data : gmap string Event.pyval)
    : result t :=
  try! v_user := Event.getitem data "user_id" in
  try! user := Event.as_int v_user in
  try! v_event := Event.getitem data "event_id" in
  try! event := Event.as_str v_event in
  let participant := init now user event in
  try! v_joined := Event.getitem data "joined_at" in
  try! joined := Event.fromisoformat v_joined in
  try! team := Event.as_opt_int (Event.get data "team_number" Event.PNone) in
  Ok (mk (user_id participant) (event_id participant) joined team).

(** [__eq__] on two participants *)
Definition eqb (p q : t) : bool :=
  bool_decide (user_id p = user_id q) && bool_decide (event_id p = event_id q).

End Participant.

(** ** [services/team_service.py] *)

Module TeamService.

(** *** [random.shuffle]

    [rng n] is what the generator answers when asked for a number
    below [n]; [shuffle] asks once for each bound. *)
Definition randbelow (rng : nat -> nat) (n : nat) : nat := (rng n mod n)%nat.

(** [x[i], x[j] = x[j], x[i]] *)
Definition swap (i j : nat) (x : list Z) : list Z :=
  match x !! i, x !! j with
  | Some a, Some b => <[j:=a]> (<[i:=b]> x)
  | _, _ => x
  end.

(** [for i in reversed(range(1, len(x))): j = randbelow(i + 1); swap] *)
Fixpoint shuffle_from (rng : nat -> nat) (i : nat) (x : list Z) : list Z :=
  match i with
  | O => x
  | S i' => shuffle_from rng i' (swap i (randbelow rng (i + 1)) x)
  end.

Definition shuffle (rng : nat -> nat) (x : list Z) : list Z :=
  shuffle_from rng (length x - 1) x.

(** [range(0, stop, step)] for a positive [step] *)
Definition range_step (stop step : nat) : list nat :=
  map (fun k => (k * step)%nat) (seq 0 ((stop + step - 1) / step)%nat).

(** [l[i:j]] for [0 <= i <= j] *)
Definition slice (i j : nat) (l : list Z) : list Z := take (j - i) (drop i l).

(** Body of the team-building loop. *)
Definition add_complete_team (shuffled : list Z) (team_size : nat)
    (teams : list (list Z)) (i : nat) : list (list Z) :=
  let team := slice i (i + team_size) shuffled in
  if (length team =? team_size)%nat then teams ++ [team] else teams.

Definition make_teams (shuffled : list Z) (team_size : nat) : list (list Z) :=
  fold_left (add_complete_team shuffled team_size)
    (range_step (length shuffled) team_size) [].

(** [randomize_teams] *)
Definition randomize_teams (rng : nat -> nat) (participant_ids : list Z)
    (team_size : Z) : result (list (list Z)) :=
  if bool_decide (participant_ids = []) then
    Raise (ValueError "No participants to assign to teams")
  else if negb (py_in team_size [1; 2; 3; 4; 6]) then
    Raise (ValueError "Team size must be 1, 2, 3, 4, or 6 players")
  else if Z.of_nat (length participant_ids) <? 1 then
    Raise (ValueError "Not enough participants for teams")
  else if (1 <? team_size) && (Z.of_nat (length participant_ids) <? team_size) then
    Raise (ValueError
             ("Not enough participants for teams of size " +:+ pretty team_size))
  else
    let shuffled_participants := shuffle rng participant_ids in
    Ok (make_teams shuffled_participants (Z.to_nat team_size)).

(** [create_balanced_teams]: the loop that hands the remaining
    participants to the existing teams in turn, [i] being the index of
    the first of [remaining]. *)
Fixpoint distribute (i : nat) (remaining : list Z) (teams : list (list Z))
    : list (list Z) :=
  match remaining with
  | [] => teams
  | participant :: rest =>
      distribute (S i) rest
        (if bool_decide (teams = []) then teams
         else alter (fun team => team ++ [participant])
                (i mod length teams)%nat teams)
  end.

(** [create_balanced_teams] *)
Definition create_balanced_teams (rng : nat -> nat) (participant_ids : list Z)
    (team_size : Z) (allow_incomplete : bool) : result (list (list Z)) :=
  if bool_decide (participant_ids = []) then
    Raise (ValueError "No participants to assign to teams")
  else if negb (py_in team_size [1; 2; 3; 4; 6]) then
    Raise (ValueError "Team size must be 1, 2, 3, 4, or 6 players")
  else
    let shuffled_participants := shuffle rng participant_ids in
    let size := Z.to_nat team_size in
    let complete_teams_count := (length shuffled_participants / size)%nat in
    let teams :=
      fold_left
        (fun teams i =>
           teams ++ [slice (i * size) (i * size + size) shuffled_participants])
        (seq 0 complete_teams_count) [] in
    let remaining_participants :=
      drop (complete_teams_count * size) shuffled_participants in
    if negb (bool_decide (remaining_participants = [])) && allow_incomplete
    then Ok (teams ++ [remaining_participants])
    else if negb (bool_decide (remaining_participants = []))
            && negb allow_incomplete
    then Ok (distribute 0 remaining_participants teams)
    else Ok teams.

(** [redistribute_teams] *)
Definition redistribute_teams (rng : nat -> nat) (current_teams : list (list Z))
    (new_team_size : Z) : result (list (list Z)) :=
  if bool_decide (current_teams = []) then
    Raise (ValueError "No current teams to redistribute")
  else if negb (py_in new_team_size [1; 2; 3; 4; 6]) then
    Raise (ValueError "Team size must be 1, 2, 3, 4, or 6 players")
  else
    let all_participants := concat current_teams in
    randomize_teams rng all_participants new_team_size.

(** [validate_teams]: the dictionary it returns, the entries of
    ['stats'] next to the other two. *)
Record validation := mk_validation {
  is_valid : bool;
  issues : list string;
  total_teams : Z;
  total_participants : Z;
  complete_teams : Z;
  incomplete_teams : Z;
  duplicate_participants : list Z
}.

(** Body of the loop over [enumerate(teams)]. *)
Definition check_team (expected_team_size : Z) (i : nat) (team : list Z)
    (acc : validation * list Z) : validation * list Z :=
  let '(v, all_participants) := acc in
  let team_number := Z.of_nat i + 1 in
  let team_size := Z.of_nat (length team) in
  let v1 :=
    if team_size =? expected_team_size then
      mk_validation (is_valid v) (issues v) (total_teams v)
        (total_participants v) (complete_teams v + 1) (incomplete_teams v)
        (duplicate_participants v)
    else
      mk_validation (is_valid v)
        (issues v ++ ["Team " +:+ pretty team_number +:+ " has "
                      +:+ pretty team_size +:+ " players (expected "
                      +:+ pretty expected_team_size +:+ ")"])
        (total_teams v) (total_participants v) (complete_teams v)
        (incomplete_teams v + 1) (duplicate_participants v) in
  let v2 :=
    if team_size =? 0 then
      mk_validation false
        (issues v1 ++ ["Team " +:+ pretty team_number +:+ " is empty"])
        (total_teams v1) (total_participants v1) (complete_teams v1)
        (incomplete_teams v1) (duplicate_participants v1)
    else v1 in
  (v2, all_participants ++ team).

Fixpoint check_teams (expected_team_size : Z) (i : nat) (teams : list (list Z))
    (acc : validation * list Z) : validation * list Z :=
  match teams with
  | [] => acc
  | team :: rest =>
      check_teams expected_team_size (S i) rest
        (check_team expected_team_size i team acc)
  end.

(** Body of the loop that looks for participants met twice. *)
Definition check_duplicate (acc : validation * gset Z) (participant : Z)
    : validation * gset Z :=
  let '(v, seen) := acc in
  let v1 :=
    if bool_decide (participant ∈ seen) then
      mk_validation false
        (issues v ++ ["Participant " +:+ pretty participant
                      +:+ " is assigned to multiple teams"])
        (total_teams v) (total_participants v) (complete_teams v)
        (incomplete_teams v) (duplicate_participants v ++ [participant])
    else v in
  (v1, {[participant]} ∪ seen).

(** [validate_teams] *)
Definition validate_teams (teams : list (list Z)) (expected_team_size : Z)
    : validation :=
  let v0 := mk_validation true [] (Z.of_nat (length teams)) 0 0 0 [] in
  if bool_decide (teams = []) then
    mk_validation false (issues v0 ++ ["No teams provided"]) (total_teams v0)
      (total_participants v0) (complete_teams v0) (incomplete_teams v0)
      (duplicate_participants v0)
  else
    let '(v1, all_participants) :=
      check_teams expected_team_size 0 teams (v0, []) in
    let '(v2, _) := fold_left check_duplicate all_participants (v1, ∅) in
    mk_validation (is_valid v2) (issues v2) (total_teams v2)
      (Z.of_nat (length all_participants)) (complete_teams v2)
      (incomplete_teams v2) (duplicate_participants v2).

(** [get_team_assignments]: the two nested loops, [i] being the index
    of the first team of [teams]. *)
Fixpoint assign_teams (i : nat) (teams : list (list Z))
    (assignments : gmap Z Z) : gmap Z Z :=
  match teams with
  | [] => assignments
  | team :: rest =>
      assign_teams (S i) rest
        (fold_left (fun a participant => <[participant := Z.of_nat i + 1]> a)
           team assignments)
  end.

Definition get_team_assignments (teams : list (list Z)) : gmap Z Z :=
  assign_teams 0 teams ∅.

(** [get_team_statistics]: the integer entries of the dictionary it
    returns; the entry ['average_team_size'], the float quotient of
    [total_participants] by [total_teams], is not part of the record. *)
Record team_statistics := mk_team_statistics {
  stat_total_teams : Z;
  stat_total_participants : Z;
  min_team_size : Z;
  max_team_size : Z;
  team_sizes : list Z
}.

(** [sum], [min] and [max] of a list of integers, the last two on a
    list that is not empty. *)
Definition py_sum (l : list Z) : Z := fold_left Z.add l 0.

Definition py_min (l : list Z) : Z :=
  match l with [] => 0 | x :: l' => fold_left Z.min l' x end.

Definition py_max (l : list Z) : Z :=
  match l with [] => 0 | x :: l' => fold_left Z.max l' x end.

Definition get_team_statistics (teams : list (list Z)) : team_statistics :=
  if bool_decide (teams = []) then mk_team_statistics 0 0 0 0 []
  else
    let team_sizes := map (fun team => Z.of_nat (length team)) teams in
    let total_participants := py_sum team_sizes in
    mk_team_statistics (Z.of_nat (length teams)) total_participants
      (if bool_decide (team_sizes = []) then 0 else py_min team_sizes)
      (if bool_decide (team_sizes = []) then 0 else py_max team_sizes)
      team_sizes.

End TeamService.

(** The [k]-th run of [n] consecutive entries of [l]. *)
Definition chunk (l : list Z) (n k : nat) : list Z :=
  take n (drop (k * n) l).

(** ** [services/event_service.py] *)

Module EventService.

Record t := mk {
  _events : gmap string Event.t;
  _message_to_event : gmap Z string
}.

Definition init : t := mk ∅ ∅.

Definition get_event (event_id : string) (svc : t) : option Event.t :=
  _events svc !! event_id.

(** [delete_event] *)
Definition delete_event (event_id : string) (svc : t) : bool * t :=
  match _events svc !! event_id with
  | Some event =>
      let index :=
        if truthy_id (Event.message_id event)
        then delete (default 0 (Event.message_id event)) (_message_to_event svc)
        else _message_to_event svc in
      (true, mk (delete event_id (_events svc)) index)
  | None => (false, svc)
  end.

(** Delegations to the entity; an unknown id answers [False]. *)
Definition on_event (f : Event.t -> bool * Event.t) (event_id : string)
    (svc : t) : bool * t :=
  match get_event event_id svc with
  | Some event =>
      let '(success, event') := f event in
      (success, mk (<[event_id := event']> (_events svc)) (_message_to_event svc))
  | None => (false, svc)
  end.

Definition add_participant (event_id : string) (user_id : Z) : t -> bool * t :=
  on_event (Event.add_participant user_id) event_id.

Definition remove_participant (event_id : string) (user_id : Z) : t -> bool * t :=
  on_event (Event.remove_participant user_id) event_id.

Definition check_in_participant (now : datetime.t) (event_id : string)
    (user_id : Z) : t -> bool * t :=
  on_event (Event.check_in_participant now user_id) event_id.

Definition check_out_participant (event_id : string) (user_id : Z)
    : t -> bool * t :=
  on_event (Event.check_out_participant user_id) event_id.

Definition enable_check_in (event_id : string)
    (start_time end_time : option datetime.t) : t -> bool * t :=
  on_event (fun event => (true, Event.enable_check_in start_time end_time event))
    event_id.

Definition disable_check_in (event_id : string) : t -> bool * t :=
  on_event (fun event => (true, Event.disable_check_in event)) event_id.

Definition update_event_status (event_id : string) (status : EventStatus)
    : t -> bool * t :=
  on_event (fun event => (true, Event.set_status status event)) event_id.

Definition is_participant (event_id : string) (user_id : Z) (svc : t) : bool :=
  match get_event event_id svc with
  | Some event => Event.is_participant user_id event
  | None => false
  end.

Definition get_participant_count (event_id : string) (svc : t) : Z :=
  match get_event event_id svc with
  | Some event => Event.participant_count event
  | None => 0
  end.

(** [create_event]; [event_id] is the identifier drawn,
    [str(uuid.uuid4())[:8]], and [now] the clock read by the
    constructor. *)
Definition create_event (event_id : string) (now : datetime.t)
    (event_type : EventType) (name description : string)
    (creator_id guild_id max_participants : Z)
    (event_date : option datetime.t) (team_size : option Z) (svc : t)
    : Event.t * t :=
  let event0 := Event.init now event_id event_type name description
                  creator_id guild_id max_participants event_date in
  let event :=
    match team_size with
    | Some n => Event.set_team_size (Some n) event0
    | None => event0
    end in
  (event, mk (<[event_id := event]> (_events svc)) (_message_to_event svc)).

(** [self._events.values()] *)
Definition values (svc : t) : list Event.t := (map_to_list (_events svc)).*2.

(** [get_event_by_message_id]: the event found and the registry, whose
    index the fallback search completes. *)
Definition get_event_by_message_id (message_id : Z) (svc : t)
    : option Event.t * t :=
  let indexed :=
    match _message_to_event svc !! message_id with
    | Some event_id =>
        if bool_decide (event_id = EmptyString) then None else Some event_id
    | None => None
    end in
  match indexed with
  | Some event_id => (get_event event_id svc, svc)
  | None =>
      match List.find
              (fun event => bool_decide (Event.message_id event = Some message_id))
              (values svc) with
      | Some event =>
          (Some event,
           mk (_events svc)
              (<[message_id := Event.event_id event]> (_message_to_event svc)))
      | None => (None, svc)
      end
  end.

(** [link_message_to_event] *)
Definition link_message_to_event (message_id : Z) (event_id : string) (svc : t)
    : t :=
  mk (_events svc) (<[message_id := event_id]> (_message_to_event svc)).

(** The filtered views. *)
Definition get_events_by_guild (guild_id : Z) (svc : t) : list Event.t :=
  List.filter (fun event => Event.guild_id event =? guild_id) (values svc).

Definition get_events_by_creator (creator_id guild_id : Z) (svc : t)
    : list Event.t :=
  List.filter (fun event => (Event.creator_id event =? creator_id)
                            && (Event.guild_id event =? guild_id))
    (values svc).

Definition get_events_by_status (guild_id : Z) (status : EventStatus) (svc : t)
    : list Event.t :=
  List.filter (fun event => bool_decide (Event.status event = status))
    (get_events_by_guild guild_id svc).

Definition get_events_by_type (guild_id : Z) (event_type : EventType) (svc : t)
    : list Event.t :=
  List.filter (fun event => bool_decide (Event.event_type event = event_type))
    (get_events_by_guild guild_id svc).

(** [get_event_statistics]: the integer entries of the dictionary it
    returns; the entry ['average_participants'], the float quotient of
    [total_participants] by [total_events], is not part of the record. *)
Record statistics := mk_statistics {
  total_events : Z;
  by_type : gmap string Z;
  by_status : gmap string Z;
  total_participants : Z
}.

(** The members of the two enumerations, in the order of their
    declaration. *)
Definition all_event_types : list EventType := [BINGO; PVP_TOURNAMENT; GENERAL].

Definition all_event_statuses : list EventStatus :=
  [OPEN; FULL; IN_PROGRESS; COMPLETED; CANCELLED].

Definition get_event_statistics (guild_id : Z) (svc : t) : statistics :=
  let events := get_events_by_guild guild_id svc in
  if bool_decide (events = []) then mk_statistics 0 ∅ ∅ 0
  else
    let by_type :=
      fold_left
        (fun stats event_type =>
           <[EventType_value event_type :=
               Z.of_nat (length (List.filter
                 (fun e => bool_decide (Event.event_type e = event_type))
                 events))]> stats)
        all_event_types ∅ in
    let by_status :=
      fold_left
        (fun stats status =>
           <[EventStatus_value status :=
               Z.of_nat (length (List.filter
                 (fun e => bool_decide (Event.status e = status))
                 events))]> stats)
        all_event_statuses ∅ in
    mk_statistics (Z.of_nat (length events)) by_type by_status
      (fold_left Z.add (map Event.participant_count events) 0).

(** [[event_id for event_id, event in self._events.items()
      if event.created_at < cutoff_date]] *)
Definition old_events (cutoff_date : datetime.t) (svc : t) : list string :=
  (List.filter (fun p => datetime.ltb (Event.created_at p.2) cutoff_date)
     (map_to_list (_events svc))).*1.

(** Body of the deletion loop of [cleanup_old_events]. *)
Definition cleanup_step (acc : Z * t) (event_id : string) : Z * t :=
  let '(cleaned_count, svc) := acc in
  let '(deleted, svc') := delete_event event_id svc in
  (if deleted then cleaned_count + 1 else cleaned_count, svc').

(** [cleanup_old_events]: the [try] block, then the handler that
    turns any exception into the answer [0]. *)
Definition cleanup_old_events_try (now : datetime.t) (days : Z) (svc : t)
    : result (Z * t) :=
  try! cutoff_date := datetime.replace_day now (datetime.day now - days) in
  Ok (fold_left cleanup_step (old_events cutoff_date svc) (0, svc)).

Definition cleanup_old_events (now : datetime.t) (days : Z) (svc : t) : Z * t :=
  match cleanup_old_events_try now days svc with
  | Ok r => r
  | Raise _ => (0, svc)
  end.

End EventService.

(** ** What the handlers do to the registry

    The calls that the commands, the modal and the buttons make on the
    registry, and the attributes that they write on an event they got
    from it: [event.message_id], [event.thread_id], and [event.teams]
    with [event.team_size] (set, or cleared to [[]] and [None]).  A
    write on an event that the registry no longer holds does not show
    in the registry. *)
Inductive handler_call :=
| SvcCreate (event_id : string) (now : datetime.t) (event_type : EventType)
    (name description : string) (creator_id guild_id max_participants : Z)
    (event_date : option datetime.t) (team_size : option Z)
| SvcDelete (event_id : string)
| SvcAdd (event_id : string) (user_id : Z)
| SvcRemove (event_id : string) (user_id : Z)
| SvcCheckIn (now : datetime.t) (event_id : string) (user_id : Z)
| SvcCheckOut (event_id : string) (user_id : Z)
| SvcEnableCheckIn (event_id : string) (start_time end_time : option datetime.t)
| SvcDisableCheckIn (event_id : string)
| SvcUpdateStatus (event_id : string) (status : EventStatus)
| SvcLink (message_id : Z) (event_id : string)
| SvcByMessage (message_id : Z)
| SvcCleanup (now : datetime.t) (days : Z)
| SvcSetMessage (event_id : string) (message_id : Z)
| SvcSetThread (event_id : string) (thread_id : Z)
| SvcSetTeams (event_id : string) (teams : list (list Z)) (team_size : Z)
| SvcClearTeams (event_id : string).

Definition do_handler_call (c : handler_call) (svc : EventService.t)
    : EventService.t :=
  match c with
  | SvcCreate id now ty nm desc creator guild maxp date size =>
      (EventService.create_event id now ty nm desc creator guild maxp date
         size svc).2
  | SvcDelete id => (EventService.delete_event id svc).2
  | SvcAdd id u => (EventService.add_participant id u svc).2
  | SvcRemove id u => (EventService.remove_participant id u svc).2
  | SvcCheckIn now id u => (EventService.check_in_participant now id u svc).2
  | SvcCheckOut id u => (EventService.check_out_participant id u svc).2
  | SvcEnableCheckIn id s t => (EventService.enable_check_in id s t svc).2
  | SvcDisableCheckIn id => (EventService.disable_check_in id svc).2
  | SvcUpdateStatus id st => (EventService.update_event_status id st svc).2
  | SvcLink m id => EventService.link_message_to_event m id svc
  | SvcByMessage m => (EventService.get_event_by_message_id m svc).2
  | SvcCleanup now days => (EventService.cleanup_old_events now days svc).2
  | SvcSetMessage id m =>
      (EventService.on_event
         (fun event => (true, Event.set_message_id (Some m) event)) id svc).2
  | SvcSetThread id thread =>
      (EventService.on_event
         (fun event => (true, Event.set_thread_id (Some thread) event)) id svc).2
  | SvcSetTeams id teams size =>
      (EventService.on_event
         (fun event => (true, Event.set_teams teams size event)) id svc).2
  | SvcClearTeams id =>
      (EventService.on_event
         (fun event => (true, Event.clear_teams event)) id svc).2
  end.

Definition do_handler_calls (cs : list handler_call) (svc : EventService.t)
    : EventService.t :=
  fold_left (fun svc c => do_handler_call c svc) cs svc.

(** Whether the call stores a new event under the identifier. *)
Definition creates (event_id : string) (c : handler_call) : bool :=
  match c with
  | SvcCreate id _ _ _ _ _ _ _ _ _ => bool_decide (id = event_id)
  | _ => false
  end.

(** ** [services/reminder_service.py] *)

Module ReminderService.

(** What is posted to a thread. *)
Inductive message :=
| Reminder (mentions : list Z) (event_name : string)
| TeamSizePrompt (creator_id : Z) (event_name : string) (participants : Z).

(** The Discord client as the scheduler sees it during one scan:
    whether a thread is in the cache, whether it can be fetched, and
    whether posting a message to it succeeds (it raises otherwise). *)
Record bot := mk_bot {
  get_channel : Z -> bool;
  fetch_channel : Z -> bool;
  thread_send : Z -> message -> bool
}.

(** [_send_team_creation_request]: the messages it posts when no
    handler runs while its post is awaited. *)
Definition _send_team_creation_request (b : bot) (event : Event.t)
    (thread : Z) : list (Z * message) :=
  if Event.has_teams event then []
  else if Z.of_nat (length (Event.participants event)) <? 2 then []
  else
    let prompt := TeamSizePrompt (Event.creator_id event) (Event.name event)
                    (Z.of_nat (length (Event.participants event))) in
    if thread_send b thread prompt then [(thread, prompt)] else [].

(** [_send_event_reminder]: the messages it posts when no handler runs
    during its awaits.  Every exception is caught inside, so the call
    always returns. *)
Definition _send_event_reminder (b : bot) (event : Event.t)
    : list (Z * message) :=
  if negb (truthy_id (Event.thread_id event)) then []
  else
    let thread := default 0 (Event.thread_id event) in
    if negb (get_channel b thread) && negb (fetch_channel b thread) then []
    else if bool_decide (Event.participants event = []) then []
    else
      let reminder := Reminder (Event.participants event) (Event.name event) in
      if thread_send b thread reminder
      then (thread, reminder) :: _send_team_creation_request b event thread
      else [].

(** [timedelta(seconds=30) <= time_until_event <= timedelta(minutes=3)] *)
Definition in_window (time_until_event : Z) : bool :=
  (timedelta_seconds 30 <=? time_until_event)
  && (time_until_event <=? timedelta_minutes 3).

(** Body of the loop of [_check_upcoming_events] for one event when no
    handler runs during the call: the event afterwards and, when
    [_send_event_reminder] was called, what the call posted. *)
Definition check_event (now : datetime.t) (b : bot) (event : Event.t)
    : Event.t * option (list (Z * message)) :=
  match Event.event_date event with
  | None => (event, None)
  | Some event_date =>
      if Event.reminder_sent event then (event, None)
      else
        let time_until_event := datetime.sub event_date now in
        if in_window time_until_event
        then (Event.set_reminder_sent true event,
              Some (_send_event_reminder b event))
        else (event, None)
  end.

(** *** The scan as a task among the handlers

    [_check_upcoming_events] is a coroutine.  It is suspended at the
    awaits of the reminder it sends: the fetch of a thread that is not
    cached, the post of the reminder and the post of the prompt.  While
    it is suspended the handlers of the bot run, and the scan goes on
    with the registry as they left it. *)

(** What the scan holds at an await: the registry, the object bound to
    [event], whether the registry still holds that object under its
    key, and whether a key was added to or deleted from the registry
    since the loop began. *)
Record task := mk_task {
  registry : EventService.t;
  object : Event.t;
  attached : bool;
  keys_changed : bool
}.

(** One call of a handler while the scan is suspended.  The object of
    the scan is detached from the registry when the call deletes its
    key or stores a new event under it; while it is attached, a write
    of the handler is a write on that object.  The handlers look an
    event up in the registry when they change it, so they do not reach
    a detached object. *)
Definition handler_step (key : string) (st : task) (c : handler_call) : task :=
  let svc := do_handler_call c (registry st) in
  let attached' :=
    attached st && negb (creates key c)
    && bool_decide (is_Some (EventService._events svc !! key)) in
  mk_task svc
    (if attached' then default (object st) (EventService._events svc !! key)
     else object st)
    attached'
    (keys_changed st
     || negb (bool_decide
                ((dom (EventService._events svc) : gset string)
                 = dom (EventService._events (registry st))))).

Definition run_handlers (key : string) (cs : list handler_call) (st : task)
    : task :=
  fold_left (handler_step key) cs st.

(** [_send_team_creation_request], with [during_prompt] the calls of
    the handlers that run while the post of the prompt is awaited. *)
Definition _send_team_creation_request_task (b : bot)
    (during_prompt : list handler_call) (key : string) (thread : Z)
    (st : task) : task * list (Z * message) :=
  if Event.has_teams (object st) then (st, [])
  else if Z.of_nat (length (Event.participants (object st))) <? 2 then (st, [])
  else
    let prompt := TeamSizePrompt (Event.creator_id (object st))
                    (Event.name (object st))
                    (Z.of_nat (length (Event.participants (object st)))) in
    let st' := run_handlers key during_prompt st in
    if thread_send b thread prompt then (st', [(thread, prompt)]) else (st', []).

(** [_send_event_reminder], with the calls of the handlers that run
    at each of its awaits.  A thread that is cached is not fetched, so
    nothing runs between the test of the thread handle and the test of
    the participants. *)
Definition _send_event_reminder_task (b : bot)
    (during_fetch during_reminder during_prompt : list handler_call)
    (key : string) (st : task) : task * list (Z * message) :=
  if negb (truthy_id (Event.thread_id (object st))) then (st, [])
  else
    let thread := default 0 (Event.thread_id (object st)) in
    let st1 :=
      if get_channel b thread then st else run_handlers key during_fetch st in
    if negb (get_channel b thread) && negb (fetch_channel b thread)
    then (st1, [])
    else if bool_decide (Event.participants (object st1) = []) then (st1, [])
    else
      let reminder := Reminder (Event.participants (object st1))
                        (Event.name (object st1)) in
      let st2 := run_handlers key during_reminder st1 in
      if thread_send b thread reminder
      then
        let '(st3, posts) :=
          _send_team_creation_request_task b during_prompt key thread st2 in
        (st3, (thread, reminder) :: posts)
      else (st2, []).

(** [event.reminder_sent = True]: a write on the object of the scan,
    which shows in the registry while the registry holds the object. *)
Definition set_latch (key : string) (st : task) : task :=
  let event := Event.set_reminder_sent true (object st) in
  mk_task
    (if attached st
     then EventService.mk (<[key := event]> (EventService._events (registry st)))
            (EventService._message_to_event (registry st))
     else registry st)
    event (attached st) (keys_changed st).

(** What Python leaves open: what the iterator of a dictionary view
    does next when keys were added or deleted since it was made and the
    dictionary has its old size again.  It may raise, stop early, or go
    on with a key of the dictionary. *)
Inductive iterator_choice :=
| RaiseKeysChanged
| StopIteration
| NextKey (key : string).

(** What surrounds one scan: the calls of the handlers during the
    awaits of each reminder, and the choices of the iterator.  Both
    are asked with the number of events that the iterator may still
    yield. *)
Record environment := mk_environment {
  during_fetch : nat -> list handler_call;
  during_reminder : nat -> list handler_call;
  during_prompt : nat -> list handler_call;
  iterator : nat -> iterator_choice
}.

(** The environment in which no handler runs during a scan. *)
Definition quiet : environment :=
  mk_environment (fun _ => []) (fun _ => []) (fun _ => []) (fun _ => StopIteration).

(** Body of the loop of [_check_upcoming_events] for the event that the
    iterator yields under [key]: the task afterwards and, when
    [_send_event_reminder] was called, what the call posted. *)
Definition visit (now : datetime.t) (b : bot) (env : environment) (n : nat)
    (key : string) (event : Event.t) (svc : EventService.t)
    : task * option (list (Z * message)) :=
  let st := mk_task svc event true false in
  match Event.event_date event with
  | None => (st, None)
  | Some event_date =>
      if Event.reminder_sent event then (st, None)
      else
        let time_until_event := datetime.sub event_date now in
        if in_window time_until_event
        then
          let '(st', posts) :=
            _send_event_reminder_task b (during_fetch env n)
              (during_reminder env n) (during_prompt env n) key st in
          (set_latch key st', Some posts)
        else (st, None)
  end.

(** What a scan leaves: the registry, the calls of
    [_send_event_reminder] in the order in which they were made, each
    with the key of its event and what it posted, and the exception
    that ended the scan, if one did. *)
Record scan_result := mk_scan_result {
  scan_registry : EventService.t;
  scan_calls : list (string * list (Z * message));
  scan_raised : option exn
}.

(** The [for] loop over [self.event_service._events.values()].  The
    iterator was made when the dictionary had [size0] entries, listed
    in [pending] from the next one on, and may still yield [n] of them.
    Each time it is asked for the next event it raises [RuntimeError]
    when the dictionary has another size than [size0]; when no key was
    added or deleted it yields the next entry; otherwise what it does
    is the choice of the environment, within its count. *)
Fixpoint iterate (now : datetime.t) (b : bot) (env : environment)
    (size0 n : nat) (changed : bool) (pending : list string)
    (svc : EventService.t) : scan_result :=
  if negb (size (EventService._events svc) =? size0)%nat then
    mk_scan_result svc []
      (Some (RuntimeError "dictionary changed size during iteration"))
  else
    match (if changed then iterator env n
           else match pending with
                | [] => StopIteration
                | key :: _ => NextKey key
                end) with
    | RaiseKeysChanged =>
        mk_scan_result svc []
          (Some (RuntimeError "dictionary keys changed during iteration"))
    | StopIteration => mk_scan_result svc [] None
    | NextKey key =>
        match n with
        | O =>
            mk_scan_result svc []
              (Some (RuntimeError "dictionary keys changed during iteration"))
        | S n' =>
            match EventService._events svc !! key with
            | None => mk_scan_result svc [] None
            | Some event =>
                let '(st, posts) := visit now b env n key event svc in
                let rest :=
                  iterate now b env size0 n' (changed || keys_changed st)
                    (tail pending) (registry st) in
                mk_scan_result (scan_registry rest)
                  (match posts with
                   | Some posts => (key, posts) :: scan_calls rest
                   | None => scan_calls rest
                   end)
                  (scan_raised rest)
            end
        end
    end.

(** [_check_upcoming_events]: [order] lists the keys of the registry in
    the order in which the dictionary holds them. *)
Definition _check_upcoming_events (now : datetime.t) (b : bot)
    (env : environment) (order : list string) (svc : EventService.t)
    : scan_result :=
  iterate now b env (size (EventService._events svc))
    (size (EventService._events svc)) false order svc.

(** One turn of [_reminder_loop]: what the handlers do while the loop
    sleeps, then a scan at the clock reading [clock].  An exception of
    the scan is caught and logged by the loop, which then sleeps longer
    before the next turn. *)
Record tick := mk_tick {
  before : list handler_call;
  clock : datetime.t;
  client : bot;
  surroundings : environment;
  order : list string
}.

(** [_reminder_loop]: the registry after the turns and what each scan
    left. *)
Fixpoint _reminder_loop (ticks : list tick) (svc : EventService.t)
    : EventService.t * list scan_result :=
  match ticks with
  | [] => (svc, [])
  | t :: rest =>
      let scan :=
        _check_upcoming_events (clock t) (client t) (surroundings t) (order t)
          (do_handler_calls (before t) svc) in
      let '(svc', log) := _reminder_loop rest (scan_registry scan) in
      (svc', scan :: log)
  end.

End ReminderService.

(** ** [utils/team_selection_view.py] *)

Module TeamSizeSelectionView.

(** What replaces the prompt after a click. *)
Inductive notice :=
| PermissionNotice
| NoParticipantNotice
| CreationFailedNotice
| TeamsCreatedNotice (teams team_size : Z)
| ErrorNotice.

(** [interaction_check] *)
Definition interaction_check (user_id : Z) (event : Event.t) : bool :=
  bool_decide (user_id = Event.creator_id event).

(** [_handle_team_size_selection]: the event afterwards and the notice
    shown.  [edit_ok] tells whether the edit of the prompt with the
    success notice goes through; when it raises, the handler of the
    [try] shows the error notice and the teams stay assigned. *)
Definition _handle_team_size_selection (rng : nat -> nat) (edit_ok : bool)
    (team_size : Z) (event : Event.t) : Event.t * notice :=
  if bool_decide (Event.participants event = []) then
    (event, NoParticipantNotice)
  else
    match TeamService.randomize_teams rng (Event.participants event) team_size with
    | Raise _ => (event, ErrorNotice)
    | Ok teams =>
        if bool_decide (teams = []) then (event, CreationFailedNotice)
        else
          let event1 := Event.set_teams_attr teams event in
          let event2 := Event.set_team_size (Some team_size) event1 in
          (event2,
           if edit_ok
           then TeamsCreatedNotice (Z.of_nat (length teams)) team_size
           else ErrorNotice)
    end.

(** A click on one of the size buttons by [user_id]: the library runs
    [interaction_check] first and the button's callback only when it
    answers [True]. *)
Definition click_team_size (rng : nat -> nat) (edit_ok : bool) (user_id : Z)
    (team_size : Z) (event : Event.t) : Event.t * notice :=
  if interaction_check user_id event
  then _handle_team_size_selection rng edit_ok team_size event
  else (event, PermissionNotice).

End TeamSizeSelectionView.

(** ** [utils/embeds.py] *)

Module EventEmbeds.

(** [create_event_embed] shows the event it is given, so the embed is
    that event.  Building it raises in one place: with check-in
    enabled, the check-in field divides the checked-in count by the
    participant count whenever the checked-in count is above 0. *)
Definition create_event_embed (event : Event.t) : result Event.t :=
  if Event.check_in_enabled event then
    if 0 <? Event.checked_in_count event then
      if Event.participant_count event =? 0 then Raise ZeroDivisionError
      else Ok event
    else Ok event
  else Ok event.

End EventEmbeds.

(** ** [utils/event_buttons.py] *)

Module EventParticipationView.

(** What the user who clicked is shown. *)
Inductive reply :=
| NotFoundReply
| EmbedUpdated (event : Event.t)
| AlreadyParticipantReply
| EventFullReply
| CannotJoinReply
| NotParticipantReply
| ErrorReply.

(** [join_event]: the registry afterwards and the reply.  The variable
    [event] of the callback is the object that the registry holds, so
    after the call of the service it reads the event as the call left
    it.  [edit_ok] tells whether the edit of the message goes through;
    when it raises, or when building the embed raises, the handler of
    the [try] answers with the error reply. *)
Definition join_event (edit_ok : bool) (event_id : string) (user_id : Z)
    (svc : EventService.t) : EventService.t * reply :=
  match EventService.get_event event_id svc with
  | None => (svc, NotFoundReply)
  | Some event0 =>
      let '(success, svc') := EventService.add_participant event_id user_id svc in
      let event := default event0 (EventService.get_event event_id svc') in
      if success then
        match EventEmbeds.create_event_embed event with
        | Ok embed => (svc', if edit_ok then EmbedUpdated embed else ErrorReply)
        | Raise _ => (svc', ErrorReply)
        end
      else if Event.is_participant user_id event then
        (svc', AlreadyParticipantReply)
      else if Event.is_full event then (svc', EventFullReply)
      else (svc', CannotJoinReply)
  end.

(** [leave_event] *)
Definition leave_event (edit_ok : bool) (event_id : string) (user_id : Z)
    (svc : EventService.t) : EventService.t * reply :=
  match EventService.get_event event_id svc with
  | None => (svc, NotFoundReply)
  | Some event0 =>
      let '(success, svc') :=
        EventService.remove_participant event_id user_id svc in
      let event := default event0 (EventService.get_event event_id svc') in
      if success then
        match EventEmbeds.create_event_embed event with
        | Ok embed => (svc', if edit_ok then EmbedUpdated embed else ErrorReply)
        | Raise _ => (svc', ErrorReply)
        end
      else (svc', NotParticipantReply)
  end.

End EventParticipationView.

(** ** Runs of the scheduler

    Number of calls of [_send_event_reminder] that the scans of a log
    made for an event, and number of reminder messages posted for it. *)
Definition calls_of (event_id : string) (log : list ReminderService.scan_result)
    : list (list (Z * ReminderService.message)) :=
  map snd
    (List.filter (fun call : string * list (Z * ReminderService.message) =>
                    bool_decide (call.1 = event_id))
       (concat (map ReminderService.scan_calls log))).

Definition calls_for (event_id : string)
    (log : list ReminderService.scan_result) : nat :=
  length (calls_of event_id log).

Definition is_reminder (p : Z * ReminderService.message) : bool :=
  match p.2 with
  | ReminderService.Reminder _ _ => true
  | ReminderService.TeamSizePrompt _ _ _ => false
  end.

Definition reminders_posted (event_id : string)
    (log : list ReminderService.scan_result) : nat :=
  length (List.filter is_reminder (concat (calls_of event_id log))).

(** No handler of the surroundings stores a new event under the
    identifier. *)
Definition keeps_event (event_id : string) (env : ReminderService.environment)
    : Prop :=
  forall n,
    Forall (fun c => creates event_id c = false)
      (ReminderService.during_fetch env n ++ ReminderService.during_reminder env n
       ++ ReminderService.during_prompt env n).

Definition tick_keeps_event (event_id : string) (t : ReminderService.tick)
    : Prop :=
  Forall (fun c => creates event_id c = false) (ReminderService.before t)
  /\ keeps_event event_id (ReminderService.surroundings t).

(** The identifier is not in the registry, or the latch of its event
    is closed. *)
Definition latched (event_id : string) (svc : EventService.t) : Prop :=
  forall e, EventService._events svc !! event_id = Some e ->
            Event.reminder_sent e = true.

(** The event that the second registry holds under the identifier, if
    it holds one, is held by the first with the same date and the same
    latch. *)
Definition carried_over (event_id : string) (svc svc' : EventService.t)
    : Prop :=
  forall e',
    EventService._events svc' !! event_id = Some e' ->
    exists e,
      EventService._events svc !! event_id = Some e
      /\ Event.reminder_sent e' = Event.reminder_sent e
      /\ Event.event_date e' = Event.event_date e.

(** The object of a scan and the registry: attached, the registry
    holds the object under the key; detached, the key is gone. *)
Definition tied (key : string) (st : ReminderService.task) : Prop :=
  (ReminderService.attached st = true ->
   EventService._events (ReminderService.registry st) !! key
   = Some (ReminderService.object st))
  /\ (ReminderService.attached st = false ->
      EventService._events (ReminderService.registry st) !! key = None).

(** [order] lists the keys of the registry, each once. *)
Definition lists_keys (order : list string) (svc : EventService.t) : Prop :=
  NoDup order
  /\ forall k, k ∈ order <-> is_Some (EventService._events svc !! k).

(** ** Runs of the entity

    Sequences of calls made on one event, as the command handlers and
    the buttons make them. *)

Inductive call :=
| AddParticipant (user_id : Z)
| RemoveParticipant (user_id : Z).

Definition do_call (c : call) (e : Event.t) : bool * Event.t :=
  match c with
  | AddParticipant u => Event.add_participant u e
  | RemoveParticipant u => Event.remove_participant u e
  end.

(** The states of the event after each call of the sequence. *)
Fixpoint run_calls (cs : list call) (e : Event.t) : list Event.t :=
  match cs with
  | [] => []
  | c :: cs' => let e' := (do_call c e).2 in e' :: run_calls cs' e'
  end.

(** Calls around check-in: joining, leaving, switching check-in on and
    off, and check-in attempts, each attempt at its own clock reading. *)
Inductive attendance_call :=
| Join (user_id : Z)
| Leave (user_id : Z)
| EnableCheckIn (start_time end_time : option datetime.t)
| DisableCheckIn
| CheckIn (now : datetime.t) (user_id : Z).

(** One call: the event afterwards and, for a check-in attempt that
    answered [True], the user checked in. *)
Definition do_attendance_call (c : attendance_call) (e : Event.t)
    : Event.t * option Z :=
  match c with
  | Join u => ((Event.add_participant u e).2, None)
  | Leave u => ((Event.remove_participant u e).2, None)
  | EnableCheckIn s t => (Event.enable_check_in s t e, None)
  | DisableCheckIn => (Event.disable_check_in e, None)
  | CheckIn now u =>
      let '(ok, e') := Event.check_in_participant now u e in
      (e', if ok then Some u else None)
  end.

(** The users whose check-in attempts answered [True], in order. *)
Fixpoint successful_check_ins (cs : list attendance_call) (e : Event.t)
    : list Z :=
  match cs with
  | [] => []
  | c :: cs' =>
      let '(e', r) := do_attendance_call c e in
      match r with
      | Some u => u :: successful_check_ins cs' e'
      | None => successful_check_ins cs' e'
      end
  end.

(** Every call that changes an event. *)
Inductive entity_call :=
| CallAdd (user_id : Z)
| CallRemove (user_id : Z)
| CallCheckIn (now : datetime.t) (user_id : Z)
| CallCheckOut (user_id : Z)
| CallEnableCheckIn (start_time end_time : option datetime.t)
| CallDisableCheckIn
| CallSetTeams (teams : list (list Z)) (team_size : Z)
| CallClearTeams.

Definition do_entity_call (c : entity_call) (e : Event.t) : Event.t :=
  match c with
  | CallAdd u => (Event.add_participant u e).2
  | CallRemove u => (Event.remove_participant u e).2
  | CallCheckIn now u => (Event.check_in_participant now u e).2
  | CallCheckOut u => (Event.check_out_participant u e).2
  | CallEnableCheckIn s t => Event.enable_check_in s t e
  | CallDisableCheckIn => Event.disable_check_in e
  | CallSetTeams ts n => Event.set_teams ts n e
  | CallClearTeams => Event.clear_teams e
  end.

(** The states of the event after each call of the sequence. *)
Fixpoint run_entity_calls (cs : list entity_call) (e : Event.t) : list Event.t :=
  match cs with
  | [] => []
  | c :: cs' => let e' := do_entity_call c e in e' :: run_entity_calls cs' e'
  end.

(** The event after all the calls of the sequence. *)
Definition after_entity_calls (cs : list entity_call) (e : Event.t) : Event.t :=
  fold_left (fun e c => do_entity_call c e) cs e.

(** The users whose check-in attempts answered [True] in the sequence,
    in order. *)
Fixpoint check_ins_answered (cs : list entity_call) (e : Event.t) : list Z :=
  match cs with
  | [] => []
  | c :: cs' =>
      let answered :=
        match c with
        | CallCheckIn now u =>
            if (Event.check_in_participant now u e).1 then [u] else []
        | _ => []
        end in
      answered ++ check_ins_answered cs' (do_entity_call c e)
  end.

(** ** Runs of the registry

    The calls that the command handlers, the buttons and the scheduler
    make on the registry. *)
Inductive service_call :=
| Handler (c : handler_call)
| SvcScan (now : datetime.t) (b : ReminderService.bot)
    (env : ReminderService.environment) (order : list string).

Definition do_service_call (c : service_call) (svc : EventService.t)
    : EventService.t :=
  match c with
  | Handler c => do_handler_call c svc
  | SvcScan now b env order =>
      ReminderService.scan_registry
        (ReminderService._check_upcoming_events now b env order svc)
  end.

(** A call that creates an event gives it a capacity that is not
    negative. *)
Definition sound_handler_call (c : handler_call) : Prop :=
  match c with
  | SvcCreate _ _ _ _ _ _ _ maxp _ _ => 0 <= maxp
  | _ => True
  end.

Definition sound_call (c : service_call) : Prop :=
  match c with
  | Handler c => sound_handler_call c
  | SvcScan _ _ env _ =>
      forall n,
        Forall sound_handler_call
          (ReminderService.during_fetch env n
           ++ ReminderService.during_reminder env n
           ++ ReminderService.during_prompt env n)
  end.

(** The states of the registry after each call of the sequence. *)
Fixpoint run_service_calls (cs : list service_call) (svc : EventService.t)
    : list EventService.t :=
  match cs with
  | [] => []
  | c :: cs' =>
      let svc' := do_service_call c svc in svc' :: run_service_calls cs' svc'
  end.

(** The invariant of the participant sequence. *)
Definition participants_ok (e : Event.t) : Prop :=
  NoDup (Event.participants e)
  /\ Event.participant_count e <= Event.max_participants e.

(** ** Sample values

    Concrete events and clock readings on which the statements below are
    instantiated. *)

Definition noon : datetime.t := datetime.mk 2024 3 5 12 0 0 0.

(** An event for two players with nobody in it, due at 12:01:30. *)
Definition duo_event : Event.t :=
  Event.init noon "a1b2c3d4" GENERAL "Raid" "Weekly raid" 11 22 2
    (Some (datetime.mk 2024 3 5 12 1 30 0)).

(** The same event once users 7 and 8 have joined and were split in
    two teams. *)
Definition duo_event_full : Event.t :=
  Event.set_teams [[7]; [8]] 1
    (Event.add_participant 8 (Event.add_participant 7 duo_event).2).2.

(** The full event with check-in open from 12:00 to 13:00. *)
Definition duo_event_check_in : Event.t :=
  Event.enable_check_in (Some noon) (Some (datetime.mk 2024 3 5 13 0 0 0))
    duo_event_full.

Definition half_past_noon : datetime.t := datetime.mk 2024 3 5 12 30 0 0.

(** A registry that holds the empty event, which has no thread, and a
    client for which every lookup and every post succeeds. *)
Definition duo_registry : EventService.t :=
  EventService.mk {[ "a1b2c3d4" := duo_event ]} ∅.

Definition obliging_bot : ReminderService.bot :=
  ReminderService.mk_bot (fun _ => true) (fun _ => true) (fun _ _ => true).

Definition minute_past_noon : datetime.t := datetime.mk 2024 3 5 12 1 0 0.

(** The full event once its thread exists, then once its reminder went
    out, and a registry that holds the former. *)
Definition threaded_event : Event.t :=
  Event.set_thread_id (Some 555) duo_event_full.

Definition reminded_event : Event.t :=
  Event.set_reminder_sent true threaded_event.

Definition threaded_registry : EventService.t :=
  EventService.mk {[ "a1b2c3d4" := threaded_event ]} ∅.

(** A second event, created after the first and due at 12:01:20, with
    its thread and one participant; a registry that holds both; the
    creation of a third event; and surroundings of a scan in which a
    handler makes that creation while the post of a reminder is
    awaited. *)
Definition solo_event : Event.t :=
  Event.set_thread_id (Some 556)
    (Event.add_participant 9
       (Event.init noon "e5f6a7b8" GENERAL "Strike" "Nightfall" 11 22 3
          (Some (datetime.mk 2024 3 5 12 1 20 0)))).2.

Definition two_due_registry : EventService.t :=
  EventService.mk
    {[ "a1b2c3d4" := threaded_event; "e5f6a7b8" := solo_event ]} ∅.

Definition bingo_created : handler_call :=
  SvcCreate "c9d0e1f2" noon BINGO "Bingo" "Bingo night" 11 22 100 None None.

Definition busy : ReminderService.environment :=
  ReminderService.mk_environment (fun _ => []) (fun _ => [bingo_created])
    (fun _ => []) (fun _ => ReminderService.StopIteration).

(** An event of the attributes that [to_dict] writes: the scheduled
    date, the thread handle and the reminder latch are those of a new
    event. *)
Definition serialized_part (e : Event.t) : Event.t :=
  Event.mk (Event.event_id e) (Event.event_type e) (Event.name e)
    (Event.description e) (Event.creator_id e) (Event.guild_id e)
    (Event.max_participants e) (Event.created_at e) None
    (Event.status e) (Event.participants e)
    (Event.checked_in_participants e) (Event.teams e) (Event.team_size e)
    (Event.message_id e) None false (Event.check_in_enabled e)
    (Event.check_in_start_time e) (Event.check_in_end_time e).

(** A registry whose only event was created on the first of January. *)
Definition new_year : datetime.t := datetime.mk 2024 1 1 9 0 0 0.

Definition stale_event : Event.t :=
  Event.init new_year "0f9e8d7c" BINGO "Bingo night" "First bingo" 11 22 100 None.

Definition stale_registry : EventService.t :=
  EventService.mk {[ "0f9e8d7c" := stale_event ]} ∅.

Definition twentieth_of_march : datetime.t := datetime.mk 2024 3 20 12 0 0 0.

(** The threaded event once its message is posted, in a registry whose
    index does not know the message yet. *)
Definition posted_event : Event.t :=
  Event.set_message_id (Some 999) threaded_event.

Definition posted_registry : EventService.t :=
  EventService.mk {[ "a1b2c3d4" := posted_event ]} ∅.

(** The invariants of one event, and what they say of a whole
    registry. *)
Definition event_ok (e : Event.t) : Prop :=
  participants_ok e /\ NoDup (Event.checked_in_participants e).

(** What the invariants say of a whole registry: every event is stored
    under its own identifier and keeps the invariants of its two
    sequences. *)
Definition registry_ok (svc : EventService.t) : Prop :=
  forall k e,
    EventService._events svc !! k = Some e ->
    Event.event_id e = k
    /\ participants_ok e
    /\ NoDup (Event.checked_in_participants e).

(** * Properties *)

(** ** Python list primitives *)

Lemma py_in_true (x : Z) (l : list Z) : py_in x l = true <-> x ∈ l.
Proof. unfold py_in. apply bool_decide_eq_true. Qed.

Lemma py_in_false (x : Z) (l : list Z) : py_in x l = false <-> x ∉ l.
Proof. unfold py_in. apply bool_decide_eq_false. Qed.

(** [l.remove(x)] takes out the first occurrence of [x] and nothing else. *)
Lemma py_remove_split (x : Z) (l : list Z) :
  x ∈ l ->
  exists l1 l2, l = l1 ++ x :: l2 /\ (x ∉ l1) /\ py_remove x l = l1 ++ l2.
Proof.
  induction l as [|y l IH]; intros Hin.
  - by apply elem_of_nil in Hin.
  - simpl. destruct (decide (x = y)) as [->|Hne].
    + exists [], l. split_and!; [done | apply not_elem_of_nil | done].
    + apply elem_of_cons in Hin as [Heq|Hin]; [done|].
      destruct (IH Hin) as (l1 & l2 & -> & Hnot & ->).
      exists (y :: l1), l2. split_and!; [done | | done].
      rewrite not_elem_of_cons. done.
Qed.

Lemma py_remove_absent (x : Z) (l : list Z) : x ∉ l -> py_remove x l = l.
Proof.
  induction l as [|y l IH]; [done|]. intros Hnot.
  apply not_elem_of_cons in Hnot as [Hne Hnot].
  simpl. destruct (decide (x = y)); [done|]. by rewrite IH.
Qed.

Lemma py_remove_length (x : Z) (l : list Z) :
  x ∈ l -> S (length (py_remove x l)) = length l.
Proof.
  intros Hin. destruct (py_remove_split x l Hin) as (l1 & l2 & -> & _ & ->).
  rewrite !length_app. simpl. lia.
Qed.

Lemma py_remove_sublist (x : Z) (l : list Z) : py_remove x l `sublist_of` l.
Proof.
  induction l as [|y l IH]; [done|]. simpl.
  destruct (decide (x = y)).
  - by apply sublist_cons.
  - by apply sublist_skip.
Qed.

Lemma py_remove_NoDup (x : Z) (l : list Z) :
  NoDup l -> NoDup (py_remove x l) /\ x ∉ py_remove x l.
Proof.
  intros Hnd. split.
  - eapply sublist_NoDup; [done | apply py_remove_sublist].
  - destruct (decide (x ∈ l)) as [Hin|Hnot].
    + destruct (py_remove_split x l Hin) as (l1 & l2 & -> & Hl1 & ->).
      apply NoDup_app in Hnd as (_ & Hdisj & Hnd2).
      apply NoDup_cons in Hnd2 as [Hl2 _].
      rewrite elem_of_app. tauto.
    + by rewrite py_remove_absent.
Qed.

(** ** The event entity *)

Section entity.
Import Event.

Lemma is_full_true (e : t) :
  is_full e = true <-> max_participants e <= participant_count e.
Proof. unfold is_full. apply Z.leb_le. Qed.

Lemma is_full_false (e : t) :
  is_full e = false <-> participant_count e < max_participants e.
Proof. unfold is_full. apply Z.leb_gt. Qed.

(** What [add_participant] computes, in every state. *)
Lemma add_participant_eq (user_id : Z) (e : t) :
  add_participant user_id e =
    if decide (user_id ∈ participants e \/
               max_participants e <= participant_count e)
    then (false, e)
    else (true,
          let e1 := set_participants (participants e ++ [user_id]) e in
          if decide (max_participants e <= participant_count e + 1)
          then set_status FULL e1 else e1).
Proof.
  unfold add_participant.
  destruct (py_in user_id (participants e)) eqn:Hin.
  { apply py_in_true in Hin. rewrite decide_True; tauto. }
  apply py_in_false in Hin.
  destruct (is_full e) eqn:Hfull.
  { apply is_full_true in Hfull. rewrite decide_True; tauto. }
  apply is_full_false in Hfull.
  rewrite decide_False by (intros [?|?]; [done | lia]).
  f_equal.
  assert (Hcount : participant_count
                     (set_participants (participants e ++ [user_id]) e)
                   = participant_count e + 1).
  { unfold participant_count. simpl. rewrite length_app. simpl. lia. }
  destruct (is_full _) eqn:Hfull'.
  - apply is_full_true in Hfull'. rewrite Hcount in Hfull'. simpl in Hfull'.
    by rewrite decide_True.
  - apply is_full_false in Hfull'. rewrite Hcount in Hfull'. simpl in Hfull'.
    rewrite decide_False; [done | lia].
Qed.

(** C4. [add_participant] answers [False] and leaves the event as it
    is when the user is already a participant or the event is at
    capacity ([participant_count = max_participants]).  Otherwise, in a
    state within capacity ([participant_count <= max_participants], the
    invariant of the data model), it answers [True], the user is
    appended at the end of the participant sequence, the status becomes
    [FULL] exactly when this addition reaches capacity (and is kept
    otherwise), and no other attribute changes. *)
Theorem add_participant_spec (user_id : Z) (e : t) :
  let at_capacity := participant_count e = max_participants e in
  (user_id ∈ participants e \/ at_capacity ->
     add_participant user_id e = (false, e))
  /\ (participant_count e <= max_participants e ->
      ~ (user_id ∈ participants e \/ at_capacity) ->
       exists e',
         add_participant user_id e = (true, e')
         /\ participants e' = participants e ++ [user_id]
         /\ (participant_count e' = max_participants e' -> status e' = FULL)
         /\ (participant_count e' <> max_participants e' -> status e' = status e)
         /\ set_status (status e) (set_participants (participants e) e') = e).
Proof.
  intros at_capacity. subst at_capacity.
  rewrite add_participant_eq. split.
  - intros Hfail. rewrite decide_True; [done|].
    destruct Hfail as [?|Heq]; [by left | right; lia].
  - intros Hinv Hok.
    rewrite decide_False by (intros [?|?]; apply Hok; [by left | right; lia]).
    eexists. split; [reflexivity|].
    assert (participant_count e < max_participants e) as Hlt.
    { destruct (decide (participant_count e = max_participants e)); [|lia].
      exfalso. apply Hok. by right. }
    destruct e. unfold participant_count in *. simpl in *.
    case_decide; simpl; rewrite ?length_app; simpl;
      (split_and!; [done | intros; done || lia | intros; done || lia | done]).
Qed.

Lemma add_participant_spec_witness :
  add_participant 7 duo_event_full = (false, duo_event_full)
  /\ exists e', add_participant 7 duo_event = (true, e')
                /\ participants e' = [7].
Proof.
  split.
  - apply (add_participant_spec 7 duo_event_full). right. reflexivity.
  - destruct (add_participant_spec 7 duo_event) as [_ Hok].
    destruct Hok as (e' & Hadd & Hps & _).
    + vm_compute. discriminate.
    + intros [Hin|Hcap]; [by apply elem_of_nil in Hin | discriminate Hcap].
    + exists e'. split; [exact Hadd | exact Hps].
Defined.

(** The loop over the teams edits the first team that holds the user
    and no other. *)
Lemma remove_from_first_team_spec (user_id : Z) (ts : list (list Z)) :
  (Forall (fun team => user_id ∉ team) ts
   /\ remove_from_first_team user_id ts = ts)
  \/ (exists before team after,
        ts = before ++ team :: after
        /\ Forall (fun team => user_id ∉ team) before
        /\ user_id ∈ team
        /\ remove_from_first_team user_id ts
           = before ++ py_remove user_id team :: after).
Proof.
  induction ts as [|team rest IH]; simpl.
  - left. by split.
  - destruct (py_in user_id team) eqn:Hin.
    + apply py_in_true in Hin. right. exists [], team, rest.
      by split_and!.
    + apply py_in_false in Hin.
      destruct IH as [[Hall Heq]|(before & team' & after & -> & Hall & Hin' & Heq)].
      * left. split; [by constructor | by rewrite Heq].
      * right. exists (team :: before), team', after.
        split_and!; [done | by constructor | done | by rewrite Heq].
Qed.

(** C5. [remove_participant] answers [False] and changes nothing when
    the user is not a participant.  Otherwise it answers [True]; the
    user's entry leaves the participant sequence (which then no longer
    holds the user when it had no duplicate); the first team that
    holds the user loses that entry and every other team is as
    before; the checked-in sequence is as before; the status goes from
    [FULL] to [OPEN] exactly when it was [FULL] and the event is below
    capacity after the removal; no other attribute changes. *)
Theorem remove_participant_spec (user_id : Z) (e : t) :
  (user_id ∉ participants e -> remove_participant user_id e = (false, e))
  /\ (user_id ∈ participants e ->
       exists e',
         remove_participant user_id e = (true, e')
         /\ (exists l1 l2,
               participants e = l1 ++ user_id :: l2 /\ (user_id ∉ l1)
               /\ participants e' = l1 ++ l2)
         /\ (NoDup (participants e) -> user_id ∉ participants e')
         /\ ((Forall (fun team => user_id ∉ team) (teams e)
              /\ teams e' = teams e)
             \/ (exists before after l1 l2,
                   teams e = before ++ (l1 ++ user_id :: l2) :: after
                   /\ Forall (fun team => user_id ∉ team) before
                   /\ (user_id ∉ l1)
                   /\ teams e' = before ++ (l1 ++ l2) :: after))
         /\ checked_in_participants e' = checked_in_participants e
         /\ (status e = FULL /\ participant_count e' < max_participants e' ->
               status e' = OPEN)
         /\ (~ (status e = FULL /\ participant_count e' < max_participants e') ->
               status e' = status e)
         /\ set_status (status e)
              (set_teams_attr (teams e)
                 (set_participants (participants e) e')) = e).
Proof.
  unfold remove_participant. split.
  - intros Hnot. apply py_in_false in Hnot. by rewrite Hnot.
  - intros Hin. pose proof Hin as Hin'. apply py_in_true in Hin'.
    rewrite Hin'. simpl negb. cbv iota.
    eexists. split; [reflexivity|].
    set (e1 := set_participants _ e).
    set (e2 := set_teams_attr _ e1).
    assert (Hteams :
      (Forall (fun team => user_id ∉ team) (teams e) /\ teams e2 = teams e)
      \/ (exists before after l1 l2,
            teams e = before ++ (l1 ++ user_id :: l2) :: after
            /\ Forall (fun team => user_id ∉ team) before
            /\ (user_id ∉ l1)
            /\ teams e2 = before ++ (l1 ++ l2) :: after)).
    { destruct (remove_from_first_team_spec user_id (teams e))
        as [[Hall Heq]|(before & team & after & Hts & Hall & Hteam & Heq)].
      - left. by split.
      - right.
        destruct (py_remove_split user_id team Hteam) as (l1 & l2 & -> & Hl1 & Hrm).
        exists before, after, l1, l2. split_and!; [done..|].
        subst e2 e1. simpl. by rewrite Heq, Hrm. }
    assert (Hfull : is_full e2 = false <-> participant_count e2 < max_participants e2)
      by apply is_full_false.
    destruct (py_remove_split user_id (participants e) Hin)
      as (l1 & l2 & Hps & Hl1 & Hrm).
    assert (Hnodup : NoDup (participants e) -> user_id ∉ participants e2).
    { intros Hnd. by apply py_remove_NoDup. }
    destruct (bool_decide (status e2 = FULL)) eqn:Hst.
    + apply bool_decide_eq_true in Hst.
      destruct (is_full e2) eqn:Hf; simpl.
      * split_and!; try done.
        -- by exists l1, l2.
        -- intros [_ Hlt]. apply Hfull in Hlt. done.
        -- subst e2 e1. by destruct e.
      * split_and!; try done.
        -- by exists l1, l2.
        -- intros Hno. exfalso. apply Hno. split; [done|]. by apply Hfull.
        -- subst e2 e1. by destruct e.
    + apply bool_decide_eq_false in Hst. simpl.
      split_and!; try done.
      * by exists l1, l2.
      * intros [Hfl _]. done.
      * subst e2 e1. by destruct e.
Qed.

Lemma remove_participant_spec_witness :
  exists e', remove_participant 7 duo_event_full = (true, e')
             /\ (7 ∉ participants e')
             /\ status e' = OPEN.
Proof.
  destruct (remove_participant_spec 7 duo_event_full) as [_ Hok].
  destruct Hok as (e' & Hrm & _ & Hgone & _ & _ & Hopen & _).
  - apply list_elem_of_here.
  - exists e'. split; [exact Hrm|]. injection Hrm as <-. split.
    + apply Hgone. vm_compute. apply NoDup_cons. split.
      * intros Hin. apply list_elem_of_singleton in Hin. discriminate Hin.
      * apply NoDup_singleton.
    + apply Hopen. split; [reflexivity | vm_compute; reflexivity].
Defined.

(** *** The participant invariant *)

Lemma add_participant_max (user_id : Z) (e : t) :
  max_participants (add_participant user_id e).2 = max_participants e.
Proof.
  rewrite add_participant_eq. repeat case_decide; by destruct e.
Qed.

Lemma remove_participant_max (user_id : Z) (e : t) :
  max_participants (remove_participant user_id e).2 = max_participants e.
Proof.
  unfold remove_participant.
  destruct (py_in _ _); simpl; [|done].
  destruct (_ && _); by destruct e.
Qed.

Lemma add_participant_ok (user_id : Z) (e : t) :
  participants_ok e -> participants_ok (add_participant user_id e).2.
Proof.
  intros [Hnd Hle]. rewrite add_participant_eq.
  case_decide as Hc; [by split|].
  assert ((user_id ∉ participants e)
          /\ participant_count e < max_participants e) as [Hnot Hlt].
  { split; [tauto|]. destruct (Z_lt_le_dec (participant_count e)
                                 (max_participants e)); tauto. }
  assert (participants_ok (set_participants (participants e ++ [user_id]) e))
    as Hok.
  { split; unfold participant_count in *; simpl.
    - apply NoDup_app. split_and!; [done | | apply NoDup_singleton].
      intros x Hx ->%list_elem_of_singleton. done.
    - destruct e; simpl in *. rewrite length_app. simpl. lia. }
  simpl. case_decide; [|done].
  destruct Hok as [? ?]. split; by destruct e.
Qed.

Lemma remove_participant_ok (user_id : Z) (e : t) :
  participants_ok e -> participants_ok (remove_participant user_id e).2.
Proof.
  intros [Hnd Hle]. unfold remove_participant.
  destruct (py_in user_id (participants e)) eqn:Hin; simpl; [|by split].
  apply py_in_true in Hin.
  assert (participants_ok
            (set_teams_attr
               (remove_from_first_team user_id (teams e))
               (set_participants (py_remove user_id (participants e)) e)))
    as Hok.
  { split; unfold participant_count in *; simpl.
    - by apply py_remove_NoDup.
    - pose proof (py_remove_length user_id (participants e) Hin).
      destruct e; simpl in *. lia. }
  destruct (_ && _); [|done].
  destruct Hok as [? ?]. split; by destruct e.
Qed.

Lemma do_call_ok (c : call) (e : t) :
  participants_ok e -> participants_ok (do_call c e).2.
Proof.
  destruct c; [apply add_participant_ok | apply remove_participant_ok].
Qed.

Lemma do_call_max (c : call) (e : t) :
  max_participants (do_call c e).2 = max_participants e.
Proof.
  destruct c; [apply add_participant_max | apply remove_participant_max].
Qed.

Lemma run_calls_ok (cs : list call) (e : t) :
  participants_ok e ->
  Forall (fun e' => participants_ok e'
                    /\ max_participants e' = max_participants e)
    (run_calls cs e).
Proof.
  revert e. induction cs as [|c cs IH]; intros e Hok; simpl.
  - constructor.
  - constructor.
    + split; [by apply do_call_ok | apply do_call_max].
    + eapply Forall_impl; [apply IH; by apply do_call_ok|].
      intros e' [? Hmax]. split; [done|]. by rewrite Hmax, do_call_max.
Qed.

(** C6. From the created state of an event whose capacity is not
    negative, after each call of any sequence of [add_participant] and
    [remove_participant] calls with any user ids, the participant
    sequence holds no user twice and the participant count does not
    exceed the capacity the event was created with. *)
Theorem participants_invariant
    (now : datetime.t) (id : string) (ty : EventType) (nm desc : string)
    (creator guild maxp : Z) (date : option datetime.t) (cs : list call) :
  0 <= maxp ->
  Forall (fun e => NoDup (participants e)
                   /\ participant_count e <= maxp
                   /\ max_participants e = maxp)
    (run_calls cs (init now id ty nm desc creator guild maxp date)).
Proof.
  intros Hmax.
  eapply Forall_impl.
  - apply run_calls_ok. split; simpl; [apply NoDup_nil_2 | exact Hmax].
  - simpl. intros e [[Hnd Hle] Heq]. rewrite Heq in Hle. done.
Qed.

Lemma participants_invariant_witness :
  Forall (fun e => NoDup (participants e)
                   /\ participant_count e <= 2
                   /\ max_participants e = 2)
    (run_calls [AddParticipant 7; AddParticipant 7; AddParticipant 8;
                AddParticipant 9; RemoveParticipant 7; AddParticipant 9]
       duo_event).
Proof.
  apply (participants_invariant noon "a1b2c3d4" GENERAL "Raid" "Weekly raid"
           11 22 2 (Some (datetime.mk 2024 3 5 12 1 30 0))).
  vm_compute. discriminate.
Defined.

(** *** Check-in *)

(** No call around check-in takes a user out of the checked-in
    sequence, and a successful attempt is by a user who was not in it. *)
Lemma do_attendance_call_checked_in (c : attendance_call) (e : t) (u : Z) :
  u ∈ checked_in_participants e ->
  u ∈ checked_in_participants (do_attendance_call c e).1
  /\ (do_attendance_call c e).2 <> Some u.
Proof.
  intros Hin. destruct c as [v|v|s t'| |now v]; simpl.
  - split; [|done]. rewrite add_participant_eq.
    repeat case_decide; by destruct e.
  - split; [|done]. unfold remove_participant.
    destruct (py_in v _); simpl; [|done]. destruct (_ && _); by destruct e.
  - by destruct e.
  - by destruct e.
  - unfold check_in_participant.
    destruct (negb (is_participant v e)); [done|].
    destruct (negb (check_in_enabled e)); [done|].
    destruct (before_start now e); [done|].
    destruct (after_end now e); [done|].
    destruct (py_in v (checked_in_participants e)) eqn:Hv; [done|].
    apply py_in_false in Hv. simpl. split.
    + destruct e; simpl in *. apply elem_of_app. by left.
    + intros [= ->]. done.
Qed.

Lemma do_attendance_call_success (c : attendance_call) (e : t) (u : Z) :
  (do_attendance_call c e).2 = Some u ->
  u ∈ checked_in_participants (do_attendance_call c e).1.
Proof.
  destruct c as [v|v|s t'| |now v]; simpl; try done.
  destruct (check_in_participant now v e) as [ok e'] eqn:Hci. simpl.
  destruct ok; [|done]. intros [= ->].
  unfold check_in_participant in Hci.
  repeat match type of Hci with
         | (if ?b then _ else _) = _ => destruct b; [done|]
         end.
  injection Hci as <-. destruct e; simpl. apply elem_of_app. right.
  apply list_elem_of_here.
Qed.

Lemma successful_check_ins_fresh (cs : list attendance_call) (e : t) (u : Z) :
  u ∈ checked_in_participants e -> u ∉ successful_check_ins cs e.
Proof.
  revert e. induction cs as [|c cs IH]; intros e Hin; simpl.
  - apply not_elem_of_nil.
  - destruct (do_attendance_call_checked_in c e u Hin) as [Hin' Hne].
    destruct (do_attendance_call c e) as [e' r]. simpl in *.
    destruct r as [v|]; [|by apply IH].
    apply not_elem_of_cons. split; [congruence | by apply IH].
Qed.

Lemma successful_check_ins_NoDup (cs : list attendance_call) (e : t) :
  NoDup (successful_check_ins cs e).
Proof.
  revert e. induction cs as [|c cs IH]; intros e; simpl.
  - apply NoDup_nil_2.
  - pose proof (do_attendance_call_success c e) as Hs.
    destruct (do_attendance_call c e) as [e' r]. simpl in *.
    destruct r as [v|]; [|apply IH].
    apply NoDup_cons. split; [|apply IH].
    apply successful_check_ins_fresh. by apply Hs.
Qed.

(** Every call but the user's own check-out keeps a checked-in user
    checked in. *)
Lemma do_entity_call_checked_in (c : entity_call) (e : t) (u : Z) :
  u ∈ checked_in_participants e ->
  c <> CallCheckOut u ->
  u ∈ checked_in_participants (do_entity_call c e).
Proof.
  intros Hin Hc. destruct c as [v|v|now v|v|s t'| |ts n|]; simpl.
  - rewrite add_participant_eq. repeat case_decide; by destruct e.
  - unfold remove_participant.
    destruct (py_in v _); simpl; [|done]. destruct (_ && _); by destruct e.
  - unfold check_in_participant.
    repeat match goal with
           | |- context [if ?b then _ else _] => destruct b; [done|]
           end.
    destruct e; simpl in *. apply elem_of_app. by left.
  - unfold check_out_participant.
    destruct (py_in v (checked_in_participants e)) eqn:Hv; simpl; [|done].
    assert (u <> v) by congruence.
    destruct e; simpl in *. clear Hc Hv.
    induction checked_in_participants0 as [|x l IH]; [done|].
    simpl. apply elem_of_cons in Hin as [->|Hin].
    + rewrite decide_False by done. apply list_elem_of_here.
    + case_decide; [done|]. apply list_elem_of_further. by apply IH.
  - by destruct e.
  - by destruct e.
  - by destruct e.
  - by destruct e.
Qed.

(** After a check-in that answered [True], the next [True] for the
    same user comes after a check-out of the user that answered
    [True]. *)
Lemma check_in_again_after_check_out (cs : list entity_call)
    (now : datetime.t) (u : Z) (e : t) :
  u ∈ checked_in_participants e ->
  (check_in_participant now u (after_entity_calls cs e)).1 = true ->
  exists cs1 cs2,
    cs = cs1 ++ CallCheckOut u :: cs2
    /\ (check_out_participant u (after_entity_calls cs1 e)).1 = true.
Proof.
  revert e. induction cs as [|c cs IH]; intros e Hin Htrue.
  - exfalso. simpl in Htrue. unfold check_in_participant in Htrue.
    rewrite (proj2 (py_in_true _ _) Hin) in Htrue.
    repeat match type of Htrue with
           | (if ?b then _ else _).1 = _ => destruct b; [done|]
           end.
    done.
  - assert (Hdec : c = CallCheckOut u \/ c <> CallCheckOut u).
    { destruct c as [v|v|now' v|v|s t'| |ts n|]; try (by right).
      destruct (decide (v = u)) as [->|Hne]; [by left | right; congruence]. }
    destruct Hdec as [->|Hc].
    + exists [], cs. split; [done|]. simpl.
      unfold check_out_participant.
      by rewrite (proj2 (py_in_true _ _) Hin).
    + destruct (IH (do_entity_call c e)) as (cs1 & cs2 & -> & Hout);
        [by apply do_entity_call_checked_in | done|].
      by exists (c :: cs1), cs2.
Qed.

(** C7 (amended). [check_in_participant] answers [False] and leaves
    the event (so also the checked-in sequence) as it is whenever the
    user is not a participant, or check-in is not enabled, or a start
    bound is set and the clock is before it, or an end bound is set and
    the clock is after it, or the user is already checked in.  In every
    other case it answers [True] and appends the user to the
    checked-in sequence, changing nothing else.  Hence, over any
    sequence of joins, leaves, check-in switches and check-in attempts
    by any users at any times, no user gets the answer [True] twice;
    and over sequences of any calls on the event, a user who got the
    answer [True] gets it again only after a [check_out_participant]
    of that user that answered [True]. *)
Theorem check_in_participant_spec (now : datetime.t) (user_id : Z) (e : t) :
  let refused :=
    user_id ∉ participants e
    \/ check_in_enabled e = false
    \/ (exists s, check_in_start_time e = Some s
                  /\ datetime.micros now < datetime.micros s)
    \/ (exists s, check_in_end_time e = Some s
                  /\ datetime.micros s < datetime.micros now)
    \/ user_id ∈ checked_in_participants e in
  (refused -> check_in_participant now user_id e = (false, e))
  /\ (~ refused ->
       check_in_participant now user_id e =
         (true, set_checked_in_participants
                  (checked_in_participants e ++ [user_id]) e))
  /\ (forall cs e0, NoDup (successful_check_ins cs e0))
  /\ (forall (cs : list entity_call) now1 now2 u e1 e1',
        check_in_participant now1 u e1 = (true, e1') ->
        (check_in_participant now2 u (after_entity_calls cs e1')).1 = true ->
        exists cs1 cs2,
          cs = cs1 ++ CallCheckOut u :: cs2
          /\ (check_out_participant u (after_entity_calls cs1 e1')).1 = true).
Proof.
  intros refused.
  assert (Hcases :
    (refused /\ check_in_participant now user_id e = (false, e))
    \/ (~ refused
        /\ check_in_participant now user_id e =
             (true, set_checked_in_participants
                      (checked_in_participants e ++ [user_id]) e))).
  { unfold check_in_participant, is_participant, refused.
    destruct (py_in user_id (participants e)) eqn:Hp; simpl;
      [apply py_in_true in Hp | apply py_in_false in Hp; left; tauto].
    destruct (check_in_enabled e) eqn:Hen; simpl; [|left; tauto].
    unfold before_start, after_end, datetime.ltb, datetime.gtb.
    destruct (check_in_start_time e) as [s|] eqn:Hs;
      [destruct (Z.ltb_spec (datetime.micros now) (datetime.micros s))
         as [Hlt|Hge];
       [left; split; [|done]; right; right; left; by exists s|]|];
    (destruct (check_in_end_time e) as [t'|] eqn:Ht;
      [destruct (Z.ltb_spec (datetime.micros t') (datetime.micros now))
         as [Hlt'|Hge'];
       [left; split; [|done]; do 3 right; left; by exists t'|]|]);
    (destruct (py_in user_id (checked_in_participants e)) eqn:Hc;
      [apply py_in_true in Hc; left; tauto|]);
    apply py_in_false in Hc; right; (split; [|done]);
    intros [?|[?|[(s' & Hs' & ?)|[(s' & Hs' & ?)|?]]]];
      try done; simplify_eq; lia. }
  split_and!.
  - intros Hr. by destruct Hcases as [[_ ?]|[? _]].
  - intros Hr. by destruct Hcases as [[? _]|[_ ?]].
  - apply successful_check_ins_NoDup.
  - intros cs now1 now2 u e1 e1' Hfirst Hsecond.
    apply (check_in_again_after_check_out cs now2); [|done].
    unfold check_in_participant in Hfirst.
    repeat match type of Hfirst with
           | (if ?b then _ else _) = _ => destruct b; [done|]
           end.
    injection Hfirst as <-. destruct e1; simpl. apply elem_of_app. right.
    apply list_elem_of_here.
Qed.

(** C7, as stated, fails: with check-in open from 12:00 to 13:00, user
    7 checks in at 12:30, checks out and checks in again at 12:30, and
    gets the answer [True] both times in the same window. *)
Lemma check_in_participant_twice :
  let cs := [CallCheckIn half_past_noon 7; CallCheckOut 7;
             CallCheckIn half_past_noon 7] in
  check_ins_answered cs duo_event_check_in = [7; 7]
  /\ ~ NoDup (check_ins_answered cs duo_event_check_in)
  /\ Forall (fun e => is_check_in_active half_past_noon e = true)
       (duo_event_check_in :: run_entity_calls cs duo_event_check_in).
Proof.
  split_and!.
  - vm_compute. reflexivity.
  - assert (Heq : check_ins_answered
                    [CallCheckIn half_past_noon 7; CallCheckOut 7;
                     CallCheckIn half_past_noon 7] duo_event_check_in
                  = [7; 7]) by (vm_compute; reflexivity).
    cbn zeta. rewrite Heq. intros Hnd. apply NoDup_cons in Hnd as [Hnot _].
    apply Hnot, list_elem_of_here.
  - repeat (apply Forall_cons; split; [vm_compute; reflexivity|]).
    apply Forall_nil_2.
Qed.

Lemma check_in_participant_spec_witness :
  check_in_participant half_past_noon 9 duo_event_check_in
    = (false, duo_event_check_in)
  /\ check_in_participant half_past_noon 7 duo_event_check_in
     = (true, set_checked_in_participants [7] duo_event_check_in).
Proof.
  split.
  - apply (check_in_participant_spec half_past_noon 9 duo_event_check_in).
    left. vm_compute. intros Hin.
    apply elem_of_cons in Hin as [Heq|Hin]; [discriminate Heq|].
    apply list_elem_of_singleton in Hin. discriminate Hin.
  - apply (check_in_participant_spec half_past_noon 7 duo_event_check_in).
    intros [Hnot|[Hoff|[(s & Hs & Hlt)|[(s & Hs & Hlt)|Hin]]]].
    + apply Hnot. apply list_elem_of_here.
    + discriminate Hoff.
    + injection Hs as <-. vm_compute in Hlt. discriminate Hlt.
    + injection Hs as <-. vm_compute in Hlt. discriminate Hlt.
    + by apply elem_of_nil in Hin.
Defined.

End entity.

(** ** The team randomizer *)

Section randomizer.
Import TeamService.

(** *** The shuffle returns a permutation *)

Lemma insert_cons_Permutation (x : list Z) (j : nat) (a b : Z) :
  x !! j = Some b -> b :: <[j:=a]> x ≡ₚ a :: x.
Proof.
  revert j. induction x as [|y x IH]; intros [|j] Hj; simpl in *; try done.
  - injection Hj as ->. apply perm_swap.
  - etrans; [apply perm_swap|].
    etrans; [apply Permutation_skip, (IH j Hj) | apply perm_swap].
Qed.

Lemma insert_insert_Permutation (x : list Z) (i j : nat) (a b : Z) :
  x !! i = Some a -> x !! j = Some b -> <[j:=a]> (<[i:=b]> x) ≡ₚ x.
Proof.
  revert i j. induction x as [|y x IH]; intros [|i] [|j] Hi Hj;
    simpl in *; try done.
  - by simplify_eq.
  - injection Hi as ->. by apply insert_cons_Permutation.
  - injection Hj as ->. by apply insert_cons_Permutation.
  - apply Permutation_skip. by apply IH.
Qed.

Lemma swap_Permutation (i j : nat) (x : list Z) : swap i j x ≡ₚ x.
Proof.
  unfold swap.
  destruct (x !! i) as [a|] eqn:Hi; [|done].
  destruct (x !! j) as [b|] eqn:Hj; [|done].
  by apply insert_insert_Permutation.
Qed.

Lemma shuffle_from_Permutation (rng : nat -> nat) (i : nat) (x : list Z) :
  shuffle_from rng i x ≡ₚ x.
Proof.
  revert x. induction i as [|i IH]; intros x; simpl; [done|].
  rewrite IH. apply swap_Permutation.
Qed.

Lemma shuffle_Permutation (rng : nat -> nat) (x : list Z) :
  shuffle rng x ≡ₚ x.
Proof. apply shuffle_from_Permutation. Qed.

(** *** The teams are the complete chunks of the shuffled sequence *)

Lemma chunk_length_complete (l : list Z) (n k : nat) :
  (0 < n)%nat ->
  length (chunk l n k) = n <-> (k < length l / n)%nat.
Proof.
  intros Hn. unfold chunk. rewrite length_take, length_drop.
  pose proof (Nat.div_mod_eq (length l) n) as Hdm.
  pose proof (Nat.mod_upper_bound (length l) n ltac:(lia)) as Hmod.
  split; intros H; nia.
Qed.

Lemma fold_add_complete_team (l : list Z) (n c : nat) :
  (0 < n)%nat ->
  fold_left (add_complete_team l n)
    (map (fun k => (k * n)%nat) (seq 0 c)) []
  = map (chunk l n) (seq 0 (c `min` (length l / n))).
Proof.
  intros Hn. induction c as [|c IH]; [done|].
  rewrite seq_S, map_app, fold_left_app, IH.
  change (0 + c)%nat with c. cbn [map fold_left].
  unfold add_complete_team, slice.
  replace (c * n + n - c * n)%nat with n by lia.
  fold (chunk l n c).
  destruct (Nat.eqb_spec (length (chunk l n c)) n) as [Heq|Hne].
  - apply chunk_length_complete in Heq; [|done].
    replace (S c `min` (length l / n))%nat with (S c) by lia.
    replace (c `min` (length l / n))%nat with c by lia.
    by rewrite seq_S, map_app.
  - rewrite chunk_length_complete in Hne by done.
    f_equal. f_equal. lia.
Qed.

Lemma make_teams_eq (l : list Z) (n : nat) :
  (0 < n)%nat ->
  make_teams l n = map (chunk l n) (seq 0 (length l / n)).
Proof.
  intros Hn. unfold make_teams, range_step.
  rewrite fold_add_complete_team by done.
  f_equal. f_equal.
  assert (length l / n <= (length l + n - 1) / n)%nat; [|lia].
  apply Nat.Div0.div_le_mono. lia.
Qed.

Lemma concat_chunks (l : list Z) (n m : nat) :
  concat (map (chunk l n) (seq 0 m)) = take (m * n) l.
Proof.
  induction m as [|m IH]; [done|].
  rewrite seq_S, map_app, concat_app, IH. simpl.
  rewrite app_nil_r. unfold chunk.
  rewrite take_take_drop. f_equal. lia.
Qed.

Lemma valid_team_size_range (team_size : Z) :
  team_size ∈ [1; 2; 3; 4; 6] -> 1 <= team_size <= 6.
Proof. rewrite !elem_of_cons, elem_of_nil. lia. Qed.

(** The outcome of the argument checks. *)
Lemma randomize_teams_cases (rng : nat -> nat) (ids : list Z) (ts : Z) :
  let invalid :=
    ids = [] \/ (ts ∉ [1; 2; 3; 4; 6])
    \/ (1 < ts /\ Z.of_nat (length ids) < ts) in
  (invalid /\ exists msg, randomize_teams rng ids ts = Raise (ValueError msg))
  \/ (~ invalid
      /\ randomize_teams rng ids ts
         = Ok (make_teams (shuffle rng ids) (Z.to_nat ts))).
Proof.
  intros invalid. subst invalid. unfold randomize_teams.
  case_bool_decide as Hnil; [left; split; [tauto | by eexists]|].
  destruct (py_in ts [1; 2; 3; 4; 6]) eqn:Hvalid; simpl;
    [apply py_in_true in Hvalid
    |apply py_in_false in Hvalid; left; split; [tauto | by eexists]].
  destruct (Z.ltb_spec (Z.of_nat (length ids)) 1) as [Hlt|Hge].
  { destruct ids; [done | simpl in Hlt; lia]. }
  destruct (Z.ltb_spec 1 ts) as [H1|H1];
    destruct (Z.ltb_spec (Z.of_nat (length ids)) ts) as [H2|H2]; simpl.
  - left. split; [right; right; lia | by eexists].
  - right. split; [|done]. intros [?|[?|?]]; done || lia.
  - right. split; [|done]. intros [?|[?|?]]; done || lia.
  - right. split; [|done]. intros [?|[?|?]]; done || lia.
Qed.

(** C3. [randomize_teams] raises the invalid-argument error
    ([ValueError]) if and only if the participant list is empty, or
    the team size is not one of 1, 2, 3, 4, 6, or the team size is
    above 1 and there are fewer participants than the team size; for
    every other input it returns teams, and it raises nothing else.
    In particular it raises on [([], 2)] and on [([1, 2], 5)]. *)
Theorem randomize_teams_raises_iff (rng : nat -> nat) (ids : list Z) (ts : Z) :
  let invalid :=
    ids = [] \/ (ts ∉ [1; 2; 3; 4; 6])
    \/ (1 < ts /\ Z.of_nat (length ids) < ts) in
  ((exists msg, randomize_teams rng ids ts = Raise (ValueError msg))
     <-> invalid)
  /\ ((exists teams, randomize_teams rng ids ts = Ok teams) <-> ~ invalid)
  /\ (forall e, randomize_teams rng ids ts = Raise e ->
                exists msg, e = ValueError msg)
  /\ (exists msg, randomize_teams rng [] 2 = Raise (ValueError msg))
  /\ (exists msg, randomize_teams rng [1; 2] 5 = Raise (ValueError msg)).
Proof.
  intros invalid. subst invalid.
  destruct (randomize_teams_cases rng ids ts)
    as [[Hinv [msg Hraise]]|[Hvalid Hok]].
  - rewrite Hraise. split_and!.
    + split; [done | by exists msg].
    + split; [by intros [? ?] | done].
    + intros e [= <-]. by exists msg.
    + by eexists.
    + by eexists.
  - rewrite Hok. split_and!.
    + split; [by intros [? ?] | done].
    + split; [done | by eexists].
    + by intros e.
    + by eexists.
    + by eexists.
Qed.

(** C2. For a non-empty participant list and a supported team size
    that the list can fill at least once, [randomize_teams] returns
    the complete consecutive chunks of a permutation of the input:
    there are [len / team_size] teams, each of exactly [team_size]
    members; together they are the first [teams * team_size] entries
    of the shuffled list and the fewer than [team_size] entries after
    them are dropped; every returned id comes from the input, no more
    often than it occurs there, so with distinct participants no id is
    in two teams.  In particular [randomize_teams([1,2,3,4,5], 2)]
    always returns two teams of two, four distinct ids of the five. *)
Theorem randomize_teams_partition (rng : nat -> nat) (ids : list Z) (ts : Z) :
  ids <> [] ->
  ts ∈ [1; 2; 3; 4; 6] ->
  ts <= Z.of_nat (length ids) ->
  let n := Z.to_nat ts in
  (exists teams shuffled,
      randomize_teams rng ids ts = Ok teams
      /\ shuffled ≡ₚ ids
      /\ teams = map (chunk shuffled n) (seq 0 (length ids / n))
      /\ Forall (fun team => Z.of_nat (length team) = ts) teams
      /\ concat teams = take (length teams * n) shuffled
      /\ (length (drop (length teams * n) shuffled) < n)%nat
      /\ concat teams ⊆+ ids
      /\ (NoDup ids -> NoDup (concat teams)))
  /\ (forall rng', exists t1 t2,
        randomize_teams rng' [1; 2; 3; 4; 5] 2 = Ok [t1; t2]
        /\ length t1 = 2%nat /\ length t2 = 2%nat
        /\ NoDup (t1 ++ t2)
        /\ (forall x, x ∈ t1 ++ t2 -> x ∈ [1; 2; 3; 4; 5])).
Proof.
  assert (Hgen : forall rng ids ts,
    ids <> [] -> ts ∈ [1; 2; 3; 4; 6] -> ts <= Z.of_nat (length ids) ->
    let n := Z.to_nat ts in
    exists teams shuffled,
      randomize_teams rng ids ts = Ok teams
      /\ shuffled ≡ₚ ids
      /\ teams = map (chunk shuffled n) (seq 0 (length ids / n))
      /\ Forall (fun team => Z.of_nat (length team) = ts) teams
      /\ concat teams = take (length teams * n) shuffled
      /\ (length (drop (length teams * n) shuffled) < n)%nat
      /\ concat teams ⊆+ ids
      /\ (NoDup ids -> NoDup (concat teams))).
  { clear. intros rng ids ts Hne Hvalid Hle n.
    pose proof (valid_team_size_range ts Hvalid) as Hrange.
    assert (Hn : (0 < n)%nat) by (subst n; lia).
    destruct (randomize_teams_cases rng ids ts)
      as [[Hinv _]|[_ Hok]]; [destruct Hinv as [?|[?|?]]; done || lia|].
    pose proof (shuffle_Permutation rng ids) as Hperm.
    pose proof (Permutation_length Hperm) as Hlen.
    set (shuffled := shuffle rng ids) in *.
    fold n in Hok. rewrite make_teams_eq in Hok by done.
    rewrite Hlen in Hok.
    set (teams := map (chunk shuffled n) (seq 0 (length ids / n))) in *.
    assert (Hcount : length teams = (length ids / n)%nat)
      by (subst teams; by rewrite length_map, length_seq).
    assert (Hcat : concat teams = take (length teams * n) shuffled)
      by (rewrite Hcount; apply concat_chunks).
    assert (Hsub : concat teams ⊆+ ids).
    { rewrite Hcat, <- Hperm. apply sublist_submseteq, sublist_take. }
    exists teams, shuffled. split_and!; try done.
    - subst teams. apply Forall_map, Forall_forall.
      intros k Hk%elem_of_seq. simpl.
      assert (length (chunk shuffled n k) = n) as ->; [|subst n; lia].
      apply chunk_length_complete; [done|]. rewrite Hlen. lia.
    - rewrite length_drop, Hcount, Hlen.
      pose proof (Nat.div_mod_eq (length ids) n).
      pose proof (Nat.mod_upper_bound (length ids) n ltac:(lia)). nia.
    - intros Hnd. apply submseteq_Permutation in Hsub as [rest Hrest].
      rewrite Hrest in Hnd. by apply NoDup_app in Hnd as [? _]. }
  intros Hne Hvalid Hle n. split; [by apply Hgen|].
  intros rng'.
  destruct (Hgen rng' [1; 2; 3; 4; 5] 2) as
    (teams & shuffled & Hok & Hperm & -> & Hall & Hcat & _ & Hsub & Hnd).
  { done. }
  { rewrite !elem_of_cons. tauto. }
  { simpl. lia. }
  change (Z.to_nat 2) with 2%nat in *.
  change (length [1; 2; 3; 4; 5] / 2)%nat with 2%nat in *.
  simpl in Hok, Hall, Hsub, Hnd.
  rewrite app_nil_r in Hsub, Hnd.
  exists (chunk shuffled 2 0), (chunk shuffled 2 1).
  apply Forall_cons in Hall as [H1 Hall].
  apply Forall_cons in Hall as [H2 _].
  split_and!; [done | lia | lia | |].
  - apply Hnd. repeat (apply NoDup_cons; split;
      [rewrite ?elem_of_cons, ?elem_of_nil; lia|]). apply NoDup_nil_2.
  - intros x Hx. eapply elem_of_submseteq; [exact Hx | exact Hsub].
Qed.

Lemma randomize_teams_partition_witness :
  exists teams,
    randomize_teams (fun _ => 0%nat) [1; 2; 3; 4; 5] 2 = Ok teams
    /\ length teams = 2%nat
    /\ NoDup (concat teams).
Proof.
  destruct (randomize_teams_partition (fun _ => 0%nat) [1; 2; 3; 4; 5] 2)
    as [(teams & shuffled & Hok & _ & Hteams & _ & _ & _ & _ & Hnd) _].
  - discriminate.
  - apply elem_of_cons. right. apply list_elem_of_here.
  - vm_compute. discriminate.
  - exists teams. split; [exact Hok|]. split.
    + rewrite Hteams. reflexivity.
    + apply Hnd. repeat (apply NoDup_cons; split;
        [rewrite ?elem_of_cons, ?elem_of_nil; lia|]). apply NoDup_nil_2.
Defined.

End randomizer.


(** ** Serialization *)

Section serialization.
Import Event.

(** What [from_dict] rebuilds from [to_dict]: the attributes that are
    written come back, the three that are not written are reset. *)
Lemma from_dict_to_dict (now : datetime.t) (e : t) :
  from_dict now (to_dict e) = Ok (serialized_part e).
Proof.
  destruct e as [id ty nm desc creator guild maxp created date st ps cps
                 tms tsz mid thread sent enabled start_time end_time].
  destruct ty, st, tsz, mid, start_time, end_time; reflexivity.
Qed.

(** C8 (fails on the code). An event with a scheduled date, a thread
    handle and a closed reminder latch does not come back from
    [to_dict] then [from_dict]: the date and the thread handle are
    gone and the latch is open again, whatever the clock.  The other
    attributes come back as they were. *)
Theorem to_dict_from_dict_drops_fields :
  (forall now, from_dict now (to_dict reminded_event)
               = Ok (serialized_part reminded_event))
  /\ event_date reminded_event = Some (datetime.mk 2024 3 5 12 1 30 0)
  /\ event_date (serialized_part reminded_event) = None
  /\ thread_id reminded_event = Some 555
  /\ thread_id (serialized_part reminded_event) = None
  /\ reminder_sent reminded_event = true
  /\ reminder_sent (serialized_part reminded_event) = false
  /\ (forall now, from_dict now (to_dict reminded_event) <> Ok reminded_event).
Proof.
  split_and!; [intros now; apply from_dict_to_dict | reflexivity.. |].
  intros now. rewrite from_dict_to_dict. discriminate.
Qed.

End serialization.

(** ** The registry *)

Section registry.
Import EventService.

(** When the day of the month is not after [days], [replace] raises
    and the handler answers [0] without deleting anything. *)
Lemma cleanup_old_events_underflow (now : datetime.t) (days : Z) (svc : t) :
  datetime.day now - days < 1 ->
  cleanup_old_events now days svc = (0, svc).
Proof.
  intros Hday. unfold cleanup_old_events, cleanup_old_events_try,
    datetime.replace_day.
  destruct (Z.leb_spec 1 (datetime.day now - days)); [lia | done].
Qed.

(** When the day of the month is after [days], the cutoff is [now]
    minus [days] days. *)
Lemma replace_day_micros (now cutoff : datetime.t) (days : Z) :
  datetime.replace_day now (datetime.day now - days) = Ok cutoff ->
  datetime.micros cutoff = datetime.micros now - timedelta_days days.
Proof.
  unfold datetime.replace_day. destruct (_ && _); [|done].
  intros [= <-].
  unfold datetime.micros, datetime.toordinal, timedelta_days. simpl. lia.
Qed.

Lemma old_events_spec (cutoff : datetime.t) (svc : t) (k : string) :
  k ∈ old_events cutoff svc
  <-> exists e, _events svc !! k = Some e
                /\ datetime.ltb (Event.created_at e) cutoff = true.
Proof.
  unfold old_events. rewrite list_elem_of_fmap. split.
  - intros ([k' e] & -> & Hin). apply list_elem_of_In, filter_In in Hin.
    destruct Hin as [Hin Hold]. apply list_elem_of_In, elem_of_map_to_list in Hin.
    by exists e.
  - intros (e & He & Hold). exists (k, e). split; [done|].
    apply list_elem_of_In, filter_In. split; [|done].
    by apply list_elem_of_In, elem_of_map_to_list.
Qed.

Lemma old_events_NoDup (cutoff : datetime.t) (svc : t) :
  NoDup (old_events cutoff svc).
Proof.
  unfold old_events.
  eapply sublist_NoDup; [apply (NoDup_fst_map_to_list (_events svc))|].
  apply fmap_sublist.
  induction (map_to_list (_events svc)) as [|p l IH]; simpl; [done|].
  destruct (datetime.ltb _ _); [by apply sublist_skip | by apply sublist_cons].
Qed.

(** The deletion loop over distinct ids that are all in the registry:
    every deletion answers [True] and exactly those ids are gone. *)
Lemma fold_cleanup_step (ks : list string) (count : Z) (svc : t) :
  NoDup ks ->
  (forall k, k ∈ ks -> is_Some (_events svc !! k)) ->
  let r := fold_left cleanup_step ks (count, svc) in
  r.1 = count + Z.of_nat (length ks)
  /\ (forall k, _events r.2 !! k
                = if decide (k ∈ ks) then None else _events svc !! k).
Proof.
  revert count svc. induction ks as [|k0 ks IH]; intros count svc Hnd Hin r;
    subst r.
  - cbn [fold_left fst snd length]. split; [lia|]. intros k.
    rewrite decide_False; [done | apply not_elem_of_nil].
  - apply NoDup_cons in Hnd as [Hk0 Hnd].
    destruct (Hin k0) as [e0 He0]; [apply list_elem_of_here|].
    cbn [fold_left].
    assert (Hstep : exists index,
               cleanup_step (count, svc) k0
               = (count + 1, mk (delete k0 (_events svc)) index)).
    { unfold cleanup_step, delete_event. rewrite He0. by eexists. }
    destruct Hstep as [index ->].
    destruct (IH (count + 1) (mk (delete k0 (_events svc)) index) Hnd)
      as [Hcount Hlookup].
    { intros k Hk. cbn [_events]. rewrite lookup_delete_ne.
      - apply Hin. by apply list_elem_of_further.
      - intros ->. done. }
    split.
    + rewrite Hcount. cbn [length]. lia.
    + intros k. rewrite Hlookup. cbn [_events].
      destruct (decide (k = k0)) as [->|Hne].
      * rewrite (decide_True (P := k0 ∈ k0 :: ks)) by apply list_elem_of_here.
        case_decide; [done | apply lookup_delete_eq].
      * rewrite lookup_delete_ne by done.
        destruct (decide (k ∈ ks)) as [Hks|Hks].
        -- rewrite decide_True; [done | by apply list_elem_of_further].
        -- rewrite decide_False; [done|].
           rewrite elem_of_cons. tauto.
Qed.

(** When the day of the month is after [days], [cleanup_old_events]
    deletes exactly the events created before [now] minus [days] days
    and answers their number. *)
Lemma cleanup_old_events_mid_month (now cutoff : datetime.t) (days : Z) (svc : t) :
  datetime.replace_day now (datetime.day now - days) = Ok cutoff ->
  let r := cleanup_old_events now days svc in
  datetime.micros cutoff = datetime.micros now - timedelta_days days
  /\ r.1 = Z.of_nat (length (old_events cutoff svc))
  /\ (forall k, _events r.2 !! k
                = match _events svc !! k with
                  | Some e =>
                      if datetime.ltb (Event.created_at e) cutoff
                      then None else Some e
                  | None => None
                  end).
Proof.
  intros Hcut r. split; [by apply replace_day_micros|].
  subst r. unfold cleanup_old_events, cleanup_old_events_try.
  rewrite Hcut. cbn [bind].
  destruct (fold_cleanup_step (old_events cutoff svc) 0 svc)
    as [Hcount Hlookup].
  { apply old_events_NoDup. }
  { intros k (e & He & _)%old_events_spec. by exists e. }
  split; [rewrite Hcount; lia|].
  intros k. rewrite Hlookup.
  destruct (_events svc !! k) as [e|] eqn:He.
  - destruct (datetime.ltb (Event.created_at e) cutoff) eqn:Hold.
    + rewrite decide_True; [done|]. apply old_events_spec. by exists e.
    + rewrite decide_False; [done|].
      intros (e' & He' & Hold')%old_events_spec. congruence.
  - by case_decide.
Qed.

(** C9 (fails on the code). On the fifth of March, [cleanup_old_events]
    with 7 days answers [0] and keeps an event created on the first of
    January, which is older than [now] minus 7 days.  On the twentieth
    of March the same call deletes the event and answers [1]. *)
Theorem cleanup_old_events_month_start :
  cleanup_old_events noon 7 stale_registry = (0, stale_registry)
  /\ _events stale_registry !! "0f9e8d7c" = Some stale_event
  /\ datetime.micros (Event.created_at stale_event)
     < datetime.micros noon - timedelta_days 7
  /\ cleanup_old_events twentieth_of_march 7 stale_registry = (1, init).
Proof.
  split_and!.
  - apply cleanup_old_events_underflow. vm_compute. reflexivity.
  - vm_compute. reflexivity.
  - vm_compute. reflexivity.
  - vm_compute. reflexivity.
Qed.

End registry.

(** ** The reminder scheduler *)

Section scheduler.
Import ReminderService.

Implicit Types (svc : EventService.t) (e : Event.t) (id key : string).

(** An event is due at [now] when it has a date, its latch is open and
    the date is between 30 seconds and 3 minutes ahead. *)
Lemma check_event_cases (now : datetime.t) (b : bot) e :
  let due := exists d,
    Event.event_date e = Some d /\ Event.reminder_sent e = false
    /\ timedelta_seconds 30 <= datetime.sub d now <= timedelta_minutes 3 in
  (due /\ check_event now b e
          = (Event.set_reminder_sent true e, Some (_send_event_reminder b e)))
  \/ (~ due /\ check_event now b e = (e, None)).
Proof.
  intros due. subst due. unfold check_event, in_window.
  destruct (Event.event_date e) as [d|] eqn:Hd;
    [|right; split; [by intros (? & ? & _) | done]].
  destruct (Event.reminder_sent e) eqn:Hs;
    [right; split; [by intros (? & _ & ? & _) | done]|].
  destruct (Z.leb_spec (timedelta_seconds 30) (datetime.sub d now));
    destruct (Z.leb_spec (datetime.sub d now) (timedelta_minutes 3)); simpl.
  - left. split; [|done]. by exists d.
  - right. split; [|done]. intros (d' & [= <-] & _ & ?). lia.
  - right. split; [|done]. intros (d' & [= <-] & _ & ?). lia.
  - right. split; [|done]. intros (d' & [= <-] & _ & ?). lia.
Qed.

Lemma check_event_latched (now : datetime.t) (b : bot) e :
  Event.reminder_sent e = true -> check_event now b e = (e, None).
Proof.
  intros Hs. unfold check_event. rewrite Hs. by destruct (Event.event_date e).
Qed.

(** One call posts at most one reminder. *)
Lemma send_event_reminder_once (b : bot) e :
  (length (List.filter is_reminder (_send_event_reminder b e)) <= 1)%nat.
Proof.
  unfold _send_event_reminder, _send_team_creation_request.
  repeat match goal with
         | |- context [if ?c then _ else _] => destruct c
         end; simpl; lia.
Qed.

(** With a thread that is found, a participant and a post that
    succeeds, the call posts exactly one reminder, to the thread and
    addressed to the participants. *)
Lemma send_event_reminder_delivers (b : bot) e :
  let thread := default 0 (Event.thread_id e) in
  truthy_id (Event.thread_id e) = true ->
  get_channel b thread || fetch_channel b thread = true ->
  Event.participants e <> [] ->
  thread_send b thread (Reminder (Event.participants e) (Event.name e)) = true ->
  List.filter is_reminder (_send_event_reminder b e)
  = [(thread, Reminder (Event.participants e) (Event.name e))].
Proof.
  intros thread Hid Hfound Hps Hsend.
  unfold _send_event_reminder. fold thread. rewrite Hid. cbn [negb].
  rewrite <- negb_orb, Hfound. cbn [negb].
  rewrite bool_decide_eq_false_2 by done. rewrite Hsend.
  unfold _send_team_creation_request.
  repeat match goal with
         | |- context [if ?c then _ else _] => destruct c
         end; reflexivity.
Qed.

(** What [_send_event_reminder] posts when it cannot deliver. *)
Lemma send_event_reminder_nothing (b : bot) e :
  let thread := default 0 (Event.thread_id e) in
  truthy_id (Event.thread_id e) = false
  \/ (get_channel b thread = false /\ fetch_channel b thread = false)
  \/ Event.participants e = []
  \/ thread_send b thread
       (Reminder (Event.participants e) (Event.name e)) = false ->
  _send_event_reminder b e = [].
Proof.
  intros thread Hcause. unfold _send_event_reminder. fold thread.
  destruct (truthy_id (Event.thread_id e)); simpl; [|done].
  destruct (get_channel b thread) eqn:Hget,
           (fetch_channel b thread) eqn:Hfetch; simpl; try done;
    (case_bool_decide as Hps; [done|]);
    (destruct (thread_send b thread _) eqn:Hsend; [|done]);
    destruct Hcause as [?|[[? ?]|[?|?]]]; congruence.
Qed.

(** *** What the handlers keep of an event *)

Lemma on_event_lookup (f : Event.t -> bool * Event.t) id key svc :
  EventService._events (EventService.on_event f id svc).2 !! key
  = if decide (key = id)
    then (fun e => (f e).2) <$> EventService._events svc !! id
    else EventService._events svc !! key.
Proof.
  unfold EventService.on_event, EventService.get_event.
  destruct (EventService._events svc !! id) as [e|] eqn:He.
  - destruct (f e) as [success e'] eqn:Hf. cbn [snd EventService._events].
    case_decide as Hk.
    + subst key. rewrite lookup_insert_eq. simpl. by rewrite Hf.
    + by rewrite lookup_insert_ne.
  - cbn [snd]. case_decide as Hk; [by subst key; rewrite He | done].
Qed.

Lemma on_event_carried (f : Event.t -> bool * Event.t) id key svc :
  (forall e, Event.reminder_sent (f e).2 = Event.reminder_sent e
             /\ Event.event_date (f e).2 = Event.event_date e) ->
  carried_over key svc (EventService.on_event f id svc).2.
Proof.
  intros Hf e'. rewrite on_event_lookup. case_decide as Hk.
  - subst key. destruct (EventService._events svc !! id) as [e|]; [|done].
    simpl. intros [= <-]. exists e. split; [done | apply Hf].
  - intros He. by exists e'.
Qed.

Lemma carried_over_refl key svc : carried_over key svc svc.
Proof. intros e He. by exists e. Qed.

Lemma carried_over_trans key svc1 svc2 svc3 :
  carried_over key svc1 svc2 -> carried_over key svc2 svc3 ->
  carried_over key svc1 svc3.
Proof.
  intros H12 H23 e3 He3.
  destruct (H23 e3 He3) as (e2 & He2 & Hs2 & Hd2).
  destruct (H12 e2 He2) as (e1 & He1 & Hs1 & Hd1).
  exists e1. split_and!; [done | congruence..].
Qed.

Lemma carried_over_same_events key svc svc' :
  EventService._events svc' = EventService._events svc ->
  carried_over key svc svc'.
Proof. intros Heq e He. rewrite Heq in He. by exists e. Qed.

Lemma carried_over_latched key svc svc' :
  carried_over key svc svc' -> latched key svc -> latched key svc'.
Proof.
  intros Hc Hl e' He'. destruct (Hc e' He') as (e & He & -> & _).
  by apply Hl.
Qed.

(** No call of a handler writes the date or the latch of an event, and
    only [create_event] stores an event under a key that had none. *)
Lemma do_handler_call_carried (c : handler_call) key svc :
  creates key c = false -> carried_over key svc (do_handler_call c svc).
Proof.
  intros Hc.
  destruct c as [id now ty nm desc creator guild maxp date size|id|id u|id u
                |now id u|id u|id s t'|id|id st|m id|m|now days
                |id m|id thread|id ts n|id];
    cbn [do_handler_call].
  - simpl in Hc. apply bool_decide_eq_false in Hc.
    intros e'. unfold EventService.create_event. cbn [snd EventService._events].
    rewrite lookup_insert_ne by done. intros He. by exists e'.
  - unfold EventService.delete_event.
    destruct (EventService._events svc !! id) eqn:He;
      [|apply carried_over_refl].
    intros e'. cbn [snd EventService._events].
    destruct (decide (key = id)) as [->|Hne].
    + by rewrite lookup_delete_eq.
    + rewrite lookup_delete_ne by done. intros He'. by exists e'.
  - apply on_event_carried. intros e. rewrite add_participant_eq.
    repeat case_decide; by destruct e.
  - apply on_event_carried. intros e. unfold Event.remove_participant.
    destruct (negb _); [done|]. cbn zeta. destruct (_ && _); by destruct e.
  - apply on_event_carried. intros e. unfold Event.check_in_participant.
    repeat match goal with
           | |- context [if ?b then _ else _] => destruct b; [done|]
           end.
    by destruct e.
  - apply on_event_carried. intros e. unfold Event.check_out_participant.
    destruct (negb _); [done | by destruct e].
  - apply on_event_carried. intros e. by destruct e.
  - apply on_event_carried. intros e. by destruct e.
  - apply on_event_carried. intros e. by destruct e.
  - by apply carried_over_same_events.
  - apply carried_over_same_events. unfold EventService.get_event_by_message_id.
    destruct (match EventService._message_to_event svc !! m with
              | Some _ => _ | None => _ end); [done|].
    by destruct (List.find _ _).
  - destruct (datetime.replace_day now (datetime.day now - days))
      as [cutoff|err] eqn:Hcut.
    + destruct (cleanup_old_events_mid_month now cutoff days svc Hcut)
        as (_ & _ & Hlookup).
      intros e'. rewrite Hlookup.
      destruct (EventService._events svc !! key) as [e|] eqn:He; [|done].
      destruct (datetime.ltb _ _); [done|]. intros [= <-]. by exists e.
    + unfold EventService.cleanup_old_events, EventService.cleanup_old_events_try.
      rewrite Hcut. apply carried_over_refl.
  - apply on_event_carried. intros e. by destruct e.
  - apply on_event_carried. intros e. by destruct e.
  - apply on_event_carried. intros e. by destruct e.
  - apply on_event_carried. intros e. by destruct e.
Qed.

Lemma do_handler_calls_carried (cs : list handler_call) key svc :
  Forall (fun c => creates key c = false) cs ->
  carried_over key svc (do_handler_calls cs svc).
Proof.
  revert svc. induction cs as [|c cs IH]; intros svc Hcs;
    [apply carried_over_refl|].
  apply Forall_cons in Hcs as [Hc Hcs]. simpl.
  eapply carried_over_trans; [by apply do_handler_call_carried | by apply IH].
Qed.

(** *** The handlers that run during a reminder *)

Lemma run_handlers_registry key (cs : list handler_call) (st : task) :
  registry (run_handlers key cs st) = do_handler_calls cs (registry st).
Proof.
  revert st. induction cs as [|c cs IH]; intros st; [done|].
  simpl. by rewrite IH.
Qed.

Lemma run_handlers_app key (cs1 cs2 : list handler_call) (st : task) :
  run_handlers key (cs1 ++ cs2) st
  = run_handlers key cs2 (run_handlers key cs1 st).
Proof. apply fold_left_app. Qed.

Lemma handler_step_tied key (st : task) (c : handler_call) :
  creates key c = false -> tied key st -> tied key (handler_step key st c).
Proof.
  intros Hc [Hon Hoff]. unfold handler_step, tied. rewrite Hc.
  cbn [registry object attached negb]. rewrite andb_true_r.
  destruct (attached st) eqn:Hatt; cbn [andb].
  - destruct (EventService._events (do_handler_call c (registry st)) !! key)
      as [e'|] eqn:He'.
    + rewrite bool_decide_eq_true_2 by by eexists. by split.
    + rewrite bool_decide_eq_false_2 by by intros [? ?]. by split.
  - split; [done|]. intros _.
    destruct (EventService._events (do_handler_call c (registry st)) !! key)
      as [e'|] eqn:He'; [|done].
    destruct (do_handler_call_carried c key (registry st) Hc e' He')
      as (e & He & _).
    rewrite Hoff in He; done.
Qed.

Lemma run_handlers_tied key (cs : list handler_call) (st : task) :
  Forall (fun c => creates key c = false) cs ->
  tied key st -> tied key (run_handlers key cs st).
Proof.
  revert st. induction cs as [|c cs IH]; intros st Hcs Ht; [done|].
  apply Forall_cons in Hcs as [Hc Hcs]. simpl.
  apply IH; [done|]. by apply handler_step_tied.
Qed.

(** The task after a reminder is the task before it after some of the
    handlers of its three awaits, those of the awaits it reached. *)
Lemma send_event_reminder_task_ran (b : bot) (hs1 hs2 hs3 : list handler_call)
    key (st : task) :
  exists cs,
    cs `sublist_of` hs1 ++ hs2 ++ hs3
    /\ (_send_event_reminder_task b hs1 hs2 hs3 key st).1
       = run_handlers key cs st.
Proof.
  assert (Hran : forall a1 a2 a3 st',
            a1 `sublist_of` hs1 -> a2 `sublist_of` hs2 -> a3 `sublist_of` hs3 ->
            st' = run_handlers key a3 (run_handlers key a2 (run_handlers key a1 st)) ->
            exists cs, cs `sublist_of` hs1 ++ hs2 ++ hs3
                       /\ st' = run_handlers key cs st).
  { intros a1 a2 a3 st' H1 H2 H3 ->. exists (a1 ++ a2 ++ a3). split.
    - by repeat apply sublist_app.
    - by rewrite !run_handlers_app. }
  unfold _send_event_reminder_task, _send_team_creation_request_task.
  destruct (negb (truthy_id _));
    [by apply (Hran [] [] []); try apply sublist_nil_l|].
  cbn zeta.
  destruct (get_channel b _); cbn [negb andb].
  - case_bool_decide;
      [by apply (Hran [] [] []); try apply sublist_nil_l|].
    destruct (thread_send b _ (Reminder _ _));
      [|by apply (Hran [] hs2 []); try apply sublist_nil_l].
    destruct (Event.has_teams _);
      [by apply (Hran [] hs2 []); try apply sublist_nil_l|].
    destruct (_ <? 2);
      [by apply (Hran [] hs2 []); try apply sublist_nil_l|].
    destruct (thread_send b _ _);
      by apply (Hran [] hs2 hs3); try apply sublist_nil_l.
  - destruct (negb (fetch_channel b _));
      [by apply (Hran hs1 [] []); try apply sublist_nil_l|].
    case_bool_decide;
      [by apply (Hran hs1 [] []); try apply sublist_nil_l|].
    destruct (thread_send b _ (Reminder _ _));
      [|by apply (Hran hs1 hs2 []); try apply sublist_nil_l].
    destruct (Event.has_teams _);
      [by apply (Hran hs1 hs2 []); try apply sublist_nil_l|].
    destruct (_ <? 2);
      [by apply (Hran hs1 hs2 []); try apply sublist_nil_l|].
    destruct (thread_send b _ _);
      by apply (Hran hs1 hs2 hs3).
Qed.

(** One call posts at most one reminder, whatever the handlers do. *)
Lemma send_event_reminder_task_once (b : bot) (hs1 hs2 hs3 : list handler_call)
    key (st : task) :
  (length (List.filter is_reminder
             (_send_event_reminder_task b hs1 hs2 hs3 key st).2) <= 1)%nat.
Proof.
  unfold _send_event_reminder_task, _send_team_creation_request_task.
  repeat match goal with
         | |- context [if ?c then _ else _] => destruct c
         end; simpl; lia.
Qed.

Lemma set_latch_carried k key (st : task) :
  k <> key -> carried_over k (registry st) (registry (set_latch key st)).
Proof.
  intros Hne e'. unfold set_latch. cbn [registry].
  destruct (attached st); cbn [EventService._events].
  - rewrite lookup_insert_ne by done. intros He. by exists e'.
  - intros He. by exists e'.
Qed.

Lemma set_latch_latched key (st : task) :
  tied key st -> latched key (registry (set_latch key st)).
Proof.
  intros [Hon Hoff] e'. unfold set_latch. cbn [registry].
  destruct (attached st); cbn [EventService._events].
  - rewrite lookup_insert_eq. by intros [= <-].
  - by rewrite Hoff.
Qed.

(** *** One turn of the loop of a scan *)

Lemma visit_cases (now : datetime.t) (b : bot) (env : environment) (n : nat)
    key e svc :
  let st := mk_task svc e true false in
  let due := exists d,
    Event.event_date e = Some d /\ Event.reminder_sent e = false
    /\ timedelta_seconds 30 <= datetime.sub d now <= timedelta_minutes 3 in
  (~ due /\ visit now b env n key e svc = (st, None))
  \/ (due
      /\ exists cs,
           cs `sublist_of` during_fetch env n ++ during_reminder env n
                           ++ during_prompt env n
           /\ visit now b env n key e svc
              = (set_latch key (run_handlers key cs st),
                 Some (_send_event_reminder_task b (during_fetch env n)
                         (during_reminder env n) (during_prompt env n)
                         key st).2)).
Proof.
  intros st due. subst due. unfold visit, in_window. fold st.
  destruct (Event.event_date e) as [d|] eqn:Hd;
    [|left; split; [by intros (? & ? & _) | done]].
  destruct (Event.reminder_sent e) eqn:Hs;
    [left; split; [by intros (? & _ & ? & _) | done]|].
  destruct (Z.leb_spec (timedelta_seconds 30) (datetime.sub d now));
    destruct (Z.leb_spec (datetime.sub d now) (timedelta_minutes 3));
    cbn [andb].
  - right. split; [by exists d|].
    destruct (send_event_reminder_task_ran b (during_fetch env n)
                (during_reminder env n) (during_prompt env n) key st)
      as (cs & Hsub & Hran).
    exists cs. split; [done|].
    destruct (_send_event_reminder_task _ _ _ _ _ _) as [st' posts].
    simpl in Hran. by subst st'.
  - left. split; [|done]. intros (d' & [= <-] & _ & ?). lia.
  - left. split; [|done]. intros (d' & [= <-] & _ & ?). lia.
  - left. split; [|done]. intros (d' & [= <-] & _ & ?). lia.
Qed.

Lemma keeps_event_sublist k (env : environment) (n : nat)
    (cs : list handler_call) :
  keeps_event k env ->
  cs `sublist_of` during_fetch env n ++ during_reminder env n
                  ++ during_prompt env n ->
  Forall (fun c => creates k c = false) cs.
Proof.
  intros Hk Hsub. apply Forall_forall. intros c Hc.
  pose proof (Hk n) as Hn. rewrite Forall_forall in Hn.
  apply Hn. by eapply elem_of_sublist.
Qed.

(** An event whose latch is closed is skipped. *)
Lemma visit_skips (now : datetime.t) (b : bot) (env : environment) (n : nat)
    key e svc :
  Event.reminder_sent e = true ->
  visit now b env n key e svc = (mk_task svc e true false, None).
Proof.
  intros Hs. unfold visit. rewrite Hs. by destruct (Event.event_date e).
Qed.

(** A turn for one event keeps the closed latch of any event. *)
Lemma visit_latched (now : datetime.t) (b : bot) (env : environment) (n : nat)
    k key e svc :
  EventService._events svc !! key = Some e ->
  keeps_event k env -> latched k svc ->
  latched k (registry (visit now b env n key e svc).1).
Proof.
  intros He Hk Hl.
  destruct (visit_cases now b env n key e svc)
    as [[_ ->]|[(d & _ & Hs & _) (cs & Hsub & ->)]]; [done|].
  cbn [fst].
  assert (k <> key) as Hne.
  { intros ->. rewrite (Hl e He) in Hs. discriminate. }
  eapply carried_over_latched; [|exact Hl].
  eapply carried_over_trans; [|by apply set_latch_carried].
  rewrite run_handlers_registry. apply do_handler_calls_carried.
  by eapply keeps_event_sublist.
Qed.

(** A turn that calls the reminder closes the latch of its event. *)
Lemma visit_closes (now : datetime.t) (b : bot) (env : environment) (n : nat)
    key e svc :
  EventService._events svc !! key = Some e ->
  keeps_event key env ->
  is_Some (visit now b env n key e svc).2 ->
  latched key (registry (visit now b env n key e svc).1).
Proof.
  intros He Hk.
  destruct (visit_cases now b env n key e svc)
    as [[_ ->]|[_ (cs & Hsub & ->)]]; [by intros [? ?]|].
  intros _. cbn [fst]. apply set_latch_latched.
  apply run_handlers_tied; [by eapply keeps_event_sublist|].
  by split.
Qed.

(** *** Scans *)

Lemma iterate_unfold (now : datetime.t) (b : bot) (env : environment)
    (size0 n : nat) (changed : bool) (pending : list string) svc :
  iterate now b env size0 n changed pending svc
  = if negb (size (EventService._events svc) =? size0)%nat then
      mk_scan_result svc []
        (Some (RuntimeError "dictionary changed size during iteration"))
    else
      match (if changed then iterator env n
             else match pending with
                  | [] => StopIteration
                  | key :: _ => NextKey key
                  end) with
      | RaiseKeysChanged =>
          mk_scan_result svc []
            (Some (RuntimeError "dictionary keys changed during iteration"))
      | StopIteration => mk_scan_result svc [] None
      | NextKey key =>
          match n with
          | O =>
              mk_scan_result svc []
                (Some (RuntimeError "dictionary keys changed during iteration"))
          | S n' =>
              match EventService._events svc !! key with
              | None => mk_scan_result svc [] None
              | Some event =>
                  let v := visit now b env n key event svc in
                  let rest :=
                    iterate now b env size0 n' (changed || keys_changed v.1)
                      (tail pending) (registry v.1) in
                  mk_scan_result (scan_registry rest)
                    (match v.2 with
                     | Some posts => (key, posts) :: scan_calls rest
                     | None => scan_calls rest
                     end)
                    (scan_raised rest)
              end
          end
      end.
Proof.
  destruct n as [|n]; cbn [iterate]; [done|].
  destruct (negb _); [done|].
  destruct (if changed then _ else _); try done.
  destruct (EventService._events svc !! key); [|done].
  by destruct (visit _ _ _ _ _ _ _).
Qed.

(** A scan calls no reminder for an identifier that is not in the
    registry or whose latch is closed, and leaves it so. *)
Lemma iterate_latched (now : datetime.t) (b : bot) (env : environment)
    (size0 n : nat) (changed : bool) (pending : list string) k svc :
  keeps_event k env -> latched k svc ->
  let r := iterate now b env size0 n changed pending svc in
  latched k (scan_registry r)
  /\ Forall (fun call => call.1 <> k) (scan_calls r).
Proof.
  intros Hk. revert changed pending svc.
  induction n as [|n IH]; intros changed pending svc Hl;
    rewrite iterate_unfold; cbn zeta.
  - destruct (negb _); [by split|].
    destruct (if changed then _ else _); by split.
  - destruct (negb _); [by split|].
    destruct (if changed then _ else _) as [| |key]; [by split..|].
    destruct (EventService._events svc !! key) as [e|] eqn:He; [|by split].
    destruct (decide (key = k)) as [->|Hne].
    + rewrite visit_skips by by apply Hl. cbn [fst snd registry].
      by apply IH.
    + pose proof (visit_latched now b env (S n) k key e svc He Hk Hl) as Hl'.
      destruct (IH (changed || keys_changed (visit now b env (S n) key e svc).1)
                  (tail pending) _ Hl') as [Hreg Hcalls].
      cbn [scan_registry scan_calls]. split; [done|].
      destruct (visit now b env (S n) key e svc).2; [|done].
      by apply Forall_cons.
Qed.

Lemma filter_calls_none k (calls : list (string * list (Z * message))) :
  Forall (fun call => call.1 <> k) calls ->
  List.filter (fun call : string * list (Z * message) =>
                 bool_decide (call.1 = k)) calls = [].
Proof.
  induction 1 as [|call calls Hcall _ IH]; [done|].
  simpl. by rewrite bool_decide_eq_false_2.
Qed.

(** A scan calls the reminder of an event at most once, the call posts
    at most one reminder, and the latch is closed afterwards. *)
Lemma iterate_once (now : datetime.t) (b : bot) (env : environment)
    (size0 n : nat) (changed : bool) (pending : list string) k svc :
  keeps_event k env ->
  let r := iterate now b env size0 n changed pending svc in
  let calls :=
    List.filter (fun call : string * list (Z * message) =>
                   bool_decide (call.1 = k)) (scan_calls r) in
  calls = []
  \/ exists posts,
       calls = [(k, posts)]
       /\ latched k (scan_registry r)
       /\ (length (List.filter is_reminder posts) <= 1)%nat.
Proof.
  intros Hk. revert changed pending svc.
  induction n as [|n IH]; intros changed pending svc;
    rewrite iterate_unfold; cbn zeta.
  - destruct (negb _); [by left|].
    destruct (if changed then _ else _); by left.
  - destruct (negb _); [by left|].
    destruct (if changed then _ else _) as [| |key]; [by left..|].
    destruct (EventService._events svc !! key) as [e|] eqn:He; [|by left].
    cbn [scan_registry scan_calls].
    destruct (visit now b env (S n) key e svc).2 as [posts|] eqn:Hposts;
      [|apply IH].
    cbn [List.filter fst]. case_bool_decide as Hkey; [|apply IH].
    subst key. right. exists posts.
    assert (Hl : latched k (registry (visit now b env (S n) k e svc).1)).
    { apply visit_closes; [done..|]. rewrite Hposts. by eexists. }
    destruct (iterate_latched now b env size0 n
                (changed || keys_changed (visit now b env (S n) k e svc).1)
                (tail pending) k _ Hk Hl) as [Hreg Hcalls].
    split_and!; [|done|].
    + f_equal. by apply filter_calls_none.
    + destruct (visit_cases now b env (S n) k e svc)
        as [[_ Hv]|[_ (cs & _ & Hv)]]; rewrite Hv in Hposts;
        [discriminate|].
      injection Hposts as <-. apply send_event_reminder_task_once.
Qed.

(** *** Turns of the loop of the scheduler *)

Lemma calls_of_cons k (r : scan_result) (log : list scan_result) :
  calls_of k (r :: log)
  = map snd (List.filter (fun call : string * list (Z * message) =>
                            bool_decide (call.1 = k)) (scan_calls r))
    ++ calls_of k log.
Proof. unfold calls_of. simpl. by rewrite List.filter_app, map_app. Qed.

Lemma reminder_loop_cons (t : tick) (ticks : list tick) svc :
  let scan :=
    _check_upcoming_events (clock t) (client t) (surroundings t) (order t)
      (do_handler_calls (before t) svc) in
  _reminder_loop (t :: ticks) svc
  = ((_reminder_loop ticks (scan_registry scan)).1,
     scan :: (_reminder_loop ticks (scan_registry scan)).2).
Proof. simpl. by destruct (_reminder_loop ticks _). Qed.

(** Once the latch of an event is closed, or when the event is not in
    the registry, no turn of the loop calls its reminder, whatever the
    handlers do in between and during the scans, as long as none of
    them stores a new event under the identifier. *)
Lemma reminder_loop_latched k (ticks : list tick) svc :
  latched k svc -> Forall (tick_keeps_event k) ticks ->
  latched k (_reminder_loop ticks svc).1
  /\ calls_of k (_reminder_loop ticks svc).2 = [].
Proof.
  revert svc. induction ticks as [|t ticks IH]; intros svc Hl Hticks;
    [by split|].
  apply Forall_cons in Hticks as [[Hbefore Henv] Hticks].
  rewrite reminder_loop_cons. cbn zeta. cbn [fst snd].
  rewrite calls_of_cons.
  assert (Hl' : latched k (do_handler_calls (before t) svc)).
  { eapply carried_over_latched; [|exact Hl].
    by apply do_handler_calls_carried. }
  destruct (iterate_latched (clock t) (client t) (surroundings t)
              (size (EventService._events (do_handler_calls (before t) svc)))
              (size (EventService._events (do_handler_calls (before t) svc)))
              false (order t) k _ Henv Hl') as [Hreg Hcalls].
  fold (_check_upcoming_events (clock t) (client t) (surroundings t) (order t)
          (do_handler_calls (before t) svc)) in Hreg, Hcalls.
  destruct (IH _ Hreg Hticks) as [Hfinal ->].
  split; [done|]. by rewrite filter_calls_none.
Qed.

(** Over all the turns of the loop, the reminder of an event is called
    at most once and at most one reminder is posted for it. *)
Lemma reminder_loop_once k (ticks : list tick) svc :
  Forall (tick_keeps_event k) ticks ->
  (calls_for k (_reminder_loop ticks svc).2 <= 1)%nat
  /\ (reminders_posted k (_reminder_loop ticks svc).2 <= 1)%nat.
Proof.
  unfold calls_for, reminders_posted.
  revert svc. induction ticks as [|t ticks IH]; intros svc Hticks;
    [simpl; lia|].
  pose proof Hticks as Hall.
  apply Forall_cons in Hticks as [[Hbefore Henv] Hticks].
  rewrite reminder_loop_cons. cbn zeta. cbn [fst snd].
  rewrite calls_of_cons.
  destruct (iterate_once (clock t) (client t) (surroundings t)
              (size (EventService._events (do_handler_calls (before t) svc)))
              (size (EventService._events (do_handler_calls (before t) svc)))
              false (order t) k (do_handler_calls (before t) svc) Henv)
    as [Hnone|(posts & Hone & Hl & Hposts)];
    fold (_check_upcoming_events (clock t) (client t) (surroundings t)
            (order t) (do_handler_calls (before t) svc)) in *.
  - rewrite Hnone. simpl. apply IH. done.
  - rewrite Hone.
    destruct (reminder_loop_latched k ticks _ Hl Hticks) as [_ ->].
    simpl. rewrite app_nil_r. lia.
Qed.

(** *** Scans during which no handler runs *)

Lemma send_event_reminder_task_quiet (b : bot) key (st : task) :
  _send_event_reminder_task b [] [] [] key st
  = (st, _send_event_reminder b (object st)).
Proof.
  unfold _send_event_reminder_task, _send_event_reminder,
    _send_team_creation_request_task, _send_team_creation_request.
  cbn [run_handlers fold_left].
  destruct (negb (truthy_id _)); [done|]. cbn zeta.
  assert (Hst : (if get_channel b (default 0 (Event.thread_id (object st)))
                 then st else st) = st) by by destruct (get_channel _ _).
  rewrite Hst.
  destruct (negb _ && negb _); [done|].
  case_bool_decide; [done|].
  destruct (thread_send b _ (Reminder _ _)); [|done].
  destruct (Event.has_teams _); [done|].
  destruct (_ <? 2); [done|].
  by destruct (thread_send b _ _).
Qed.

Lemma visit_quiet (now : datetime.t) (b : bot) (n : nat) key e svc :
  visit now b quiet n key e svc
  = match (check_event now b e).2 with
    | Some posts =>
        (mk_task
           (EventService.mk
              (<[key := (check_event now b e).1]> (EventService._events svc))
              (EventService._message_to_event svc))
           (check_event now b e).1 true false,
         Some posts)
    | None => (mk_task svc e true false, None)
    end.
Proof.
  unfold visit, check_event. cbn [quiet during_fetch during_reminder during_prompt].
  destruct (Event.event_date e) as [d|]; [|done].
  destruct (Event.reminder_sent e); [done|].
  destruct (in_window _); [|done].
  by rewrite send_event_reminder_task_quiet.
Qed.

Lemma omap_ext_elem {A B} (f g : A -> option B) (l : list A) :
  (forall x, x ∈ l -> f x = g x) -> omap f l = omap g l.
Proof.
  induction l as [|x l IH]; intros Hfg; [done|].
  assert (IH' : omap f l = omap g l).
  { apply IH. intros y Hy. apply Hfg. by apply list_elem_of_further. }
  simpl. rewrite (Hfg x) by apply list_elem_of_here.
  destruct (g x); [f_equal|]; exact IH'.
Qed.

(** When no handler runs during it, the loop of a scan goes through
    all the keys: it does not raise, the event of each key becomes what
    [check_event] makes of it, and the calls are those that
    [check_event] makes, in the order of the keys. *)
Lemma iterate_quiet (now : datetime.t) (b : bot) (size0 : nat)
    (pending : list string) svc :
  NoDup pending ->
  (forall k, k ∈ pending -> is_Some (EventService._events svc !! k)) ->
  size (EventService._events svc) = size0 ->
  let r := iterate now b quiet size0 (length pending) false pending svc in
  scan_raised r = None
  /\ (forall k,
        EventService._events (scan_registry r) !! k
        = if decide (k ∈ pending)
          then (fun e => (check_event now b e).1)
                 <$> EventService._events svc !! k
          else EventService._events svc !! k)
  /\ EventService._message_to_event (scan_registry r)
     = EventService._message_to_event svc
  /\ scan_calls r
     = omap (fun k =>
               e ← EventService._events svc !! k;
               posts ← (check_event now b e).2;
               Some (k, posts)) pending.
Proof.
  revert svc. induction pending as [|key pending IH];
    intros svc Hnd Hin Hsize; rewrite iterate_unfold; cbn zeta;
    rewrite Hsize, Nat.eqb_refl; cbn [negb length tail].
  - by split_and!.
  - apply NoDup_cons in Hnd as [Hkey Hnd].
    destruct (Hin key) as [e He]; [apply list_elem_of_here|].
    rewrite He. cbn [orb]. rewrite visit_quiet.
    assert (Hcase :
      ((check_event now b e).2 = None /\ (check_event now b e).1 = e)
      \/ (exists posts, (check_event now b e).2 = Some posts)).
    { destruct (check_event_cases now b e) as [[_ ->]|[_ ->]];
        [right; by eexists | by left]. }
    destruct Hcase as [[Hnone Hsame]|[posts Hsome]].
    + rewrite Hnone. cbn [fst snd registry keys_changed].
      destruct (IH svc) as (Hraised & Hlookup & Hindex & Hcalls); [done| |done|].
      { intros k Hk. apply Hin. by apply list_elem_of_further. }
      split_and!; [done| |done|].
      * intros k. rewrite Hlookup.
        destruct (decide (k = key)) as [->|Hne].
        -- rewrite decide_False by done.
           rewrite decide_True by apply list_elem_of_here.
           rewrite He. simpl. by rewrite Hsame.
        -- destruct (decide (k ∈ pending)) as [Hk|Hk].
           ++ rewrite decide_True; [done|]. by apply list_elem_of_further.
           ++ rewrite decide_False; [done|].
              intros [?|?]%elem_of_cons; done.
      * rewrite Hcalls. cbn [omap list_omap]. rewrite He. simpl.
        by rewrite Hnone.
    + rewrite Hsome. cbn [fst snd registry keys_changed].
      set (svc' := EventService.mk
                     (<[key := (check_event now b e).1]> (EventService._events svc))
                     (EventService._message_to_event svc)).
      assert (Hother : forall k, k <> key ->
                EventService._events svc' !! k = EventService._events svc !! k).
      { intros k Hne. subst svc'. cbn [EventService._events].
        by rewrite lookup_insert_ne. }
      destruct (IH svc') as (Hraised & Hlookup & Hindex & Hcalls); [done| | |].
      { intros k Hk. rewrite Hother; [|by intros ->].
        apply Hin. by apply list_elem_of_further. }
      { subst svc'. cbn [EventService._events].
        rewrite map_size_insert_Some by by eexists. done. }
      split_and!; [done| |done|].
      * intros k. rewrite Hlookup.
        destruct (decide (k = key)) as [->|Hne].
        -- rewrite decide_False by done.
           rewrite decide_True by apply list_elem_of_here.
           subst svc'. cbn [EventService._events].
           by rewrite lookup_insert_eq, He.
        -- rewrite Hother by done.
           destruct (decide (k ∈ pending)) as [Hk|Hk].
           ++ rewrite decide_True; [done|]. by apply list_elem_of_further.
           ++ rewrite decide_False; [done|].
              intros [?|?]%elem_of_cons; done.
      * rewrite Hcalls. cbn [omap list_omap]. rewrite He. simpl.
        rewrite Hsome. simpl. f_equal.
        apply omap_ext_elem. intros k Hk. rewrite Hother; [done|].
        by intros ->.
Qed.

Lemma lists_keys_length (order : list string) svc :
  lists_keys order svc -> length order = size (EventService._events svc).
Proof.
  intros [Hnd Hkeys].
  rewrite <- length_map_to_list.
  rewrite <- (length_fmap fst (map_to_list (EventService._events svc))).
  apply Permutation_length, NoDup_Permutation;
    [done | apply NoDup_fst_map_to_list|].
  intros k. rewrite Hkeys. rewrite list_elem_of_fmap. split.
  - intros [e He]. exists (k, e). split; [done|].
    by apply elem_of_map_to_list.
  - intros ([k' e] & -> & He). apply elem_of_map_to_list in He. by eexists.
Qed.

Lemma check_upcoming_events_quiet (now : datetime.t) (b : bot)
    (order : list string) svc :
  lists_keys order svc ->
  let r := _check_upcoming_events now b quiet order svc in
  scan_raised r = None
  /\ (forall k,
        EventService._events (scan_registry r) !! k
        = (fun e => (check_event now b e).1) <$> EventService._events svc !! k)
  /\ EventService._message_to_event (scan_registry r)
     = EventService._message_to_event svc
  /\ scan_calls r
     = omap (fun k =>
               e ← EventService._events svc !! k;
               posts ← (check_event now b e).2;
               Some (k, posts)) order.
Proof.
  intros Hkeys. pose proof (lists_keys_length order svc Hkeys) as Hlen.
  destruct Hkeys as [Hnd Hkeys].
  pose proof (iterate_quiet now b (size (EventService._events svc)) order svc
                Hnd (fun k Hk => proj1 (Hkeys k) Hk) eq_refl) as Hq.
  rewrite Hlen in Hq. unfold _check_upcoming_events. cbn zeta in *.
  destruct Hq as (Hraised & Hlookup & Hindex & Hcalls).
  split_and!; [done| |done..].
  intros k. rewrite Hlookup. case_decide as Hk; [done|].
  destruct (EventService._events svc !! k) as [e|] eqn:He; [|done].
  exfalso. apply Hk, Hkeys. by eexists.
Qed.

(** C10. When a scan comes to an event inside the window, it calls
    the reminder.  The call posts nothing when the event has no thread
    handle, when the thread is neither cached nor fetchable, when the
    event has no participant as the call looks at them (after the
    fetch, if there was one), and when the post to the thread raises;
    without a thread handle, and without a participant when the thread
    is cached, nothing is awaited, so nothing is posted and the
    registry changes only by the latch of the event.  Whatever the call
    posted and whatever the handlers did meanwhile, the latch of the
    event is closed afterwards.  Unless a handler stores a new event
    under the identifier, which is then another event, the latch is
    closed in the registry too as long as the registry holds the
    identifier, and neither the rest of this scan nor any later turn of
    the loop, at any time, with any client and with any handlers in
    between and during the scans, calls or posts a reminder for the
    identifier again.  A scan during which no handler runs comes to
    every event of the registry, so it makes that one call, posting
    nothing, for such an event; and any scan of any registry that calls
    the reminder for the identifier, whatever the handlers do during
    it and however it ends, calls it once and leaves the latch closed
    for all the later turns of the loop. *)
Theorem reminder_forfeited (now : datetime.t) (b : bot) (env : environment)
    (n : nat) svc id e (d : datetime.t) :
  EventService._events svc !! id = Some e ->
  Event.event_date e = Some d ->
  Event.reminder_sent e = false ->
  timedelta_seconds 30 <= datetime.sub d now <= timedelta_minutes 3 ->
  let thread := default 0 (Event.thread_id e) in
  let unawaited :=
    truthy_id (Event.thread_id e) = false
    \/ (Event.participants e = [] /\ get_channel b thread = true) in
  let looked_at :=
    if get_channel b thread then mk_task svc e true false
    else run_handlers id (during_fetch env n) (mk_task svc e true false) in
  let undelivered :=
    unawaited
    \/ (get_channel b thread = false /\ fetch_channel b thread = false)
    \/ Event.participants (object looked_at) = []
    \/ thread_send b thread
         (Reminder (Event.participants (object looked_at))
            (Event.name (object looked_at))) = false in
  let latched_registry :=
    EventService.mk
      (<[id := Event.set_reminder_sent true e]> (EventService._events svc))
      (EventService._message_to_event svc) in
  let v := visit now b env n id e svc in
  (exists posts, v.2 = Some posts /\ (undelivered -> posts = []))
  /\ (unawaited ->
      v = (mk_task latched_registry (Event.set_reminder_sent true e) true false,
           Some []))
  /\ Event.reminder_sent (object v.1) = true
  /\ (keeps_event id env ->
      latched id (registry v.1)
      /\ (forall size0 n' changed pending,
            Forall (fun call => call.1 <> id)
              (scan_calls (iterate now b env size0 n' changed pending
                             (registry v.1))))
      /\ (forall ticks,
            Forall (tick_keeps_event id) ticks ->
            calls_for id (_reminder_loop ticks (registry v.1)).2 = 0%nat
            /\ reminders_posted id (_reminder_loop ticks (registry v.1)).2
               = 0%nat))
  /\ (forall order,
        lists_keys order svc ->
        truthy_id (Event.thread_id e) = false
        \/ (get_channel b thread = false /\ fetch_channel b thread = false)
        \/ Event.participants e = []
        \/ thread_send b thread
             (Reminder (Event.participants e) (Event.name e)) = false ->
        let scan := _check_upcoming_events now b quiet order svc in
        scan_raised scan = None
        /\ calls_of id [scan] = [[]]
        /\ EventService._events (scan_registry scan) !! id
           = Some (Event.set_reminder_sent true e))
  /\ (forall now' b' env' order' svc',
        keeps_event id env' ->
        let scan := _check_upcoming_events now' b' env' order' svc' in
        calls_of id [scan] <> [] ->
        length (calls_of id [scan]) = 1%nat
        /\ latched id (scan_registry scan)
        /\ (forall ticks,
              Forall (tick_keeps_event id) ticks ->
              calls_for id (_reminder_loop ticks (scan_registry scan)).2 = 0%nat
              /\ reminders_posted id
                   (_reminder_loop ticks (scan_registry scan)).2 = 0%nat)).
Proof.
  intros He Hd Hs Hw thread unawaited looked_at undelivered
    latched_registry v.
  assert (Hdue : exists d,
            Event.event_date e = Some d /\ Event.reminder_sent e = false
            /\ timedelta_seconds 30 <= datetime.sub d now <= timedelta_minutes 3)
    by by exists d.
  assert (Hl : keeps_event id env -> latched id (registry v.1)).
  { intros Hk. apply visit_closes; [done..|].
    destruct (visit_cases now b env n id e svc) as [[Hno _]|[_ (cs & _ & Hv)]];
      [done|]. subst v. rewrite Hv. by eexists. }
  assert (Hunawaited : unawaited ->
    _send_event_reminder_task b (during_fetch env n) (during_reminder env n)
      (during_prompt env n) id (mk_task svc e true false)
    = (mk_task svc e true false, [])).
  { intros Hcause. unfold _send_event_reminder_task. cbn [object].
    fold thread. destruct Hcause as [Hid|[Hps Hget]].
    - by rewrite Hid.
    - destruct (negb (truthy_id _)); [done|]. cbn zeta. rewrite Hget.
      cbn [negb andb object]. by rewrite bool_decide_eq_true_2. }
  assert (Hposts : undelivered ->
    (_send_event_reminder_task b (during_fetch env n) (during_reminder env n)
       (during_prompt env n) id (mk_task svc e true false)).2 = []).
  { intros [Hcause|[[Hget Hfetch]|[Hps|Hsend]]].
    - by rewrite Hunawaited.
    - unfold _send_event_reminder_task. cbn [object]. fold thread.
      destruct (negb (truthy_id _)); [done|]. cbn zeta.
      by rewrite Hget, Hfetch.
    - unfold _send_event_reminder_task. cbn [object]. fold thread.
      destruct (negb (truthy_id _)); [done|]. cbn zeta. fold looked_at.
      destruct (negb _ && negb _); [done|].
      by rewrite bool_decide_eq_true_2.
    - unfold _send_event_reminder_task. cbn [object]. fold thread.
      destruct (negb (truthy_id _)); [done|]. cbn zeta. fold looked_at.
      destruct (negb _ && negb _); [done|].
      case_bool_decide; [done|]. by rewrite Hsend. }
  assert (Hv : v = (set_latch id
                      (_send_event_reminder_task b (during_fetch env n)
                         (during_reminder env n) (during_prompt env n) id
                         (mk_task svc e true false)).1,
                    Some (_send_event_reminder_task b (during_fetch env n)
                            (during_reminder env n) (during_prompt env n) id
                            (mk_task svc e true false)).2)).
  { subst v. unfold visit, in_window. rewrite Hd, Hs.
    rewrite (proj2 (Z.leb_le _ _) (proj1 Hw)), (proj2 (Z.leb_le _ _) (proj2 Hw)).
    cbn [andb]. by destruct (_send_event_reminder_task _ _ _ _ _ _). }
  split_and!.
  - eexists. split; [by rewrite Hv|]. exact Hposts.
  - intros Hcause. rewrite Hv, (Hunawaited Hcause). done.
  - rewrite Hv. done.
  - intros Hk. specialize (Hl Hk). split_and!; [done| |].
    + intros size0 n' changed pending.
      by apply (iterate_latched now b env size0 n' changed pending id).
    + intros ticks Hticks. unfold calls_for, reminders_posted.
      by destruct (reminder_loop_latched id ticks _ Hl Hticks) as [_ ->].
  - intros order Hkeys Hcause scan.
    destruct (check_upcoming_events_quiet now b order svc Hkeys)
      as (Hraised & Hlookup & _ & Hcalls).
    fold scan in Hraised, Hlookup, Hcalls.
    destruct (check_event_cases now b e) as [[_ Hc]|[Hno _]]; [|done].
    rewrite send_event_reminder_nothing in Hc by done.
    split_and!; [done| |rewrite Hlookup, He; simpl; by rewrite Hc].
    unfold calls_of. simpl. rewrite app_nil_r, Hcalls.
    destruct Hkeys as [Hnd Hkeys].
    assert (Hin : id ∈ order) by (apply Hkeys; by eexists).
    clear Hcalls Hlookup Hraised Hkeys scan.
    induction order as [|k order IH]; [by apply elem_of_nil in Hin|].
    apply NoDup_cons in Hnd as [Hk' Hnd]. cbn [omap list_omap].
    destruct (decide (k = id)) as [->|Hne].
    + rewrite He. simpl. rewrite Hc. simpl.
      rewrite bool_decide_eq_true_2 by done. simpl. f_equal.
      assert (Hnone : Forall (fun call : string * list (Z * message) =>
                                call.1 <> id)
                (omap (fun k =>
                         e ← EventService._events svc !! k;
                         posts ← (check_event now b e).2;
                         Some (k, posts)) order)).
      { apply Forall_forall. intros [k posts] (x & Hx & Hfx)%list_elem_of_omap.
        destruct (EventService._events svc !! x) as [ex|]; [|done].
        simpl in Hfx. destruct ((check_event now b ex).2); [|done].
        simpl in Hfx. injection Hfx as <- _. simpl. by intros ->. }
      by rewrite filter_calls_none.
    + apply elem_of_cons in Hin as [->|Hin]; [done|].
      destruct (EventService._events svc !! k) as [ek|]; simpl;
        [|by apply IH].
      destruct ((check_event now b ek).2); simpl; [|by apply IH].
      rewrite bool_decide_eq_false_2 by done. by apply IH.
  - intros now' b' env' order' svc' Hk scan Hcalled.
    unfold calls_of in Hcalled |- *. simpl in Hcalled |- *.
    rewrite app_nil_r in Hcalled |- *.
    destruct (iterate_once now' b' env'
                (size (EventService._events svc'))
                (size (EventService._events svc')) false order' id svc' Hk)
      as [Hnone|(posts & Hone & Hl' & _)];
      fold (_check_upcoming_events now' b' env' order' svc') in *;
      fold scan in Hnone || fold scan in Hone, Hl'.
    + by rewrite Hnone in Hcalled.
    + rewrite Hone. split_and!; [done..|].
      intros ticks Hticks. unfold calls_for, reminders_posted.
      by destruct (reminder_loop_latched id ticks _ Hl' Hticks) as [_ ->].
Qed.

Lemma reminder_forfeited_witness :
  (visit noon obliging_bot busy 1 "a1b2c3d4" duo_event duo_registry).2
    = Some []
  /\ reminders_posted "a1b2c3d4"
       (_reminder_loop
          [mk_tick [SvcAdd "a1b2c3d4" 7] minute_past_noon obliging_bot busy
             ["a1b2c3d4"]]
          (registry
             (visit noon obliging_bot busy 1 "a1b2c3d4" duo_event
                duo_registry).1)).2
     = 0%nat.
Proof.
  destruct (reminder_forfeited noon obliging_bot busy 1 duo_registry
              "a1b2c3d4" duo_event (datetime.mk 2024 3 5 12 1 30 0))
    as (_ & Hunawaited & _ & Hnever & _ & _).
  - vm_compute. reflexivity.
  - reflexivity.
  - reflexivity.
  - vm_compute. split; discriminate.
  - split.
    + rewrite Hunawaited; [reflexivity|]. left. reflexivity.
    + destruct Hnever as (_ & _ & Hnever).
      * intros n. simpl. repeat constructor.
      * apply Hnever. repeat constructor.
Defined.

(** C1 (fails on the code).  The registry holds two events with a
    thread and participants, the first due at 12:01:30 and the second
    at 12:01:20, and the scan of 12:00:00 finds both inside the window
    with their latches open.  When no handler runs during the scan, it
    calls the reminder of both.  When a handler creates an event while
    the post of the first reminder is awaited, the iterator of the
    dictionary raises [RuntimeError] as it is asked for the second
    event: the scan ends with one call, the second event keeps its open
    latch, and the loop sleeps 60 seconds.  From 12:01:00 on the second
    event is less than 30 seconds ahead, so it is outside the window at
    every later scan: the scan of 12:01:00 calls nothing and the
    reminder of the second event is never sent. *)
Theorem reminder_lost_when_scan_interrupted :
  let order := ["a1b2c3d4"; "e5f6a7b8"] in
  let first_reminder := [(555, Reminder [7; 8] "Raid")] in
  let second_reminder := [(556, Reminder [9] "Strike")] in
  let undisturbed :=
    _check_upcoming_events noon obliging_bot quiet order two_due_registry in
  let interrupted :=
    _check_upcoming_events noon obliging_bot busy order two_due_registry in
  let next :=
    _check_upcoming_events minute_past_noon obliging_bot quiet
      (order ++ ["c9d0e1f2"]) (scan_registry interrupted) in
  lists_keys order two_due_registry
  /\ (check_event noon obliging_bot threaded_event).2 = Some first_reminder
  /\ (check_event noon obliging_bot solo_event).2 = Some second_reminder
  /\ scan_raised undisturbed = None
  /\ scan_calls undisturbed
     = [("a1b2c3d4", first_reminder); ("e5f6a7b8", second_reminder)]
  /\ scan_raised interrupted
     = Some (RuntimeError "dictionary changed size during iteration")
  /\ scan_calls interrupted = [("a1b2c3d4", first_reminder)]
  /\ EventService._events (scan_registry interrupted) !! "e5f6a7b8"
     = Some solo_event
  /\ Event.reminder_sent solo_event = false
  /\ lists_keys (order ++ ["c9d0e1f2"]) (scan_registry interrupted)
  /\ (forall now,
        datetime.micros minute_past_noon <= datetime.micros now ->
        in_window (datetime.sub (datetime.mk 2024 3 5 12 1 20 0) now) = false)
  /\ scan_raised next = None
  /\ scan_calls next = []
  /\ EventService._events (scan_registry next) !! "e5f6a7b8" = Some solo_event.
Proof.
  assert (Hkeys : forall (l : list string) (svc : EventService.t),
            NoDup l ->
            bool_decide (Forall (fun k => is_Some (EventService._events svc !! k)) l)
            = true ->
            bool_decide ((map_to_list (EventService._events svc)).*1 ⊆ l)
            = true ->
            lists_keys l svc).
  { intros l svc Hnd Hall Hsub. apply bool_decide_eq_true in Hall, Hsub.
    split; [done|]. intros k. split.
    - intros Hk. rewrite Forall_forall in Hall. by apply Hall.
    - intros [e He]. apply Hsub, list_elem_of_fmap.
      exists (k, e). split; [done|]. by apply elem_of_map_to_list. }
  cbn zeta. split_and!.
  - apply Hkeys; [|vm_compute; reflexivity..].
    apply NoDup_cons. split; [|apply NoDup_singleton].
    by intros ?%list_elem_of_singleton.
  - vm_compute. reflexivity.
  - vm_compute. reflexivity.
  - vm_compute. reflexivity.
  - vm_compute. reflexivity.
  - vm_compute. reflexivity.
  - vm_compute. reflexivity.
  - vm_compute. reflexivity.
  - reflexivity.
  - apply Hkeys; [|vm_compute; reflexivity..].
    repeat (apply NoDup_cons; split;
            [rewrite ?elem_of_cons, elem_of_nil; intros Hin;
             repeat destruct Hin as [Hin|Hin]; done|]).
    apply NoDup_nil_2.
  - intros now Hnow. unfold in_window. apply andb_false_intro1.
    apply Z.leb_gt. unfold datetime.sub, timedelta_seconds.
    assert (Hdate : datetime.micros (datetime.mk 2024 3 5 12 1 20 0)
                    = datetime.micros minute_past_noon + 20000000)
      by (vm_compute; reflexivity).
    lia.
  - vm_compute. reflexivity.
  - vm_compute. reflexivity.
  - vm_compute. reflexivity.
Qed.

(** The calls for one key among those of a scan during which no
    handler runs. *)
Lemma calls_of_quiet (now : datetime.t) (b : bot) (order : list string)
    svc k :
  NoDup order ->
  map snd
    (List.filter (fun call : string * list (Z * message) =>
                    bool_decide (call.1 = k))
       (omap (fun k =>
                e ← EventService._events svc !! k;
                posts ← (check_event now b e).2;
                Some (k, posts)) order))
  = if decide (k ∈ order)
    then match EventService._events svc !! k
               ≫= (fun e => (check_event now b e).2) with
         | Some posts => [posts]
         | None => []
         end
    else [].
Proof.
  induction order as [|k0 order IH]; intros Hnd; [done|].
  apply NoDup_cons in Hnd as [Hk0 Hnd]. specialize (IH Hnd).
  cbn [omap list_omap].
  destruct (decide (k0 = k)) as [->|Hne].
  - rewrite decide_True by apply list_elem_of_here.
    rewrite decide_False in IH by done.
    destruct (EventService._events svc !! k) as [e|]; simpl; [|done].
    destruct ((check_event now b e).2) as [posts|]; simpl; [|done].
    rewrite bool_decide_eq_true_2 by done. simpl. by rewrite IH.
  - assert (Hstep :
      map snd
        (List.filter (fun call : string * list (Z * message) =>
                        bool_decide (call.1 = k))
           (match EventService._events svc !! k0
                  ≫= (fun e => (check_event now b e).2
                                 ≫= fun posts => Some (k0, posts)) with
            | Some call =>
                call :: omap (fun k =>
                                e ← EventService._events svc !! k;
                                posts ← (check_event now b e).2;
                                Some (k, posts)) order
            | None =>
                omap (fun k =>
                        e ← EventService._events svc !! k;
                        posts ← (check_event now b e).2;
                        Some (k, posts)) order
            end))
      = map snd
          (List.filter (fun call : string * list (Z * message) =>
                          bool_decide (call.1 = k))
             (omap (fun k =>
                      e ← EventService._events svc !! k;
                      posts ← (check_event now b e).2;
                      Some (k, posts)) order))).
    { destruct (EventService._events svc !! k0) as [e0|]; simpl; [|done].
      destruct ((check_event now b e0).2) as [posts|]; simpl; [|done].
      by rewrite bool_decide_eq_false_2. }
    etrans; [exact Hstep|]. rewrite IH.
    destruct (decide (k ∈ order)) as [Hk|Hk].
    + rewrite decide_True; [done|]. by apply list_elem_of_further.
    + rewrite decide_False; [done|]. intros [?|?]%elem_of_cons; done.
Qed.

(** X30. A scan during which no handler runs does not raise and goes
    through all the events of the registry: it calls the reminder of an
    event, once, exactly when the event has a date, an open latch and
    between 30 seconds and 3 minutes to go, and then closes its latch;
    it leaves every other event and the message index as they are.
    Whatever the handlers do between and during the scans, short of
    storing a new event under the identifier, over all the turns of the
    loop the reminder of an event is called at most once and at most
    one reminder is posted for it. *)
Theorem check_upcoming_events_spec (now : datetime.t) (b : bot)
    (order : list string) svc :
  lists_keys order svc ->
  let scan := _check_upcoming_events now b quiet order svc in
  scan_raised scan = None
  /\ EventService._message_to_event (scan_registry scan)
     = EventService._message_to_event svc
  /\ (forall k,
        EventService._events svc !! k = None ->
        EventService._events (scan_registry scan) !! k = None
        /\ calls_of k [scan] = [])
  /\ (forall k e,
        EventService._events svc !! k = Some e ->
        let due := exists d,
          Event.event_date e = Some d /\ Event.reminder_sent e = false
          /\ timedelta_seconds 30 <= datetime.sub d now <= timedelta_minutes 3 in
        (due ->
         calls_of k [scan] = [_send_event_reminder b e]
         /\ EventService._events (scan_registry scan) !! k
            = Some (Event.set_reminder_sent true e))
        /\ (~ due ->
            calls_of k [scan] = []
            /\ EventService._events (scan_registry scan) !! k = Some e))
  /\ (forall k ticks svc',
        Forall (tick_keeps_event k) ticks ->
        (calls_for k (_reminder_loop ticks svc').2 <= 1)%nat
        /\ (reminders_posted k (_reminder_loop ticks svc').2 <= 1)%nat).
Proof.
  intros Hkeys scan.
  destruct (check_upcoming_events_quiet now b order svc Hkeys)
    as (Hraised & Hlookup & Hindex & Hcalls).
  fold scan in Hraised, Hlookup, Hindex, Hcalls.
  destruct Hkeys as [Hnd Hkeys].
  assert (Hof : forall k,
            calls_of k [scan]
            = match EventService._events svc !! k
                    ≫= (fun e => (check_event now b e).2) with
              | Some posts => [posts]
              | None => []
              end).
  { intros k. unfold calls_of. simpl. rewrite app_nil_r, Hcalls.
    rewrite calls_of_quiet by done. case_decide as Hk; [done|].
    destruct (EventService._events svc !! k) as [e|] eqn:He; [|done].
    exfalso. apply Hk, Hkeys. by eexists. }
  split_and!; [done..| | |].
  - intros k Hk. by rewrite Hlookup, Hof, Hk.
  - intros k e He due. rewrite Hlookup, Hof, He. simpl.
    destruct (check_event_cases now b e) as [[Hdue ->]|[Hno ->]];
      split; done.
  - intros k ticks svc'. apply reminder_loop_once.
Qed.

Lemma check_upcoming_events_spec_witness :
  scan_raised
    (_check_upcoming_events noon obliging_bot quiet ["a1b2c3d4"; "e5f6a7b8"]
       two_due_registry) = None.
Proof.
  apply (check_upcoming_events_spec noon obliging_bot ["a1b2c3d4"; "e5f6a7b8"]
           two_due_registry).
  split.
  - apply NoDup_cons. split; [|apply NoDup_singleton].
    by intros ?%list_elem_of_singleton.
  - intros k. split.
    + intros [Hk|Hk%list_elem_of_singleton]%elem_of_cons; subst k;
        vm_compute; by eexists.
    + intros [e He]. unfold two_due_registry in He.
      cbn [EventService._events] in He.
      apply lookup_insert_Some in He as [[<- _]|[_ He]];
        [apply list_elem_of_here|].
      apply lookup_singleton_Some in He as [<- _].
      apply list_elem_of_further, list_elem_of_here.
Defined.

End scheduler.

(** * Further properties of the entity *)

Section entity_more.
Import Event.

(** X1. A check-in that succeeded is undone by [check_out_participant]:
    it answers [True] and the event is again what it was before the
    check-in.  Before the check-in, the check-out of that user was
    refused and changed nothing. *)
Theorem check_in_then_check_out (now : datetime.t) (user_id : Z) (e e' : t) :
  check_in_participant now user_id e = (true, e') ->
  check_out_participant user_id e' = (true, e)
  /\ check_out_participant user_id e = (false, e).
Proof.
  unfold check_in_participant. intros Hci.
  repeat match type of Hci with
         | (if ?b then _ else _) = _ => destruct b eqn:?; [done|]
         end.
  injection Hci as <-.
  match goal with H : py_in user_id (checked_in_participants e) = false |- _ =>
    rename H into Hnot end.
  unfold check_out_participant. split.
  - cbn [checked_in_participants set_checked_in_participants].
    assert (Hin : py_in user_id (checked_in_participants e ++ [user_id]) = true).
    { apply py_in_true, elem_of_app. right. apply list_elem_of_here. }
    rewrite Hin. cbn [negb]. f_equal.
    apply py_in_false in Hnot.
    assert (Hrm : py_remove user_id (checked_in_participants e ++ [user_id])
                  = checked_in_participants e).
    { clear -Hnot. induction (checked_in_participants e) as [|y l IH]; simpl.
      - by rewrite decide_True.
      - apply not_elem_of_cons in Hnot as [Hne Hnot].
        rewrite decide_False by done. by rewrite IH. }
    rewrite Hrm. by destruct e.
  - by rewrite Hnot.
Qed.

Lemma check_in_then_check_out_witness :
  check_out_participant 7
    (set_checked_in_participants [7] duo_event_check_in)
  = (true, duo_event_check_in).
Proof.
  apply (check_in_then_check_out half_past_noon 7 duo_event_check_in).
  reflexivity.
Defined.

(** The invariant of the two sequences of an event. *)
Lemma check_in_participant_ok (now : datetime.t) (user_id : Z) (e : t) :
  let e' := (check_in_participant now user_id e).2 in
  participants e' = participants e
  /\ max_participants e' = max_participants e
  /\ (NoDup (checked_in_participants e) -> NoDup (checked_in_participants e')).
Proof.
  unfold check_in_participant.
  repeat match goal with
         | |- context [if ?b then _ else _] => destruct b eqn:?; [done|]
         end.
  simpl. split_and!; [done..|].
  intros Hnd. apply NoDup_app. split_and!; [done | | apply NoDup_singleton].
  intros x Hx ->%list_elem_of_singleton.
  match goal with H : py_in _ (checked_in_participants e) = false |- _ =>
    apply py_in_false in H; done end.
Qed.

Lemma check_out_participant_ok (user_id : Z) (e : t) :
  let e' := (check_out_participant user_id e).2 in
  participants e' = participants e
  /\ max_participants e' = max_participants e
  /\ (NoDup (checked_in_participants e) -> NoDup (checked_in_participants e')).
Proof.
  unfold check_out_participant. destruct (negb _); [done|].
  simpl. split_and!; [done..|]. intros Hnd. by apply py_remove_NoDup.
Qed.

Lemma add_participant_checked_in (user_id : Z) (e : t) :
  checked_in_participants (add_participant user_id e).2
  = checked_in_participants e.
Proof. rewrite add_participant_eq. repeat case_decide; by destruct e. Qed.

Lemma remove_participant_checked_in (user_id : Z) (e : t) :
  checked_in_participants (remove_participant user_id e).2
  = checked_in_participants e.
Proof.
  unfold remove_participant. destruct (py_in _ _); simpl; [|done].
  destruct (_ && _); by destruct e.
Qed.

Lemma do_entity_call_ok (c : entity_call) (e : t) :
  participants_ok e /\ NoDup (checked_in_participants e) ->
  (participants_ok (do_entity_call c e)
   /\ NoDup (checked_in_participants (do_entity_call c e)))
  /\ max_participants (do_entity_call c e) = max_participants e.
Proof.
  intros [Hok Hnd]. destruct c as [u|u|now u|u|s t'| |ts n|]; simpl.
  - split; [split|]; [by apply add_participant_ok
                     | by rewrite add_participant_checked_in
                     | apply add_participant_max].
  - split; [split|]; [by apply remove_participant_ok
                     | by rewrite remove_participant_checked_in
                     | apply remove_participant_max].
  - destruct (check_in_participant_ok now u e) as (Hps & Hmax & Hnd').
    destruct Hok as [Hnd1 Hle]. unfold participants_ok, participant_count in *.
    rewrite Hps, Hmax. by split_and!; [| |apply Hnd'|].
  - destruct (check_out_participant_ok u e) as (Hps & Hmax & Hnd').
    destruct Hok as [Hnd1 Hle]. unfold participants_ok, participant_count in *.
    rewrite Hps, Hmax. by split_and!; [| |apply Hnd'|].
  - by destruct e.
  - by destruct e.
  - by destruct e.
  - by destruct e.
Qed.

Lemma run_entity_calls_ok (cs : list entity_call) (e : t) :
  participants_ok e /\ NoDup (checked_in_participants e) ->
  Forall (fun e' => participants_ok e' /\ NoDup (checked_in_participants e')
                    /\ max_participants e' = max_participants e)
    (run_entity_calls cs e).
Proof.
  revert e. induction cs as [|c cs IH]; intros e Hok; simpl; constructor.
  - destruct (do_entity_call_ok c e Hok) as [[? ?] ?]. by split_and!.
  - destruct (do_entity_call_ok c e Hok) as [Hok' Hmax].
    eapply Forall_impl; [by apply IH|].
    intros e' (? & ? & Hmax'). split_and!; [done..|]. by rewrite Hmax'.
Qed.

(** X2. From the created state of an event whose capacity is not
    negative, after each call of any sequence of calls that change an
    event (joining, leaving, checking in and out, switching check-in on
    and off, setting and clearing teams), no user is twice in the
    participant sequence, no user is twice in the checked-in sequence,
    and the participant count does not exceed the capacity. *)
Theorem entity_invariant
    (now : datetime.t) (id : string) (ty : EventType) (nm desc : string)
    (creator guild maxp : Z) (date : option datetime.t)
    (cs : list entity_call) :
  0 <= maxp ->
  Forall (fun e => NoDup (participants e)
                   /\ NoDup (checked_in_participants e)
                   /\ participant_count e <= maxp)
    (run_entity_calls cs (init now id ty nm desc creator guild maxp date)).
Proof.
  intros Hmax. eapply Forall_impl.
  - apply run_entity_calls_ok. split; [split|]; simpl;
      [apply NoDup_nil_2 | exact Hmax | apply NoDup_nil_2].
  - simpl. intros e ([Hnd Hle] & Hnd' & Heq). rewrite Heq in Hle. done.
Qed.

Lemma entity_invariant_witness :
  Forall (fun e => NoDup (participants e)
                   /\ NoDup (checked_in_participants e)
                   /\ participant_count e <= 2)
    (run_entity_calls
       [CallAdd 7; CallEnableCheckIn None None; CallCheckIn noon 7;
        CallCheckIn noon 7; CallRemove 7; CallAdd 7; CallCheckOut 7]
       duo_event).
Proof.
  apply (entity_invariant noon "a1b2c3d4" GENERAL "Raid" "Weekly raid"
           11 22 2 (Some (datetime.mk 2024 3 5 12 1 30 0))).
  vm_compute. discriminate.
Defined.

Lemma py_remove_app_last (user_id : Z) (l : list Z) :
  user_id ∉ l -> py_remove user_id (l ++ [user_id]) = l.
Proof.
  induction l as [|y l IH]; intros Hnot; simpl.
  - by rewrite decide_True.
  - apply not_elem_of_cons in Hnot as [Hne Hnot].
    rewrite decide_False by done. by rewrite IH.
Qed.

Lemma remove_from_first_team_absent (user_id : Z) (ts : list (list Z)) :
  Forall (fun team => user_id ∉ team) ts ->
  remove_from_first_team user_id ts = ts.
Proof.
  induction 1 as [|team rest Hteam _ IH]; simpl; [done|].
  apply py_in_false in Hteam. by rewrite Hteam, IH.
Qed.

(** X3. Leaving right after joining restores the event: when
    [add_participant] answered [True] on an event whose status was
    [OPEN] and whose teams do not hold the user, [remove_participant]
    answers [True] and gives back the event as it was before. *)
Theorem add_then_remove (user_id : Z) (e e' : t) :
  add_participant user_id e = (true, e') ->
  status e = OPEN ->
  Forall (fun team => user_id ∉ team) (teams e) ->
  remove_participant user_id e' = (true, e).
Proof.
  rewrite add_participant_eq. case_decide as Hc; [done|].
  intros [= <-] Hst Hteams.
  assert ((user_id ∉ participants e)
          /\ participant_count e < max_participants e) as [Hnot Hlt].
  { split; [tauto|]. destruct (Z_lt_le_dec (participant_count e)
                                 (max_participants e)); tauto. }
  destruct e as [id ty nm desc creator guild maxp created date st ps cps
                 tms tsz mid thread sent enabled start_time end_time].
  unfold participant_count in *. simpl in *. subst st.
  assert (Hin : py_in user_id (ps ++ [user_id]) = true).
  { apply py_in_true, elem_of_app. right. apply list_elem_of_here. }
  assert (Hfull : (maxp <=? Z.of_nat (length ps)) = false) by lia.
  unfold remove_participant.
  case_decide; simpl; rewrite Hin; simpl;
    rewrite py_remove_app_last, remove_from_first_team_absent by done;
    unfold is_full, participant_count; simpl; rewrite ?Hfull; done.
Qed.

Lemma add_then_remove_witness :
  remove_participant 7 (add_participant 7 duo_event).2 = (true, duo_event).
Proof.
  apply (add_then_remove 7 duo_event).
  - reflexivity.
  - reflexivity.
  - apply Forall_nil_2.
Defined.

(** X4. On a full event (status [FULL], as many participants as the
    capacity, no user twice) a participant who leaves and joins again
    makes the status go to [OPEN] and back to [FULL]; the participants
    are the same users afterwards and the one who came back is last. *)
Theorem remove_then_add_full (user_id : Z) (e : t) :
  NoDup (participants e) ->
  user_id ∈ participants e ->
  status e = FULL ->
  participant_count e = max_participants e ->
  exists e1 e2,
    remove_participant user_id e = (true, e1)
    /\ status e1 = OPEN
    /\ add_participant user_id e1 = (true, e2)
    /\ status e2 = FULL
    /\ participants e2 ≡ₚ participants e
    /\ last (participants e2) = Some user_id.
Proof.
  intros Hnd Hin Hst Hcap.
  destruct (py_remove_split user_id (participants e) Hin)
    as (l1 & l2 & Hps & Hl1 & Hrm).
  destruct (py_remove_NoDup user_id (participants e) Hnd) as [_ Hgone].
  pose proof (py_remove_length user_id (participants e) Hin) as Hlen.
  apply py_in_true in Hin. apply py_in_false in Hgone.
  destruct e as [id ty nm desc creator guild maxp created date st ps cps
                 tms tsz mid thread sent enabled start_time end_time].
  unfold participant_count in *. simpl in *. subst st.
  assert (Hbelow : (maxp <=? Z.of_nat (length (py_remove user_id ps))) = false)
    by (apply Z.leb_gt; lia).
  assert (Hreach : (maxp <=? Z.of_nat (length (py_remove user_id ps ++ [user_id])))
                   = true).
  { rewrite length_app. simpl. apply Z.leb_le. lia. }
  set (e0 := mk id ty nm desc creator guild maxp created date FULL ps cps
               tms tsz mid thread sent enabled start_time end_time).
  set (e1 := set_status OPEN
               (set_teams_attr (remove_from_first_team user_id tms)
                  (set_participants (py_remove user_id ps) e0))).
  set (e2 := set_status FULL
               (set_participants (py_remove user_id ps ++ [user_id]) e1)).
  assert (H1 : remove_participant user_id e0 = (true, e1)).
  { unfold remove_participant, is_full, participant_count. simpl.
    rewrite Hin. simpl. by rewrite Hbelow. }
  assert (H2 : add_participant user_id e1 = (true, e2)).
  { unfold add_participant, is_full, participant_count. simpl.
    rewrite Hgone, Hbelow. simpl. by rewrite Hreach. }
  exists e1, e2. split_and!; try done.
  - simpl. rewrite Hrm, Hps, <- (assoc_L (++)).
    apply Permutation_app_head. symmetry. apply Permutation_cons_append.
  - simpl. apply last_snoc.
Qed.

Lemma remove_then_add_full_witness :
  exists e1 e2,
    remove_participant 7 duo_event_full = (true, e1)
    /\ status e1 = OPEN
    /\ add_participant 7 e1 = (true, e2)
    /\ status e2 = FULL
    /\ participants e2 ≡ₚ [7; 8]
    /\ last (participants e2) = Some 7.
Proof.
  apply (remove_then_add_full 7 duo_event_full).
  - vm_compute. apply NoDup_cons. split.
    + intros Hin. apply list_elem_of_singleton in Hin. discriminate Hin.
    + apply NoDup_singleton.
  - apply list_elem_of_here.
  - reflexivity.
  - reflexivity.
Defined.

(** *** Attendance *)

Lemma filter_split_length (f : Z -> bool) (l : list Z) :
  (length (List.filter (fun u => negb (f u)) l) + length (List.filter f l)
   = length l)%nat.
Proof.
  induction l as [|y l IH]; simpl; [done|].
  destruct (f y); simpl; lia.
Qed.

Lemma list_filter_sublist (f : Z -> bool) (l : list Z) :
  List.filter f l `sublist_of` l.
Proof.
  induction l as [|y l IH]; simpl; [done|].
  destruct (f y); [by apply sublist_skip | by apply sublist_cons].
Qed.

(** X5. [get_no_show_participants] lists, in the order of the
    participant sequence, exactly the participants who are not checked
    in.  When no user is twice in either sequence and every checked-in
    user is a participant, the no-shows and the checked-in users
    together are as many as the participants. *)
Theorem no_show_partition (e : t) :
  (forall u, u ∈ get_no_show_participants e
             <-> u ∈ participants e /\ (u ∉ checked_in_participants e))
  /\ get_no_show_participants e `sublist_of` participants e
  /\ (NoDup (participants e) ->
      NoDup (checked_in_participants e) ->
      (forall u, u ∈ checked_in_participants e -> u ∈ participants e) ->
      (length (get_no_show_participants e)
       + length (checked_in_participants e) = length (participants e))%nat).
Proof.
  unfold get_no_show_participants. split_and!.
  - intros u. rewrite list_elem_of_In, filter_In, <- list_elem_of_In.
    rewrite negb_true_iff, py_in_false. done.
  - apply list_filter_sublist.
  - intros Hnd Hnd' Hsub.
    rewrite <- (filter_split_length
                  (fun u => py_in u (checked_in_participants e))
                  (participants e)).
    f_equal. symmetry. apply Permutation_length, NoDup_Permutation.
    + eapply sublist_NoDup; [exact Hnd | apply list_filter_sublist].
    + done.
    + intros u. split.
      * intros Hu%list_elem_of_In%filter_In. by apply py_in_true, Hu.
      * intros Hu. apply list_elem_of_In, filter_In. split.
        -- by apply list_elem_of_In, Hsub.
        -- by apply py_in_true.
Qed.

Lemma no_show_partition_witness :
  Nat.add
    (length (get_no_show_participants
               (set_checked_in_participants [7] duo_event_check_in)))
    1 = 2%nat.
Proof.
  destruct (no_show_partition
              (set_checked_in_participants [7] duo_event_check_in))
    as (_ & _ & Hcount).
  apply Hcount.
  - vm_compute. apply NoDup_cons. split.
    + intros Hin. apply list_elem_of_singleton in Hin. discriminate Hin.
    + apply NoDup_singleton.
  - apply NoDup_singleton.
  - intros u Hu. apply list_elem_of_singleton in Hu. subst u.
    apply list_elem_of_here.
Defined.

(** X6. [check_in_participant] answers [True] exactly when the user is
    a participant, [is_check_in_active] holds at that time and the user
    is not checked in yet.  So after [disable_check_in] every check-in is
    refused, whoever asks and whenever; and after [enable_check_in]
    without bounds every participant who is not checked in yet is
    accepted at any time. *)
Theorem check_in_answer (now : datetime.t) (user_id : Z) (e : t) :
  (check_in_participant now user_id e).1
  = is_participant user_id e && is_check_in_active now e
    && negb (is_checked_in user_id e)
  /\ (forall now' u, (check_in_participant now' u (disable_check_in e)).1 = false)
  /\ (forall now' u,
        u ∈ participants e -> (u ∉ checked_in_participants e) ->
        (check_in_participant now' u (enable_check_in None None e)).1 = true).
Proof.
  split_and!.
  - unfold check_in_participant, is_check_in_active, is_checked_in.
    destruct (is_participant user_id e), (check_in_enabled e),
      (before_start now e), (after_end now e),
      (py_in user_id (checked_in_participants e)); reflexivity.
  - intros now' u. unfold check_in_participant.
    destruct (negb (is_participant u (disable_check_in e))); [done|].
    by destruct e.
  - intros now' u Hin Hnot. unfold check_in_participant, is_participant.
    apply py_in_true in Hin. apply py_in_false in Hnot.
    destruct e. simpl in *. by rewrite Hin, Hnot.
Qed.

Lemma check_in_answer_witness :
  (check_in_participant noon 8 (enable_check_in None None duo_event_full)).1
  = true.
Proof.
  destruct (check_in_answer noon 8 duo_event_full) as (_ & _ & Hopen).
  apply Hopen.
  - apply list_elem_of_further, list_elem_of_here.
  - apply not_elem_of_nil.
Defined.

(** *** Team numbers *)

Lemma find_team_none (user_id : Z) (i : nat) (ts : list (list Z)) :
  find_team user_id i ts = None <-> Forall (fun team => user_id ∉ team) ts.
Proof.
  revert i. induction ts as [|team rest IH]; intros i; simpl.
  - split; [constructor | done].
  - destruct (py_in user_id team) eqn:Hin.
    + apply py_in_true in Hin. split; [done|].
      intros Hall. apply Forall_cons in Hall as [Hnot _]. done.
    + apply py_in_false in Hin. rewrite IH, Forall_cons. tauto.
Qed.

Lemma find_team_some (user_id : Z) (i : nat) (ts : list (list Z)) (n : Z) :
  find_team user_id i ts = Some n ->
  exists k team,
    n = Z.of_nat (i + k) + 1
    /\ ts !! k = Some team /\ user_id ∈ team
    /\ Forall (fun team => user_id ∉ team) (take k ts).
Proof.
  revert i. induction ts as [|team rest IH]; intros i; simpl; [done|].
  destruct (py_in user_id team) eqn:Hin.
  - apply py_in_true in Hin. intros [= <-]. exists 0%nat, team.
    split_and!; [f_equal; lia | done | done | constructor].
  - apply py_in_false in Hin. intros Hfind.
    destruct (IH (S i) Hfind) as (k & team' & -> & Hk & Hmem & Hall).
    exists (S k), team'. split_and!; [f_equal; lia | done | done |].
    simpl. by constructor.
Qed.

(** X7. [get_team_for_participant] answers [None] exactly when no team
    holds the user; an answer [n] is the number, counted from 1, of the
    first team that holds the user. *)
Theorem get_team_for_participant_spec (user_id : Z) (e : t) :
  (get_team_for_participant user_id e = None
   <-> Forall (fun team => user_id ∉ team) (teams e))
  /\ (forall n, get_team_for_participant user_id e = Some n ->
        exists k team,
          n = Z.of_nat k + 1
          /\ teams e !! k = Some team /\ user_id ∈ team
          /\ Forall (fun team => user_id ∉ team) (take k (teams e))).
Proof.
  unfold get_team_for_participant. split.
  - apply find_team_none.
  - intros n Hn. by apply find_team_some in Hn.
Qed.

(** X8. When no user is twice in the teams of an event, a participant
    who leaves has no team afterwards. *)
Theorem remove_participant_leaves_team (user_id : Z) (e : t) :
  NoDup (concat (teams e)) ->
  user_id ∈ participants e ->
  get_team_for_participant user_id (remove_participant user_id e).2 = None.
Proof.
  intros Hnd Hin. apply py_in_true in Hin.
  unfold get_team_for_participant. apply find_team_none.
  assert (Hteams : teams (remove_participant user_id e).2
                   = remove_from_first_team user_id (teams e)).
  { unfold remove_participant. rewrite Hin. simpl.
    destruct (_ && _); by destruct e. }
  rewrite Hteams.
  destruct (remove_from_first_team_spec user_id (teams e))
    as [[Hall ->]|(before & team & after & Hts & Hall & Hteam & ->)]; [done|].
  rewrite Hts in Hnd. rewrite concat_app, concat_cons in Hnd.
  apply NoDup_app in Hnd as (_ & _ & Hnd).
  apply NoDup_app in Hnd as (Hnd & Hdisj & _).
  apply Forall_app. split; [done|]. constructor.
  - by apply py_remove_NoDup.
  - apply Forall_forall. intros team' Hteam' Hmem.
    apply (Hdisj user_id Hteam).
    apply list_elem_of_In, in_concat. exists team'.
    split; by apply list_elem_of_In.
Qed.

Lemma remove_participant_leaves_team_witness :
  get_team_for_participant 7 (remove_participant 7 duo_event_full).2 = None.
Proof.
  apply (remove_participant_leaves_team 7 duo_event_full).
  - vm_compute. apply NoDup_cons. split.
    + intros Hin. apply list_elem_of_singleton in Hin. discriminate Hin.
    + apply NoDup_singleton.
  - apply list_elem_of_here.
Defined.

End entity_more.

(** * Further properties of serialization *)

Section serialization_more.

(** X9. Two events have the same [to_dict] exactly when they agree on
    every attribute other than the scheduled date, the thread handle
    and the reminder latch. *)
Theorem to_dict_eq_iff (e1 e2 : Event.t) :
  Event.to_dict e1 = Event.to_dict e2
  <-> serialized_part e1 = serialized_part e2.
Proof.
  split.
  - intros Heq.
    pose proof (from_dict_to_dict noon e1) as H1.
    rewrite Heq, from_dict_to_dict in H1. congruence.
  - intros Heq.
    assert (Hsp : forall e, Event.to_dict e = Event.to_dict (serialized_part e))
      by done.
    by rewrite (Hsp e1), (Hsp e2), Heq.
Qed.

(** The keys that [from_dict] reads with [data[key]]. *)
Lemma from_dict_missing_key (now : datetime.t)
    (data : gmap string Event.pyval) (key : string) :
  key ∈ ["event_id"; "event_type"; "name"; "description"; "creator_id";
         "guild_id"; "created_at"; "status"] ->
  data !! key = None ->
  exists e, Event.from_dict now data = Raise e.
Proof.
  intros Hkey Hnone.
  assert (Hget : Event.getitem data key = Raise (KeyError key))
    by (unfold Event.getitem; by rewrite Hnone).
  unfold Event.from_dict.
  repeat rewrite elem_of_cons in Hkey. rewrite elem_of_nil in Hkey.
  destruct Hkey as [->|[->|[->|[->|[->|[->|[->|[->|[]]]]]]]]];
    repeat match goal with
           | |- exists e, bind ?r _ = Raise e =>
               let E := fresh "E" in
               destruct r eqn:E; cbn [bind]; cbv zeta; [|by eexists];
               try discriminate Hget;
               try (rewrite Hget in E; discriminate E); clear E
           end.
Qed.

(** X10. [from_dict] never builds an event from a dictionary that lacks
    one of the keys ["event_id"], ["event_type"], ["name"],
    ["description"], ["creator_id"], ["guild_id"], ["created_at"],
    ["status"]: it raises.  The other keys may be missing: a dictionary
    with these eight keys alone gives an event for 100 participants,
    with no participant, no checked-in user, no team, no message
    handle and check-in switched off. *)
Theorem from_dict_required_keys (now : datetime.t) :
  (forall data key,
      key ∈ ["event_id"; "event_type"; "name"; "description"; "creator_id";
             "guild_id"; "created_at"; "status"] ->
      data !! key = None ->
      exists e, Event.from_dict now data = Raise e)
  /\ (forall id ty nm desc creator guild created st,
        Event.from_dict now
          (list_to_map [
             ("event_id", Event.PStr id);
             ("event_type", Event.PStr (EventType_value ty));
             ("name", Event.PStr nm);
             ("description", Event.PStr desc);
             ("creator_id", Event.PInt creator);
             ("guild_id", Event.PInt guild);
             ("created_at", Event.PIso created);
             ("status", Event.PStr (EventStatus_value st))])
        = Ok (Event.set_status st
                (Event.mk id ty nm desc creator guild 100 created None OPEN
                   [] [] [] None None None false false None None))).
Proof.
  split.
  - intros data key. apply from_dict_missing_key.
  - intros id ty nm desc creator guild created st. by destruct ty, st.
Qed.

Lemma from_dict_required_keys_witness :
  exists e, Event.from_dict noon (delete "status" (Event.to_dict duo_event))
            = Raise e.
Proof.
  destruct (from_dict_required_keys noon) as [Hmissing _].
  apply (Hmissing _ "status").
  - do 7 apply list_elem_of_further. apply list_elem_of_here.
  - apply lookup_delete_eq.
Defined.

(** X11. A participant record comes back whole from [to_dict] then
    [from_dict]: user, event, join time and team number. *)
Theorem participant_round_trip (now : datetime.t) (p : Participant.t) :
  Participant.from_dict now (Participant.to_dict p) = Ok p.
Proof. destruct p as [user event joined [team|]]; reflexivity. Qed.

End serialization_more.

(** * Further properties of the registry *)

Section registry_more.
Import EventService.

Lemma elem_of_values (svc : t) (e : Event.t) :
  e ∈ values svc <-> exists k, _events svc !! k = Some e.
Proof.
  unfold values. rewrite list_elem_of_fmap. split.
  - intros ([k e'] & -> & Hin). exists k. by apply elem_of_map_to_list.
  - intros [k Hk]. exists (k, e). split; [done|]. by apply elem_of_map_to_list.
Qed.

(** X12. [create_event] stores the new event under the identifier
    drawn, replacing whatever was stored under it, and leaves every
    other event and the message index as they were; [get_event] then
    finds it.  The new event is open, has no participant, no
    checked-in user and no team, its reminder latch is open, and it
    carries the date and the team size given. *)
Theorem create_event_get (id : string) (now : datetime.t) (ty : EventType)
    (nm desc : string) (creator guild maxp : Z) (date : option datetime.t)
    (size : option Z) (svc : t) :
  let r := create_event id now ty nm desc creator guild maxp date size svc in
  get_event id r.2 = Some r.1
  /\ (forall id', id' <> id -> get_event id' r.2 = get_event id' svc)
  /\ _message_to_event r.2 = _message_to_event svc
  /\ Event.event_id r.1 = id
  /\ Event.status r.1 = OPEN
  /\ Event.participants r.1 = []
  /\ Event.checked_in_participants r.1 = []
  /\ Event.teams r.1 = []
  /\ Event.reminder_sent r.1 = false
  /\ Event.event_date r.1 = date
  /\ Event.team_size r.1 = size
  /\ Event.max_participants r.1 = maxp.
Proof.
  unfold create_event, get_event. simpl. split_and!;
    try (destruct size; reflexivity).
  - apply lookup_insert_eq.
  - intros id' Hne. by apply lookup_insert_ne.
Qed.

(** X13. When the index has no entry for a message handle,
    [get_event_by_message_id] answers [None] exactly when no event of
    the registry carries the handle; otherwise it answers an event of
    the registry that carries it, leaves the events as they are and
    records the event's identifier in the index under the handle, so
    that, once events are stored under their own non-empty identifier,
    the next lookup of the handle finds the same event through the
    index. *)
Theorem get_event_by_message_id_fallback (m : Z) (svc : t) :
  _message_to_event svc !! m = None ->
  let r := get_event_by_message_id m svc in
  (r.1 = None <->
     forall k e, _events svc !! k = Some e -> Event.message_id e <> Some m)
  /\ (forall e, r.1 = Some e ->
        (exists k, _events svc !! k = Some e)
        /\ Event.message_id e = Some m
        /\ _events r.2 = _events svc
        /\ _message_to_event r.2 = <[m := Event.event_id e]> (_message_to_event svc)
        /\ (_events svc !! Event.event_id e = Some e ->
            Event.event_id e <> EmptyString ->
            get_event_by_message_id m r.2 = (Some e, r.2))).
Proof.
  intros Hidx r. subst r. unfold get_event_by_message_id. rewrite Hidx.
  destruct (List.find _ (values svc)) as [e|] eqn:Hfind; simpl.
  - apply find_some in Hfind as [Hin Hm].
    apply list_elem_of_In, elem_of_values in Hin as [k Hk].
    apply bool_decide_eq_true in Hm.
    split.
    + split; [done|]. intros Hno. exfalso. by apply (Hno k e).
    + intros e' [= <-]. split_and!; [by exists k | done..|].
      intros Hself Hne. rewrite lookup_insert_eq.
      rewrite bool_decide_eq_false_2 by done.
      unfold get_event. simpl. by rewrite Hself.
  - split; [|done]. split; [|done]. intros _ k e Hk Hm.
    pose proof (find_none _ _ Hfind e) as Hnone.
    rewrite bool_decide_eq_false in Hnone. apply Hnone; [|done].
    apply list_elem_of_In, elem_of_values. by exists k.
Qed.

Lemma get_event_by_message_id_fallback_witness :
  (get_event_by_message_id 999 posted_registry).1 = Some posted_event
  /\ (get_event_by_message_id 999
        (get_event_by_message_id 999 posted_registry).2).1
     = Some posted_event.
Proof.
  destruct (get_event_by_message_id_fallback 999 posted_registry) as [_ Hsome].
  - reflexivity.
  - assert (Hfirst : (get_event_by_message_id 999 posted_registry).1
                     = Some posted_event) by (vm_compute; reflexivity).
    split; [exact Hfirst|].
    destruct (Hsome posted_event Hfirst) as (_ & _ & _ & _ & Hagain).
    rewrite Hagain.
    + reflexivity.
    + vm_compute. reflexivity.
    + discriminate.
Defined.

(** X14. After [link_message_to_event] with an identifier that is not
    empty, [get_event_by_message_id] answers what [get_event] answers
    for the linked identifier and changes nothing: the event stored
    under it, whatever message handle that event carries, and [None]
    when nothing is stored under it, without searching the events. *)
Theorem link_then_lookup (m : Z) (id : string) (svc : t) :
  id <> EmptyString ->
  get_event_by_message_id m (link_message_to_event m id svc)
  = (get_event id svc, link_message_to_event m id svc).
Proof.
  intros Hne. unfold get_event_by_message_id, link_message_to_event. simpl.
  rewrite lookup_insert_eq. by rewrite bool_decide_eq_false_2 by done.
Qed.

Lemma link_then_lookup_witness :
  (get_event_by_message_id 5 (link_message_to_event 5 "a1b2c3d4" duo_registry)).1
  = Some duo_event
  /\ (get_event_by_message_id 999
        (link_message_to_event 999 "gone" posted_registry)).1 = None.
Proof.
  split.
  - rewrite (link_then_lookup 5 "a1b2c3d4" duo_registry) by discriminate.
    vm_compute. reflexivity.
  - rewrite (link_then_lookup 999 "gone" posted_registry) by discriminate.
    vm_compute. reflexivity.
Defined.

Lemma elem_of_get_events_by_guild (g : Z) (svc : t) (e : Event.t) :
  e ∈ get_events_by_guild g svc
  <-> (exists k, _events svc !! k = Some e) /\ Event.guild_id e = g.
Proof.
  unfold get_events_by_guild.
  rewrite list_elem_of_In, filter_In, <- list_elem_of_In, elem_of_values.
  by rewrite Z.eqb_eq.
Qed.

(** X15. [delete_event] answers [False] and changes nothing for an
    identifier that is not in the registry.  For one that is, it
    answers [True]; [get_event] no longer finds it while every other
    identifier is found as before; the views by guild list exactly the
    events stored under the other identifiers; a second deletion
    answers [False]; and when the deleted event carried a message
    handle other than 0, the index has no entry for the handle any
    more, and the lookup by that handle answers [None] unless another
    event carries the same handle. *)
Theorem delete_event_spec (id : string) (svc : t) :
  (_events svc !! id = None -> delete_event id svc = (false, svc))
  /\ (forall e, _events svc !! id = Some e ->
        let r := delete_event id svc in
        r.1 = true
        /\ get_event id r.2 = None
        /\ (forall id', id' <> id -> get_event id' r.2 = get_event id' svc)
        /\ (forall g e',
              e' ∈ get_events_by_guild g r.2
              <-> (exists k, k <> id /\ _events svc !! k = Some e')
                  /\ Event.guild_id e' = g)
        /\ delete_event id r.2 = (false, r.2)
        /\ (forall m,
              Event.message_id e = Some m -> m <> 0 ->
              _message_to_event r.2 !! m = None
              /\ ((forall k e', k <> id -> _events svc !! k = Some e' ->
                                Event.message_id e' <> Some m) ->
                  (get_event_by_message_id m r.2).1 = None))).
Proof.
  unfold delete_event. split.
  - by intros ->.
  - intros e He. rewrite He. cbn [fst snd].
    set (index := if truthy_id (Event.message_id e) then _ else _).
    assert (Hget : forall k, _events (mk (delete id (_events svc)) index) !! k
                             = if decide (k = id) then None
                               else _events svc !! k).
    { intros k. simpl. case_decide as Hk.
      - subst k. apply lookup_delete_eq.
      - by apply lookup_delete_ne. }
    split_and!.
    + done.
    + unfold get_event. by rewrite Hget, decide_True.
    + intros id' Hne. unfold get_event. by rewrite Hget, decide_False.
    + intros g e'. rewrite elem_of_get_events_by_guild.
      split; intros [[k Hk] Hg]; (split; [|done]).
      * rewrite Hget in Hk. case_decide; [done|]. by exists k.
      * destruct Hk as [Hne Hk]. exists k. by rewrite Hget, decide_False.
    + simpl. by rewrite lookup_delete_eq.
    + intros m Hm Hm0.
      assert (Hidx : index !! m = None).
      { subst index. rewrite Hm. simpl.
        rewrite (proj2 (Z.eqb_neq m 0)) by done. simpl.
        apply lookup_delete_eq. }
      split; [done|]. intros Hothers.
      unfold get_event_by_message_id. cbn [_message_to_event].
      rewrite Hidx.
      destruct (List.find _ _) as [e'|] eqn:Hfind; [|done].
      exfalso. apply find_some in Hfind as [Hin Hm'].
      apply list_elem_of_In, elem_of_values in Hin as [k Hk].
      rewrite Hget in Hk. case_decide; [done|].
      apply bool_decide_eq_true in Hm'. by apply (Hothers k e').
Qed.

Lemma delete_event_spec_witness :
  (delete_event "a1b2c3d4" posted_registry).1 = true
  /\ (get_event_by_message_id 999
        (delete_event "a1b2c3d4" posted_registry).2).1 = None.
Proof.
  destruct (delete_event_spec "a1b2c3d4" posted_registry) as [_ Hdel].
  destruct (Hdel posted_event) as (Htrue & _ & _ & _ & _ & Hmsg).
  - vm_compute. reflexivity.
  - split; [exact Htrue|].
    destruct (Hmsg 999) as [_ Hlookup]; [reflexivity | discriminate |].
    apply Hlookup. intros k e' Hne Hk.
    destruct (decide (k = "a1b2c3d4")) as [->|Hne']; [done|].
    simpl in Hk. by rewrite lookup_singleton_ne in Hk.
Defined.

(** *** The invariant of the registry *)

Lemma do_entity_call_event_id (c : entity_call) (e : Event.t) :
  Event.event_id (do_entity_call c e) = Event.event_id e.
Proof.
  destruct c as [u|u|now u|u|s t'| |ts n|]; simpl; try by destruct e.
  - rewrite add_participant_eq. repeat case_decide; by destruct e.
  - unfold Event.remove_participant. destruct (negb _); [done|].
    destruct (_ && _); by destruct e.
  - unfold Event.check_in_participant.
    repeat match goal with
           | |- context [if ?b then _ else _] => destruct b; [done|]
           end.
    by destruct e.
  - unfold Event.check_out_participant. destruct (negb _); by destruct e.
Qed.

Lemma on_event_ok (f : Event.t -> bool * Event.t) (id : string) (svc : t) :
  (forall e, Event.event_id (f e).2 = Event.event_id e
             /\ (event_ok e -> event_ok (f e).2)) ->
  registry_ok svc -> registry_ok (on_event f id svc).2.
Proof.
  intros Hf Hok. unfold on_event, get_event.
  destruct (_events svc !! id) as [e|] eqn:He; [|done].
  destruct (f e) as [success e'] eqn:Hfe. unfold registry_ok. simpl.
  intros k e1. destruct (decide (k = id)) as [->|Hne].
  - rewrite lookup_insert_eq. intros [= <-].
    destruct (Hok id e He) as (Hid & Hps & Hnd).
    destruct (Hf e) as [Hid' Hok']. rewrite Hfe in Hid', Hok'. simpl in *.
    destruct Hok' as [? ?]; [by split|]. split_and!; [congruence | done..].
  - rewrite lookup_insert_ne by done. apply Hok.
Qed.

Lemma entity_call_ok (c : entity_call) (e : Event.t) :
  Event.event_id (do_entity_call c e) = Event.event_id e
  /\ (event_ok e -> event_ok (do_entity_call c e)).
Proof.
  split; [apply do_entity_call_event_id|].
  intros Hok. by apply do_entity_call_ok.
Qed.

Lemma do_handler_call_ok (c : handler_call) (svc : t) :
  sound_handler_call c -> registry_ok svc ->
  registry_ok (do_handler_call c svc).
Proof.
  intros Hsound Hok.
  destruct c as [id now ty nm desc creator guild maxp date size|id|id u|id u
                |now id u|id u|id s t'|id|id st|m id|m|now days
                |id m|id thread|id ts n|id];
    cbn [do_handler_call].
  - unfold create_event, registry_ok. simpl. intros k e.
    destruct (decide (k = id)) as [->|Hne].
    + rewrite lookup_insert_eq. intros [= <-]. simpl in Hsound.
      destruct size; (split_and!; [done | split; simpl;
        [apply NoDup_nil_2 | exact Hsound] | apply NoDup_nil_2]).
    + rewrite lookup_insert_ne by done. apply Hok.
  - unfold delete_event. destruct (_events svc !! id) eqn:He; [|done].
    unfold registry_ok. simpl. intros k e1.
    destruct (decide (k = id)) as [->|Hne].
    + by rewrite lookup_delete_eq.
    + rewrite lookup_delete_ne by done. apply Hok.
  - apply on_event_ok; [|done]. intros e. apply (entity_call_ok (CallAdd u)).
  - apply on_event_ok; [|done]. intros e. apply (entity_call_ok (CallRemove u)).
  - apply on_event_ok; [|done]. intros e.
    apply (entity_call_ok (CallCheckIn now u)).
  - apply on_event_ok; [|done]. intros e.
    apply (entity_call_ok (CallCheckOut u)).
  - apply on_event_ok; [|done]. intros e.
    apply (entity_call_ok (CallEnableCheckIn s t')).
  - apply on_event_ok; [|done]. intros e.
    apply (entity_call_ok CallDisableCheckIn).
  - apply on_event_ok; [|done]. intros e. by destruct e.
  - done.
  - unfold get_event_by_message_id.
    destruct (match _message_to_event svc !! m with
              | Some _ => _ | None => _ end); [done|].
    by destruct (List.find _ _).
  - destruct (datetime.replace_day now (datetime.day now - days))
      as [cutoff|err] eqn:Hcut.
    + destruct (cleanup_old_events_mid_month now cutoff days svc Hcut)
        as (_ & _ & Hlookup).
      intros k e. rewrite Hlookup.
      destruct (_events svc !! k) as [e'|] eqn:He; [|done].
      destruct (datetime.ltb _ _); [done|]. intros [= <-]. by apply Hok.
    + unfold cleanup_old_events, cleanup_old_events_try. by rewrite Hcut.
  - apply on_event_ok; [|done]. intros e. by destruct e.
  - apply on_event_ok; [|done]. intros e. by destruct e.
  - apply on_event_ok; [|done]. intros e.
    apply (entity_call_ok (CallSetTeams ts n)).
  - apply on_event_ok; [|done]. intros e. apply (entity_call_ok CallClearTeams).
Qed.

Lemma do_handler_calls_ok (cs : list handler_call) (svc : t) :
  Forall sound_handler_call cs -> registry_ok svc ->
  registry_ok (do_handler_calls cs svc).
Proof.
  revert svc. induction cs as [|c cs IH]; intros svc Hcs Hok; [done|].
  apply Forall_cons in Hcs as [Hc Hcs]. simpl.
  apply IH; [done|]. by apply do_handler_call_ok.
Qed.

(** While the object of a scan is attached, the registry holds it under
    its key, whatever the handlers do. *)
Lemma run_handlers_attached (key : string) (cs : list handler_call)
    (st : ReminderService.task) :
  (ReminderService.attached st = true ->
   _events (ReminderService.registry st) !! key
   = Some (ReminderService.object st)) ->
  ReminderService.attached (ReminderService.run_handlers key cs st) = true ->
  _events (ReminderService.registry (ReminderService.run_handlers key cs st))
    !! key
  = Some (ReminderService.object (ReminderService.run_handlers key cs st)).
Proof.
  revert st. induction cs as [|c cs IH]; intros st Hst; [done|].
  simpl. apply IH. unfold ReminderService.handler_step.
  cbn [ReminderService.registry ReminderService.object ReminderService.attached].
  intros Hatt. rewrite Hatt.
  apply andb_true_iff in Hatt as [_ Hsome].
  apply bool_decide_eq_true in Hsome as [e' He']. by rewrite He'.
Qed.

Lemma visit_ok (now : datetime.t) (b : ReminderService.bot)
    (env : ReminderService.environment) (n : nat) (key : string)
    (e : Event.t) (svc : t) :
  _events svc !! key = Some e ->
  Forall sound_handler_call
    (ReminderService.during_fetch env n ++ ReminderService.during_reminder env n
     ++ ReminderService.during_prompt env n) ->
  registry_ok svc ->
  registry_ok (ReminderService.registry
                 (ReminderService.visit now b env n key e svc).1).
Proof.
  intros He Hsound Hok.
  destruct (visit_cases now b env n key e svc)
    as [[_ ->]|[_ (cs & Hsub & ->)]]; [done|].
  cbn [fst].
  set (st := ReminderService.run_handlers key cs
               (ReminderService.mk_task svc e true false)).
  assert (Hst : registry_ok (ReminderService.registry st)).
  { subst st. rewrite run_handlers_registry. cbn [ReminderService.registry].
    apply do_handler_calls_ok; [|done].
    apply Forall_forall. intros c Hc. rewrite Forall_forall in Hsound.
    apply Hsound. by eapply elem_of_sublist. }
  assert (Hatt : ReminderService.attached st = true ->
                 _events (ReminderService.registry st) !! key
                 = Some (ReminderService.object st)).
  { subst st. by apply run_handlers_attached. }
  clearbody st. unfold ReminderService.set_latch.
  cbn [ReminderService.registry].
  destruct (ReminderService.attached st); [|done].
  intros k e1. cbn [_events].
  destruct (decide (k = key)) as [->|Hne].
  - rewrite lookup_insert_eq. intros [= <-].
    destruct (Hst key _ (Hatt eq_refl)) as (Hid & Hps & Hnd).
    by destruct (ReminderService.object st).
  - rewrite lookup_insert_ne by done. apply Hst.
Qed.

Lemma iterate_ok (now : datetime.t) (b : ReminderService.bot)
    (env : ReminderService.environment) (size0 n : nat) (changed : bool)
    (pending : list string) (svc : t) :
  (forall n,
     Forall sound_handler_call
       (ReminderService.during_fetch env n
        ++ ReminderService.during_reminder env n
        ++ ReminderService.during_prompt env n)) ->
  registry_ok svc ->
  registry_ok (ReminderService.scan_registry
                 (ReminderService.iterate now b env size0 n changed pending svc)).
Proof.
  intros Hsound. revert changed pending svc.
  induction n as [|n IH]; intros changed pending svc Hok;
    rewrite iterate_unfold; cbn zeta.
  - destruct (negb _); [done|].
    by destruct (if changed then _ else _).
  - destruct (negb _); [done|].
    destruct (if changed then _ else _) as [| |key]; [done..|].
    destruct (_events svc !! key) as [e|] eqn:He; [|done].
    cbn [ReminderService.scan_registry]. apply IH. by apply visit_ok.
Qed.

Lemma do_service_call_ok (c : service_call) (svc : t) :
  sound_call c -> registry_ok svc -> registry_ok (do_service_call c svc).
Proof.
  intros Hsound Hok. destruct c as [c|now b env order]; cbn [do_service_call].
  - by apply do_handler_call_ok.
  - by apply iterate_ok.
Qed.

(** X16. Starting from the empty registry, after each call of any
    sequence of calls on the registry (creations with a capacity that
    is not negative, deletions, joins and leaves, check-ins and
    check-outs, check-in switches, status updates, message links and
    lookups, clean-ups, writes of the message handle, the thread handle
    and the teams of an event, and scans of the reminder scheduler,
    whichever of these calls the handlers make while a scan is
    suspended and whether or not the scan ends by an exception), every
    event is stored under its own identifier, holds no user twice in
    its participant sequence nor in its checked-in sequence, and has no
    more participants than its capacity. *)
Theorem registry_invariant (cs : list service_call) :
  Forall sound_call cs ->
  Forall registry_ok (run_service_calls cs init).
Proof.
  assert (Hgen : forall cs svc, Forall sound_call cs -> registry_ok svc ->
                                Forall registry_ok (run_service_calls cs svc)).
  { clear cs. intros cs. induction cs as [|c cs IH]; intros svc Hsound Hok;
      simpl; constructor.
    - apply do_service_call_ok; [|done]. by apply Forall_cons in Hsound as [? _].
    - apply Forall_cons in Hsound as [Hc Hcs].
      apply IH; [done|]. by apply do_service_call_ok. }
  intros Hsound. apply Hgen; [done|]. intros k e. unfold init. simpl.
  by rewrite lookup_empty.
Qed.

Lemma registry_invariant_witness :
  Forall registry_ok
    (run_service_calls
       [Handler (SvcCreate "a1b2c3d4" noon GENERAL "Raid" "Weekly raid" 11 22 2
                   (Some (datetime.mk 2024 3 5 12 1 30 0)) None);
        Handler (SvcAdd "a1b2c3d4" 7); Handler (SvcAdd "a1b2c3d4" 7);
        Handler (SvcAdd "a1b2c3d4" 8); Handler (SvcAdd "a1b2c3d4" 9);
        Handler (SvcSetThread "a1b2c3d4" 555);
        SvcScan noon obliging_bot busy ["a1b2c3d4"];
        Handler (SvcRemove "a1b2c3d4" 7); Handler (SvcCleanup noon 7);
        Handler (SvcDelete "a1b2c3d4")]
       init).
Proof.
  apply registry_invariant.
  repeat (apply Forall_cons; split;
          [first [exact I | (simpl; lia)
                 | (intros n; unfold busy, bingo_created; simpl;
                    apply Forall_cons; split;
                    [simpl; lia | apply Forall_nil_2])]|]).
  apply Forall_nil_2.
Defined.

(** *** Statistics *)

Lemma count_by_type (l : list Event.t) :
  (length (List.filter (fun e => bool_decide (Event.event_type e = BINGO)) l)
   + length (List.filter
               (fun e => bool_decide (Event.event_type e = PVP_TOURNAMENT)) l)
   + length (List.filter (fun e => bool_decide (Event.event_type e = GENERAL)) l)
   = length l)%nat.
Proof.
  induction l as [|e l IH]; simpl; [done|].
  destruct (Event.event_type e); simpl; lia.
Qed.

Lemma count_by_status (l : list Event.t) :
  (length (List.filter (fun e => bool_decide (Event.status e = OPEN)) l)
   + length (List.filter (fun e => bool_decide (Event.status e = FULL)) l)
   + length (List.filter (fun e => bool_decide (Event.status e = IN_PROGRESS)) l)
   + length (List.filter (fun e => bool_decide (Event.status e = COMPLETED)) l)
   + length (List.filter (fun e => bool_decide (Event.status e = CANCELLED)) l)
   = length l)%nat.
Proof.
  induction l as [|e l IH]; simpl; [done|].
  destruct (Event.status e); simpl; lia.
Qed.

(** X17. In the statistics of a guild that has events, the entry of
    each event type under ['by_type'] is the number of events that
    [get_events_by_type] lists, the entry of each status under
    ['by_status'] is the number that [get_events_by_status] lists, and
    the entries of either dictionary add up to ['total_events'], the
    number of events of the guild.  For a guild without events both
    dictionaries are empty and the totals are 0. *)
Theorem statistics_counts (g : Z) (svc : t) :
  let st := get_event_statistics g svc in
  let events := get_events_by_guild g svc in
  total_events st = Z.of_nat (length events)
  /\ (events = [] ->
      by_type st = ∅ /\ by_status st = ∅ /\ total_participants st = 0)
  /\ (events <> [] ->
      (forall ty, by_type st !! EventType_value ty
                  = Some (Z.of_nat (length (get_events_by_type g ty svc))))
      /\ (forall s, by_status st !! EventStatus_value s
                    = Some (Z.of_nat (length (get_events_by_status g s svc))))
      /\ fold_left Z.add
           (map (fun ty => default 0 (by_type st !! EventType_value ty))
              all_event_types) 0
         = total_events st
      /\ fold_left Z.add
           (map (fun s => default 0 (by_status st !! EventStatus_value s))
              all_event_statuses) 0
         = total_events st).
Proof.
  intros st events. subst st. unfold get_event_statistics.
  fold events. case_bool_decide as Hempty.
  - rewrite Hempty. by split_and!.
  - cbn [total_events by_type by_status].
    assert (Hty : forall ty,
      fold_left
        (fun stats event_type =>
           <[EventType_value event_type :=
               Z.of_nat (length (List.filter
                 (fun e => bool_decide (Event.event_type e = event_type))
                 events))]> stats)
        all_event_types (∅ : gmap string Z) !! EventType_value ty
      = Some (Z.of_nat (length (get_events_by_type g ty svc)))).
    { intros ty. unfold get_events_by_type. fold events. by destruct ty. }
    assert (Hst : forall s,
      fold_left
        (fun stats status =>
           <[EventStatus_value status :=
               Z.of_nat (length (List.filter
                 (fun e => bool_decide (Event.status e = status))
                 events))]> stats)
        all_event_statuses (∅ : gmap string Z) !! EventStatus_value s
      = Some (Z.of_nat (length (get_events_by_status g s svc)))).
    { intros s. unfold get_events_by_status. fold events. by destruct s. }
    split_and!; [done | done |]. intros _. split_and!; [done | done | |].
    + unfold all_event_types at 2. cbn [map fold_left]. rewrite !Hty.
      unfold get_events_by_type. fold events.
      unfold default, from_option, id. cbn beta iota.
      pose proof (count_by_type events). lia.
    + unfold all_event_statuses at 2. cbn [map fold_left]. rewrite !Hst.
      unfold get_events_by_status. fold events.
      unfold default, from_option, id. cbn beta iota.
      pose proof (count_by_status events). lia.
Qed.

Lemma statistics_counts_witness :
  by_type (get_event_statistics 22 posted_registry) !! "Bingo" = Some 0
  /\ total_events (get_event_statistics 22 posted_registry) = 1
  /\ by_type (get_event_statistics 33 posted_registry) = ∅.
Proof.
  destruct (statistics_counts 22 posted_registry) as (Htotal & _ & Hsome).
  destruct (statistics_counts 33 posted_registry) as (_ & Hnone & _).
  destruct Hsome as (Hty & _); [vm_compute; discriminate|].
  split_and!.
  - etrans; [exact (Hty BINGO) | vm_compute; reflexivity].
  - etrans; [exact Htotal | vm_compute; reflexivity].
  - apply Hnone. vm_compute. reflexivity.
Defined.

End registry_more.

(** * Further properties of the team service *)

Section teams_more.
Import TeamService.

(** What [randomize_teams] returns on arguments that pass its checks. *)
Lemma randomize_teams_ok (rng : nat -> nat) (ids : list Z) (ts : Z) :
  ids <> [] -> ts ∈ [1; 2; 3; 4; 6] -> ts <= Z.of_nat (length ids) ->
  randomize_teams rng ids ts
  = Ok (map (chunk (shuffle rng ids) (Z.to_nat ts))
          (seq 0 (length ids / Z.to_nat ts))).
Proof.
  intros Hne Hvalid Hle.
  pose proof (valid_team_size_range ts Hvalid) as Hrange.
  destruct (randomize_teams_cases rng ids ts)
    as [[Hinv _]|[_ ->]]; [destruct Hinv as [?|[?|?]]; done || lia|].
  rewrite make_teams_eq by lia.
  by rewrite (Permutation_length (shuffle_Permutation rng ids)).
Qed.

Lemma chunks_facts (l : list Z) (n : nat) :
  (0 < n)%nat ->
  let teams := map (chunk l n) (seq 0 (length l / n)) in
  length teams = (length l / n)%nat
  /\ Forall (fun team => length team = n) teams
  /\ concat teams = take (length l / n * n) l
  /\ concat teams `sublist_of` l.
Proof.
  intros Hn teams. subst teams. split_and!.
  - by rewrite length_map, length_seq.
  - apply Forall_map, Forall_forall. intros k Hk%elem_of_seq. simpl.
    apply chunk_length_complete; [done | lia].
  - apply concat_chunks.
  - rewrite concat_chunks. apply sublist_take.
Qed.

Lemma fold_append_chunks (l : list Z) (n m : nat) :
  fold_left (fun teams i => teams ++ [slice (i * n) (i * n + n) l])
    (seq 0 m) []
  = map (chunk l n) (seq 0 m).
Proof.
  induction m as [|m IH]; [done|].
  rewrite seq_S, fold_left_app, map_app, IH.
  change (0 + m)%nat with m. cbn [fold_left map].
  unfold slice, chunk. do 3 f_equal. lia.
Qed.

Lemma concat_alter_Permutation (teams : list (list Z)) (k : nat) (p : Z) :
  (k < length teams)%nat ->
  concat (alter (fun team => team ++ [p]) k teams) ≡ₚ p :: concat teams.
Proof.
  revert k. induction teams as [|team rest IH]; intros [|k] Hk;
    simpl in *; try lia.
  - rewrite <- (assoc_L (++)). simpl.
    rewrite <- Permutation_middle. done.
  - pose proof (IH k ltac:(lia)) as IHk. unfold alter in IHk.
    rewrite IHk. by rewrite <- Permutation_middle.
Qed.

Lemma distribute_facts (n : nat) (i : nat) (remaining : list Z)
    (teams : list (list Z)) :
  teams <> [] ->
  Forall (fun team => (n <= length team)%nat) teams ->
  concat (distribute i remaining teams) ≡ₚ concat teams ++ remaining
  /\ length (distribute i remaining teams) = length teams
  /\ Forall (fun team => (n <= length team)%nat) (distribute i remaining teams).
Proof.
  revert i teams. induction remaining as [|p rest IH]; intros i teams Hne Hall;
    simpl.
  - by rewrite app_nil_r.
  - rewrite bool_decide_eq_false_2 by done.
    assert (Hlen : (0 < length teams)%nat) by (destruct teams; simpl; [done | lia]).
    assert (Hk : (i mod length teams < length teams)%nat)
      by (apply Nat.mod_upper_bound; lia).
    destruct (IH (S i) (alter (fun team => team ++ [p]) (i mod length teams)%nat
                          teams)) as (Hperm & Hcount & Hsizes).
    { intros Hnil. apply (f_equal length) in Hnil.
      rewrite length_alter in Hnil. simpl in Hnil. lia. }
    { apply Forall_alter; [done|]. intros team _ Hteam.
      rewrite length_app. lia. }
    split_and!; [|by rewrite Hcount, length_alter | done].
    rewrite Hperm, concat_alter_Permutation by done.
    by rewrite <- Permutation_middle.
Qed.

(** X18. With incomplete teams allowed, [create_balanced_teams] on a
    non-empty participant list and a supported size never raises and
    assigns every participant exactly once: the teams together are a
    permutation of the input, none is empty and none has more than
    [team_size] members. *)
Theorem create_balanced_teams_incomplete (rng : nat -> nat) (ids : list Z)
    (ts : Z) :
  ids <> [] -> ts ∈ [1; 2; 3; 4; 6] ->
  exists teams,
    create_balanced_teams rng ids ts true = Ok teams
    /\ concat teams ≡ₚ ids
    /\ Forall (fun team => 1 <= Z.of_nat (length team) <= ts) teams.
Proof.
  intros Hne Hvalid.
  pose proof (valid_team_size_range ts Hvalid) as Hrange.
  unfold create_balanced_teams.
  rewrite bool_decide_eq_false_2 by done.
  rewrite (proj2 (py_in_true ts _) Hvalid). cbn [negb].
  set (l := shuffle rng ids). set (n := Z.to_nat ts).
  assert (Hn : (0 < n)%nat) by (subst n; lia).
  rewrite fold_append_chunks.
  destruct (chunks_facts l n Hn) as (Hcount & Hsizes & Hcat & _).
  assert (Hperm : l ≡ₚ ids) by apply shuffle_Permutation.
  assert (Hcomplete : Forall (fun team => 1 <= Z.of_nat (length team) <= ts)
                        (map (chunk l n) (seq 0 (length l / n)))).
  { eapply Forall_impl; [exact Hsizes|]. simpl. intros team ->. subst n. lia. }
  case_bool_decide as Hrem; cbn [negb andb].
  - eexists. split; [reflexivity|]. split; [|done].
    pose proof (take_drop (length l / n * n) l) as Htd.
    rewrite Hrem, app_nil_r in Htd. by rewrite Hcat, Htd.
  - eexists. split; [reflexivity|]. split.
    + rewrite concat_app, Hcat. simpl. rewrite app_nil_r, take_drop. done.
    + apply Forall_app. split; [done|]. constructor; [|done].
      rewrite length_drop.
      pose proof (Nat.div_mod_eq (length l) n).
      pose proof (Nat.mod_upper_bound (length l) n ltac:(lia)).
      destruct (drop (length l / n * n) l) eqn:Hd; [done|].
      apply (f_equal length) in Hd. rewrite length_drop in Hd. simpl in Hd.
      subst n. nia.
Qed.

Lemma create_balanced_teams_incomplete_witness :
  exists teams,
    create_balanced_teams (fun _ => 0%nat) [1; 2; 3; 4; 5] 2 true = Ok teams
    /\ concat teams ≡ₚ [1; 2; 3; 4; 5].
Proof.
  destruct (create_balanced_teams_incomplete (fun _ => 0%nat) [1; 2; 3; 4; 5] 2)
    as (teams & Hok & Hperm & _).
  - discriminate.
  - apply list_elem_of_further, list_elem_of_here.
  - exists teams. split; [exact Hok | exact Hperm].
Defined.

(** X19. Without incomplete teams, [create_balanced_teams] on a
    non-empty participant list and a supported size never raises.
    With at least [team_size] participants it makes [len / team_size]
    teams of at least [team_size] members that together are a
    permutation of the input: the participants left over join existing
    teams.  With fewer participants than [team_size] it returns no team
    at all: nobody is assigned and no error is raised. *)
Theorem create_balanced_teams_complete (rng : nat -> nat) (ids : list Z)
    (ts : Z) :
  ids <> [] -> ts ∈ [1; 2; 3; 4; 6] ->
  exists teams,
    create_balanced_teams rng ids ts false = Ok teams
    /\ (ts <= Z.of_nat (length ids) ->
        concat teams ≡ₚ ids
        /\ length teams = (length ids / Z.to_nat ts)%nat
        /\ Forall (fun team => ts <= Z.of_nat (length team)) teams)
    /\ (Z.of_nat (length ids) < ts -> teams = []).
Proof.
  intros Hne Hvalid.
  pose proof (valid_team_size_range ts Hvalid) as Hrange.
  unfold create_balanced_teams.
  rewrite bool_decide_eq_false_2 by done.
  rewrite (proj2 (py_in_true ts _) Hvalid). cbn [negb].
  set (l := shuffle rng ids). set (n := Z.to_nat ts).
  assert (Hn : (0 < n)%nat) by (subst n; lia).
  rewrite fold_append_chunks.
  destruct (chunks_facts l n Hn) as (Hcount & Hsizes & Hcat & _).
  assert (Hperm : l ≡ₚ ids) by apply shuffle_Permutation.
  pose proof (Permutation_length Hperm) as Hlen.
  set (teams := map (chunk l n) (seq 0 (length l / n))) in *.
  assert (Hsmall : Z.of_nat (length ids) < ts -> teams = []).
  { intros Hlt. apply length_zero_iff_nil. rewrite Hcount, Hlen.
    apply Nat.div_small. subst n. lia. }
  assert (Hbig : ts <= Z.of_nat (length ids) -> teams <> []).
  { intros Hle Hnil. apply (f_equal length) in Hnil.
    rewrite Hcount, Hlen in Hnil. simpl in Hnil.
    apply Nat.div_small_iff in Hnil; [|lia]. subst n. lia. }
  assert (Hsizes' : Forall (fun team => (n <= length team)%nat) teams).
  { eapply Forall_impl; [exact Hsizes|]. simpl. intros team ->. done. }
  cbn [andb negb]. rewrite andb_true_r.
  case_bool_decide as Hrem; cbn [negb].
  - exists teams. split; [done|]. split; [|done]. intros Hle. split_and!.
    + pose proof (take_drop (length l / n * n) l) as Htd.
      rewrite Hrem, app_nil_r in Htd. by rewrite Hcat, Htd.
    + by rewrite Hcount, Hlen.
    + eapply Forall_impl; [exact Hsizes'|]. simpl. intros team ?. subst n. lia.
  - eexists. split; [reflexivity|]. split.
    + intros Hle.
      destruct (distribute_facts n 0 (drop (length l / n * n) l) teams)
        as (Hperm' & Hcount' & Hsz); [by apply Hbig | done |].
      split_and!.
      * by rewrite Hperm', Hcat, take_drop.
      * by rewrite Hcount', Hcount, Hlen.
      * eapply Forall_impl; [exact Hsz|]. simpl. intros team ?. subst n. lia.
    + intros Hlt. rewrite (Hsmall Hlt).
      generalize (drop (length l / n * n) l) 0%nat.
      intros rem. induction rem as [|p rem IH]; intros i; simpl; [done|].
      apply IH.
Qed.

Lemma create_balanced_teams_complete_witness :
  (exists teams,
     create_balanced_teams (fun _ => 0%nat) [1; 2; 3; 4; 5] 2 false = Ok teams
     /\ concat teams ≡ₚ [1; 2; 3; 4; 5])
  /\ create_balanced_teams (fun _ => 0%nat) [1; 2] 3 false = Ok [].
Proof.
  split.
  - destruct (create_balanced_teams_complete (fun _ => 0%nat) [1; 2; 3; 4; 5] 2)
      as (teams & Hok & Hbig & _).
    + discriminate.
    + apply list_elem_of_further, list_elem_of_here.
    + exists teams. split; [exact Hok|]. apply Hbig. vm_compute. discriminate.
  - destruct (create_balanced_teams_complete (fun _ => 0%nat) [1; 2] 3)
      as (teams & Hok & _ & Hsmall).
    + discriminate.
    + do 2 apply list_elem_of_further. apply list_elem_of_here.
    + rewrite Hok. f_equal. apply Hsmall. vm_compute. reflexivity.
Defined.

(** X20. [redistribute_teams] raises exactly when there is no current
    team, or the new size is not one of 1, 2, 3, 4, 6, or the current
    teams hold nobody, or the new size is above 1 and the current teams
    hold fewer members than the new size.  Otherwise it returns
    [members / new_size] teams of exactly the new size, made of members
    of the current teams, none used more often than the current teams
    hold it. *)
Theorem redistribute_teams_spec (rng : nat -> nat) (current : list (list Z))
    (ts : Z) :
  let invalid :=
    current = [] \/ (ts ∉ [1; 2; 3; 4; 6]) \/ concat current = []
    \/ (1 < ts /\ Z.of_nat (length (concat current)) < ts) in
  (invalid -> exists msg, redistribute_teams rng current ts
                          = Raise (ValueError msg))
  /\ (~ invalid ->
      exists teams,
        redistribute_teams rng current ts = Ok teams
        /\ length teams = (length (concat current) / Z.to_nat ts)%nat
        /\ Forall (fun team => Z.of_nat (length team) = ts) teams
        /\ concat teams ⊆+ concat current).
Proof.
  intros invalid. subst invalid. unfold redistribute_teams.
  case_bool_decide as Hnil; [split; [by eexists | tauto]|].
  destruct (py_in ts [1; 2; 3; 4; 6]) eqn:Hvalid; cbn [negb];
    [apply py_in_true in Hvalid
    |apply py_in_false in Hvalid; split; [by eexists | tauto]].
  destruct (randomize_teams_cases rng (concat current) ts)
    as [[Hinv [msg Hraise]]|[Hok _]].
  - split; [by exists msg|]. intros Hno. exfalso. apply Hno. tauto.
  - split; [intros [?|[?|[?|?]]]; exfalso; tauto|]. intros _.
    pose proof (valid_team_size_range ts Hvalid) as Hrange.
    assert (Hne : concat current <> []) by tauto.
    assert (Hle : ts <= Z.of_nat (length (concat current))).
    { destruct (Z_lt_le_dec (Z.of_nat (length (concat current))) ts); [|done].
      destruct (decide (ts = 1)) as [->|]; [|exfalso; apply Hok; right; right; lia].
      destruct (concat current); [done | simpl; lia]. }
    rewrite randomize_teams_ok by done.
    set (l := shuffle rng (concat current)).
    assert (Hperm : l ≡ₚ concat current) by apply shuffle_Permutation.
    rewrite <- (Permutation_length Hperm).
    destruct (chunks_facts l (Z.to_nat ts)) as (Hcount & Hsizes & _ & Hsub);
      [lia|].
    eexists. split; [reflexivity|]. split_and!; [done | |].
    + eapply Forall_impl; [exact Hsizes|]. simpl. intros team ->. lia.
    + rewrite <- Hperm. by apply sublist_submseteq.
Qed.

Lemma redistribute_teams_spec_witness :
  (exists msg, redistribute_teams (fun _ => 0%nat) [[]; []] 2
               = Raise (ValueError msg))
  /\ exists teams, redistribute_teams (fun _ => 0%nat) [[1; 2; 3]; [4; 5; 6]] 2
                   = Ok teams /\ length teams = 3%nat.
Proof.
  split.
  - apply (redistribute_teams_spec (fun _ => 0%nat) [[]; []] 2).
    right. right. left. reflexivity.
  - destruct (redistribute_teams_spec (fun _ => 0%nat) [[1; 2; 3]; [4; 5; 6]] 2)
      as [_ Hok].
    destruct Hok as (teams & Hteams & Hcount & _).
    + intros [Hc|[Hs|[Hn|[_ Hlt]]]].
      * discriminate Hc.
      * apply Hs. apply list_elem_of_further, list_elem_of_here.
      * discriminate Hn.
      * vm_compute in Hlt. discriminate Hlt.
    + exists teams. split; [exact Hteams | exact Hcount].
Defined.

(** *** Validation *)

Lemma check_team_facts (expected : Z) (i : nat) (team : list Z)
    (v : validation) (all : list Z) :
  let r := check_team expected i team (v, all) in
  r.2 = all ++ team
  /\ (is_valid r.1 = true <-> is_valid v = true /\ team <> [])
  /\ total_teams r.1 = total_teams v
  /\ duplicate_participants r.1 = duplicate_participants v
  /\ complete_teams r.1 + incomplete_teams r.1
     = complete_teams v + incomplete_teams v + 1
  /\ (Z.of_nat (length team) = expected ->
      complete_teams r.1 = complete_teams v + 1)
  /\ (exists extra,
        issues r.1 = issues v ++ extra
        /\ (extra = [] <-> Z.of_nat (length team) = expected /\ team <> [])).
Proof.
  unfold check_team. cbn zeta.
  assert (Hnil : Z.of_nat (length team) = 0 <-> team = []).
  { destruct team; simpl; split; try done; lia. }
  destruct (Z.eqb_spec (Z.of_nat (length team)) expected) as [Hexp|Hexp];
    destruct (Z.eqb_spec (Z.of_nat (length team)) 0) as [Hz|Hz];
    cbn [fst snd is_valid total_teams duplicate_participants complete_teams
         incomplete_teams issues].
  - split_and!; try done; try lia.
    + split; [done | intros [_ Hne]; exfalso; by apply Hne, Hnil].
    + eexists. split; [reflexivity|].
      split; [done | intros [_ Hne]; exfalso; by apply Hne, Hnil].
  - split_and!; try done; try lia.
    + split; [intros ?; split; [done | by rewrite <- Hnil] | tauto].
    + exists []. rewrite app_nil_r. split; [done|].
      split; [intros _; split; [done | by rewrite <- Hnil] | done].
  - split_and!; try done; try lia.
    + split; [done | intros [_ Hne]; exfalso; by apply Hne, Hnil].
    + eexists. split; [by rewrite <- (assoc_L (++))|].
      split; [done | intros [? _]; done].
  - split_and!; try done; try lia.
    + split; [intros ?; split; [done | by rewrite <- Hnil] | tauto].
    + eexists. split; [reflexivity|]. split; [done | intros [? _]; done].
Qed.

Lemma check_teams_facts (expected : Z) (i : nat) (teams : list (list Z))
    (v : validation) (all : list Z) :
  let r := check_teams expected i teams (v, all) in
  r.2 = all ++ concat teams
  /\ (is_valid r.1 = true
      <-> is_valid v = true /\ Forall (fun team => team <> []) teams)
  /\ total_teams r.1 = total_teams v
  /\ duplicate_participants r.1 = duplicate_participants v
  /\ complete_teams r.1 + incomplete_teams r.1
     = complete_teams v + incomplete_teams v + Z.of_nat (length teams)
  /\ (Forall (fun team => Z.of_nat (length team) = expected) teams ->
      complete_teams r.1 = complete_teams v + Z.of_nat (length teams))
  /\ (exists extra,
        issues r.1 = issues v ++ extra
        /\ (extra = []
            <-> Forall (fun team => Z.of_nat (length team) = expected
                                    /\ team <> []) teams)).
Proof.
  revert i v all. induction teams as [|team rest IH]; intros i v all r; subst r.
  - simpl. rewrite app_nil_r. split_and!; try done; try lia.
    + split; [by split | tauto].
    + exists []. by rewrite app_nil_r.
  - cbn [check_teams].
    pose proof (check_team_facts expected i team v all) as Hstep.
    destruct (check_team expected i team (v, all)) as [v1 all1].
    cbn [fst snd] in Hstep.
    destruct Hstep as (Hall1 & Hvalid1 & Htotal1 & Hdup1 & Hsum1 & Hcomplete1
                       & extra1 & Hissues1 & Hextra1).
    destruct (IH (S i) v1 all1)
      as (Hall & Hvalid & Htotal & Hdup & Hsum & Hcomplete
          & extra & Hissues & Hextra).
    split_and!.
    + rewrite Hall, Hall1. cbn [concat]. by rewrite <- (assoc_L (++)).
    + rewrite Hvalid, Hvalid1, Forall_cons. tauto.
    + by rewrite Htotal.
    + by rewrite Hdup.
    + rewrite Hsum, Hsum1. cbn [length]. lia.
    + intros Hforall. apply Forall_cons in Hforall as [Hhd Htl].
      rewrite (Hcomplete Htl), (Hcomplete1 Hhd). cbn [length]. lia.
    + exists (extra1 ++ extra). split.
      * by rewrite Hissues, Hissues1, <- (assoc_L (++)).
      * rewrite Forall_cons, <- Hextra, <- Hextra1.
        split; [by intros [-> ->]%app_eq_nil | by intros [-> ->]].
Qed.

Lemma check_duplicates_facts (l : list Z) (v : validation) (seen : gset Z) :
  let r := fold_left check_duplicate l (v, seen) in
  (is_valid r.1 = true
   <-> is_valid v = true /\ NoDup l /\ (forall x, x ∈ l -> x ∉ seen))
  /\ total_teams r.1 = total_teams v
  /\ complete_teams r.1 = complete_teams v
  /\ incomplete_teams r.1 = incomplete_teams v
  /\ (exists extra dup,
        issues r.1 = issues v ++ extra
        /\ duplicate_participants r.1 = duplicate_participants v ++ dup
        /\ (extra = [] <-> NoDup l /\ (forall x, x ∈ l -> x ∉ seen))
        /\ (dup = [] <-> NoDup l /\ (forall x, x ∈ l -> x ∉ seen))
        /\ (forall x, x ∈ dup -> x ∈ l)).
Proof.
  revert v seen. induction l as [|p l IH]; intros v seen r; subst r.
  - assert (Hempty : NoDup (@nil Z) /\ (forall x : Z, x ∈ @nil Z -> x ∉ seen)).
    { split; [constructor | by intros ? ?%elem_of_nil]. }
    cbn [fold_left fst snd]. split_and!; [tauto | done..|].
    exists [], []. rewrite !app_nil_r.
    split_and!; [done | done | tauto | tauto | by intros ? ?%elem_of_nil].
  - cbn [fold_left].
    assert (Hstep : check_duplicate (v, seen) p
                    = (if bool_decide (p ∈ seen) then
                         mk_validation false
                           (issues v ++ ["Participant " +:+ pretty p
                                         +:+ " is assigned to multiple teams"])
                           (total_teams v) (total_participants v)
                           (complete_teams v) (incomplete_teams v)
                           (duplicate_participants v ++ [p])
                       else v, {[p]} ∪ seen)) by reflexivity.
    rewrite Hstep. clear Hstep.
    assert (Hsplit : NoDup (p :: l) /\ (forall x, x ∈ p :: l -> x ∉ seen)
                     <-> (p ∉ seen)
                         /\ NoDup l
                         /\ (forall x, x ∈ l -> x ∉ ({[p]} ∪ seen : gset Z))).
    { rewrite NoDup_cons. split.
      - intros [[Hp Hnd] Hseen]. split_and!; [apply Hseen, list_elem_of_here | done|].
        intros x Hx. rewrite not_elem_of_union, not_elem_of_singleton. split.
        + intros ->. done.
        + apply Hseen. by apply list_elem_of_further.
      - intros (Hp & Hnd & Hseen). split; [split; [|done]|].
        + intros Hin. apply Hseen in Hin.
          apply Hin, elem_of_union. left. by apply elem_of_singleton.
        + intros x [->|Hx]%elem_of_cons; [done|]. apply Hseen in Hx.
          intros Hs. apply Hx, elem_of_union. by right. }
    case_bool_decide as Hp.
    + match goal with |- context [fold_left _ l (?v', ?s')] =>
        destruct (IH v' s')
          as (Hvalid & Htotal & Hcomplete & Hincomplete
              & extra & dup & Hissues & Hdup & _ & _ & Hmem) end.
      cbn [is_valid total_teams complete_teams incomplete_teams issues
           duplicate_participants] in *.
      split_and!; [|done..|].
      * rewrite Hvalid, Hsplit. split; [intros [? _]; done | tauto].
      * eexists _, _.
        split_and!; [by rewrite Hissues, <- (assoc_L (++))
                    | by rewrite Hdup, <- (assoc_L (++)) | | |].
        -- rewrite Hsplit. split; [intros [=] | tauto].
        -- rewrite Hsplit. split; [intros [=] | tauto].
        -- intros x [->|Hx]%elem_of_cons;
             [apply list_elem_of_here | by apply list_elem_of_further, Hmem].
    + destruct (IH v ({[p]} ∪ seen))
        as (Hvalid & Htotal & Hcomplete & Hincomplete
            & extra & dup & Hissues & Hdup & Hextra & Hdupnil & Hmem).
      split_and!; [|done..|].
      * rewrite Hvalid, Hsplit. tauto.
      * exists extra, dup. split_and!; [done | done | | |].
        -- rewrite Hextra, Hsplit. tauto.
        -- rewrite Hdupnil, Hsplit. tauto.
        -- intros x Hx. by apply list_elem_of_further, Hmem.
Qed.

Lemma validate_teams_nonempty (teams : list (list Z)) (expected : Z) :
  teams <> [] ->
  let v := validate_teams teams expected in
  (is_valid v = true
   <-> Forall (fun team => team <> []) teams /\ NoDup (concat teams))
  /\ total_teams v = Z.of_nat (length teams)
  /\ total_participants v = Z.of_nat (length (concat teams))
  /\ complete_teams v + incomplete_teams v = Z.of_nat (length teams)
  /\ (Forall (fun team => Z.of_nat (length team) = expected) teams ->
      complete_teams v = Z.of_nat (length teams))
  /\ (issues v = []
      <-> Forall (fun team => Z.of_nat (length team) = expected) teams
          /\ Forall (fun team => team <> []) teams
          /\ NoDup (concat teams))
  /\ (duplicate_participants v = [] <-> NoDup (concat teams))
  /\ (forall x, x ∈ duplicate_participants v -> x ∈ concat teams).
Proof.
  intros Hne v. subst v. unfold validate_teams.
  rewrite bool_decide_eq_false_2 by done.
  set (v0 := mk_validation true [] (Z.of_nat (length teams)) 0 0 0 []).
  pose proof (check_teams_facts expected 0 teams v0 []) as H1.
  destruct (check_teams expected 0 teams (v0, [])) as [v1 all1].
  cbn [fst snd] in H1.
  destruct H1 as (Hall & Hvalid1 & Htotal1 & Hdup1 & Hsum1 & Hcomplete1
                  & extra1 & Hissues1 & Hextra1).
  rewrite app_nil_l in Hall. subst all1.
  pose proof (check_duplicates_facts (concat teams) v1 ∅) as H2.
  destruct (fold_left check_duplicate (concat teams) (v1, ∅)) as [v2 seen2].
  cbn [fst snd] in H2.
  destruct H2 as (Hvalid2 & Htotal2 & Hcomplete2 & Hincomplete2
                  & extra2 & dup2 & Hissues2 & Hdup2 & Hextra2 & Hdupnil & Hmem).
  assert (Hseen : forall x : Z, x ∈ concat teams -> x ∉ (∅ : gset Z)).
  { intros x _. apply not_elem_of_empty. }
  cbn [is_valid issues total_teams total_participants complete_teams
       incomplete_teams duplicate_participants].
  subst v0. cbn [is_valid issues total_teams complete_teams incomplete_teams
                 duplicate_participants] in *.
  split_and!.
  - rewrite Hvalid2, Hvalid1. tauto.
  - by rewrite Htotal2, Htotal1.
  - done.
  - rewrite Hcomplete2, Hincomplete2, Hsum1. lia.
  - intros Hsizes. rewrite Hcomplete2, (Hcomplete1 Hsizes). lia.
  - rewrite Hissues2, Hissues1, app_nil_l. split.
    + intros [H1 H2]%app_eq_nil. apply Hextra1 in H1. apply Hextra2 in H2.
      split_and!; [| |tauto];
        (eapply Forall_impl; [exact H1|]; simpl; tauto).
    + intros (Hsz & Hnonempty & Hnd).
      assert (extra1 = []) as ->.
      { apply Hextra1, Forall_forall. intros team Hteam.
        rewrite Forall_forall in Hsz, Hnonempty. split; auto. }
      assert (extra2 = []) as -> by (apply Hextra2; tauto). done.
  - rewrite Hdup2, Hdup1, app_nil_l, Hdupnil. tauto.
  - intros x. rewrite Hdup2, Hdup1, app_nil_l. apply Hmem.
Qed.

(** X21. [validate_teams] reports a team list as valid exactly when
    there is at least one team, no team is empty and no participant
    occurs twice in the teams; whether the teams have the expected size
    plays no part in it.  It reports no issue exactly when, moreover,
    every team has the expected size.  The complete and incomplete
    teams it counts add up to the number of teams, the participants it
    counts are all the members, and the duplicates it lists are members
    (none is listed exactly when no participant occurs twice).  An
    empty team list is invalid with the single issue "No teams
    provided". *)
Theorem validate_teams_spec (teams : list (list Z)) (expected : Z) :
  let v := validate_teams teams expected in
  (is_valid v = true
   <-> teams <> [] /\ Forall (fun team => team <> []) teams
       /\ NoDup (concat teams))
  /\ total_teams v = Z.of_nat (length teams)
  /\ (teams = [] -> issues v = ["No teams provided"])
  /\ (teams <> [] ->
      total_participants v = Z.of_nat (length (concat teams))
      /\ complete_teams v + incomplete_teams v = Z.of_nat (length teams)
      /\ (issues v = []
          <-> Forall (fun team => Z.of_nat (length team) = expected) teams
              /\ is_valid v = true)
      /\ (duplicate_participants v = [] <-> NoDup (concat teams))
      /\ (forall x, x ∈ duplicate_participants v -> x ∈ concat teams)).
Proof.
  intros v. subst v.
  destruct (decide (teams = [])) as [->|Hne].
  - split_and!; try done. split; [done | intros [? _]; done].
  - destruct (validate_teams_nonempty teams expected Hne)
      as (Hvalid & Htotal & Hcount & Hsum & _ & Hissues & Hdup & Hmem).
    split_and!; [rewrite Hvalid; tauto | done | done |].
    intros _. split_and!; [done | done | | done | done].
    rewrite Hissues, Hvalid. tauto.
Qed.

Lemma validate_teams_spec_witness :
  is_valid (validate_teams [[1]; [2; 3]] 2) = true
  /\ issues (validate_teams [[1]; [2; 3]] 2) <> []
  /\ is_valid (validate_teams [[1; 2]; [2; 3]] 2) = false.
Proof.
  destruct (validate_teams_spec [[1]; [2; 3]] 2) as (Hvalid & _ & _ & Hne).
  destruct (validate_teams_spec [[1; 2]; [2; 3]] 2) as (Hvalid' & _).
  assert (Hok : is_valid (validate_teams [[1]; [2; 3]] 2) = true).
  { apply Hvalid. split_and!; [discriminate | |].
    - repeat (apply Forall_cons; split; [discriminate|]). apply Forall_nil_2.
    - simpl. repeat (apply NoDup_cons; split;
        [rewrite ?elem_of_cons, ?elem_of_nil; lia|]). apply NoDup_nil_2. }
  split_and!.
  - exact Hok.
  - destruct Hne as (_ & _ & Hissues & _); [discriminate|].
    intros Hnil. apply Hissues in Hnil as [Hsz _].
    apply Forall_cons in Hsz as [Hsz _]. discriminate Hsz.
  - apply not_true_is_false. intros Hv. apply Hvalid' in Hv as (_ & _ & Hnd).
    simpl in Hnd. apply NoDup_cons in Hnd as [_ Hnd].
    apply NoDup_cons in Hnd as [Hin _]. apply Hin, list_elem_of_here.
Defined.

(** X22. The teams that [randomize_teams] makes of participants who
    are all different pass [validate_teams] for the same size without
    any issue: the result is valid, every team counts as complete, none
    as incomplete, no duplicate is listed and the participants counted
    are [teams * team_size]. *)
Theorem randomize_teams_validates (rng : nat -> nat) (ids : list Z) (ts : Z) :
  ids <> [] -> ts ∈ [1; 2; 3; 4; 6] -> ts <= Z.of_nat (length ids) ->
  NoDup ids ->
  exists teams,
    randomize_teams rng ids ts = Ok teams
    /\ let v := validate_teams teams ts in
       is_valid v = true
       /\ issues v = []
       /\ complete_teams v = Z.of_nat (length teams)
       /\ incomplete_teams v = 0
       /\ duplicate_participants v = []
       /\ total_participants v = Z.of_nat (length teams) * ts.
Proof.
  intros Hne Hvalid Hle Hnd.
  pose proof (valid_team_size_range ts Hvalid) as Hrange.
  rewrite randomize_teams_ok by done. eexists. split; [reflexivity|].
  set (l := shuffle rng ids). set (n := Z.to_nat ts).
  assert (Hn : (0 < n)%nat) by (subst n; lia).
  assert (Hperm : l ≡ₚ ids) by apply shuffle_Permutation.
  rewrite <- (Permutation_length Hperm).
  destruct (chunks_facts l n Hn) as (Hcount & Hsizes & Hcat & Hsub).
  set (teams := map (chunk l n) (seq 0 (length l / n))) in *.
  assert (Hteams : teams <> []).
  { intros Hnil. apply (f_equal length) in Hnil. rewrite Hcount in Hnil.
    simpl in Hnil. apply Nat.div_small_iff in Hnil; [|lia].
    rewrite (Permutation_length Hperm) in Hnil. subst n. lia. }
  assert (Hsz : Forall (fun team => Z.of_nat (length team) = ts) teams).
  { eapply Forall_impl; [exact Hsizes|]. simpl. intros team ->. subst n. lia. }
  assert (Hnonempty : Forall (fun team : list Z => team <> []) teams).
  { eapply Forall_impl; [exact Hsizes|]. simpl. intros team Hlen ->.
    simpl in Hlen. lia. }
  assert (Hnd' : NoDup (concat teams)).
  { eapply sublist_NoDup; [|exact Hsub]. by rewrite Hperm. }
  destruct (validate_teams_nonempty teams ts Hteams)
    as (Hv & _ & Htotal & Hsum & Hcomplete & Hissues & Hdup & _).
  cbn zeta. split_and!.
  - by apply Hv.
  - by apply Hissues.
  - by apply Hcomplete.
  - rewrite (Hcomplete Hsz) in Hsum. lia.
  - by apply Hdup.
  - rewrite Htotal, Hcat, length_take, Hcount. subst n.
    pose proof (Nat.Div0.mul_div_le (length l) (Z.to_nat ts)). lia.
Qed.

Lemma randomize_teams_validates_witness :
  exists teams,
    randomize_teams (fun _ => 0%nat) [1; 2; 3; 4; 5] 2 = Ok teams
    /\ is_valid (validate_teams teams 2) = true
    /\ issues (validate_teams teams 2) = [].
Proof.
  destruct (randomize_teams_validates (fun _ => 0%nat) [1; 2; 3; 4; 5] 2)
    as (teams & Hok & Hvalid & Hissues & _).
  - discriminate.
  - apply list_elem_of_further, list_elem_of_here.
  - vm_compute. discriminate.
  - repeat (apply NoDup_cons; split;
      [rewrite ?elem_of_cons, ?elem_of_nil; lia|]). apply NoDup_nil_2.
  - exists teams. split_and!; [exact Hok | exact Hvalid | exact Hissues].
Defined.

(** *** Team numbers and statistics *)

Lemma fold_insert_lookup (team : list Z) (n : Z) (a : gmap Z Z) (p : Z) :
  fold_left (fun a q => <[q := n]> a) team a !! p
  = if decide (p ∈ team) then Some n else a !! p.
Proof.
  revert a. induction team as [|q team IH]; intros a; cbn [fold_left].
  - rewrite decide_False; [done | apply not_elem_of_nil].
  - rewrite IH. destruct (decide (p ∈ team)) as [Hin|Hnot].
    + rewrite decide_True; [done | by apply list_elem_of_further].
    + destruct (decide (p = q)) as [->|Hne].
      * rewrite decide_True by apply list_elem_of_here.
        apply lookup_insert_eq.
      * rewrite decide_False by (rewrite elem_of_cons; tauto).
        by apply lookup_insert_ne.
Qed.

Lemma assign_teams_dom (i : nat) (teams : list (list Z)) (a : gmap Z Z) (p : Z) :
  is_Some (assign_teams i teams a !! p)
  <-> p ∈ concat teams \/ is_Some (a !! p).
Proof.
  revert i a. induction teams as [|team rest IH]; intros i a; simpl.
  - rewrite elem_of_nil. tauto.
  - rewrite IH, fold_insert_lookup, elem_of_app.
    case_decide; [|tauto]. split; [tauto|]. intros _. right. by eexists.
Qed.

Lemma assign_teams_lookup (i : nat) (teams : list (list Z)) (a : gmap Z Z)
    (p : Z) :
  NoDup (concat teams) ->
  assign_teams i teams a !! p
  = match Event.find_team p i teams with
    | Some n => Some n
    | None => a !! p
    end.
Proof.
  revert i a. induction teams as [|team rest IH]; intros i a Hnd; simpl; [done|].
  simpl in Hnd. apply NoDup_app in Hnd as (_ & Hdisj & Hnd).
  rewrite (IH _ _ Hnd), fold_insert_lookup.
  destruct (py_in p team) eqn:Hin.
  - apply py_in_true in Hin. rewrite decide_True by done.
    assert (Hnone : Event.find_team p (S i) rest = None).
    { apply find_team_none, Forall_forall. intros team' Hteam' Hmem.
      apply (Hdisj p Hin), list_elem_of_In, in_concat. exists team'.
      split; by apply list_elem_of_In. }
    by rewrite Hnone.
  - apply py_in_false in Hin. by rewrite decide_False.
Qed.

(** X23. [get_team_assignments] has an entry exactly for the members
    of the teams.  When no participant is in the teams twice, the
    entry of a participant is the team number that
    [get_team_for_participant] answers for an event with these teams. *)
Theorem get_team_assignments_spec (teams : list (list Z)) :
  (forall p, is_Some (get_team_assignments teams !! p) <-> p ∈ concat teams)
  /\ (NoDup (concat teams) ->
      forall p e,
        Event.teams e = teams ->
        get_team_assignments teams !! p = Event.get_team_for_participant p e).
Proof.
  unfold get_team_assignments. split.
  - intros p. rewrite assign_teams_dom, lookup_empty.
    split; [intros [?|[? ?]]; done | tauto].
  - intros Hnd p e <-. unfold Event.get_team_for_participant.
    rewrite assign_teams_lookup by done.
    destruct (Event.find_team p 0 (Event.teams e)); [done|].
    apply lookup_empty.
Qed.

Lemma get_team_assignments_spec_witness :
  get_team_assignments [[7]; [8]] !! 8
  = Event.get_team_for_participant 8 duo_event_full.
Proof.
  destruct (get_team_assignments_spec [[7]; [8]]) as [_ Hsame].
  apply Hsame; [|reflexivity].
  simpl. apply NoDup_cons. split.
  - intros Hin. apply list_elem_of_singleton in Hin. discriminate Hin.
  - apply NoDup_singleton.
Defined.

Lemma py_sum_acc (l : list Z) (acc : Z) :
  fold_left Z.add l acc = acc + fold_left Z.add l 0.
Proof.
  revert acc. induction l as [|x l IH]; intros acc; simpl; [lia|].
  rewrite (IH (acc + x)), (IH (0 + x)). lia.
Qed.

Lemma py_sum_sizes (teams : list (list Z)) :
  py_sum (map (fun team => Z.of_nat (length team)) teams)
  = Z.of_nat (length (concat teams)).
Proof.
  unfold py_sum. induction teams as [|team rest IH]; simpl; [done|].
  rewrite py_sum_acc, IH, length_app. lia.
Qed.

Lemma fold_min_facts (l : list Z) (x : Z) :
  fold_left Z.min l x <= x
  /\ Forall (fun y => fold_left Z.min l x <= y) l
  /\ fold_left Z.min l x ∈ x :: l.
Proof.
  revert x. induction l as [|y l IH]; intros x; simpl.
  - split_and!; [lia | constructor | apply list_elem_of_here].
  - destruct (IH (Z.min x y)) as (Hle & Hall & Hin). split_and!.
    + lia.
    + constructor; [lia | done].
    + apply elem_of_cons in Hin as [Heq|Hin].
      * rewrite Heq. destruct (Z.min_spec x y) as [[_ ->]|[_ ->]].
        -- apply list_elem_of_here.
        -- apply list_elem_of_further, list_elem_of_here.
      * by do 2 apply list_elem_of_further.
Qed.

Lemma fold_max_facts (l : list Z) (x : Z) :
  x <= fold_left Z.max l x
  /\ Forall (fun y => y <= fold_left Z.max l x) l
  /\ fold_left Z.max l x ∈ x :: l.
Proof.
  revert x. induction l as [|y l IH]; intros x; simpl.
  - split_and!; [lia | constructor | apply list_elem_of_here].
  - destruct (IH (Z.max x y)) as (Hle & Hall & Hin). split_and!.
    + lia.
    + constructor; [lia | done].
    + apply elem_of_cons in Hin as [Heq|Hin].
      * rewrite Heq. destruct (Z.max_spec x y) as [[_ ->]|[_ ->]].
        -- apply list_elem_of_further, list_elem_of_here.
        -- apply list_elem_of_here.
      * by do 2 apply list_elem_of_further.
Qed.

(** X24. For a team list that is not empty, [get_team_statistics]
    counts the teams and all their members, and its smallest and
    largest team sizes are the sizes of actual teams that bound the
    size of every team.  For the empty team list every figure is 0. *)
Theorem get_team_statistics_spec (teams : list (list Z)) :
  let st := get_team_statistics teams in
  (teams = [] ->
     st = mk_team_statistics 0 0 0 0 [])
  /\ (teams <> [] ->
      stat_total_teams st = Z.of_nat (length teams)
      /\ stat_total_participants st = Z.of_nat (length (concat teams))
      /\ team_sizes st = map (fun team => Z.of_nat (length team)) teams
      /\ Forall (fun team => min_team_size st <= Z.of_nat (length team)
                              <= max_team_size st) teams
      /\ (exists team, team ∈ teams
                       /\ Z.of_nat (length team) = min_team_size st)
      /\ (exists team, team ∈ teams
                       /\ Z.of_nat (length team) = max_team_size st)).
Proof.
  intros st. subst st. unfold get_team_statistics. split.
  - by intros ->.
  - intros Hne. rewrite bool_decide_eq_false_2 by done.
    destruct teams as [|team rest]; [done|].
    cbn [stat_total_teams stat_total_participants team_sizes min_team_size
         max_team_size].
    rewrite py_sum_sizes.
    rewrite bool_decide_eq_false_2 by done.
    cbn [map py_min py_max].
    set (sizes := map (fun team => Z.of_nat (length team)) rest).
    destruct (fold_min_facts sizes (Z.of_nat (length team)))
      as (Hmin0 & Hmin & Hminin).
    destruct (fold_max_facts sizes (Z.of_nat (length team)))
      as (Hmax0 & Hmax & Hmaxin).
    assert (Hmem : forall z, z ∈ Z.of_nat (length team) :: sizes ->
                             exists t, t ∈ team :: rest /\ Z.of_nat (length t) = z).
    { intros z [->|Hz]%elem_of_cons.
      - exists team. split; [apply list_elem_of_here | done].
      - subst sizes. apply list_elem_of_fmap in Hz as (t & -> & Ht).
        exists t. split; [by apply list_elem_of_further | done]. }
    split_and!; [done | done | done | | by apply Hmem | by apply Hmem].
    constructor; [lia|].
    subst sizes. rewrite Forall_map in Hmin, Hmax.
    apply Forall_forall. intros t Ht.
    rewrite Forall_forall in Hmin, Hmax.
    specialize (Hmin t Ht). specialize (Hmax t Ht). simpl in *. lia.
Qed.

Lemma get_team_statistics_spec_witness :
  stat_total_participants (get_team_statistics [[1; 2]; [3]]) = 3.
Proof.
  destruct (get_team_statistics_spec [[1; 2]; [3]]) as [_ Hsome].
  destruct Hsome as (_ & Htotal & _); [discriminate|].
  exact Htotal.
Defined.

End teams_more.

(** * Further properties of the reminder and of the team-size prompt *)

Section prompt.
Import ReminderService TeamSizeSelectionView.

(** X25. Whatever the client answers, [_send_event_reminder] posts
    nothing, or the reminder alone, or the reminder followed by the
    team-size prompt.  What it posts goes to the thread of the event,
    whose handle is then set and not 0; the reminder mentions exactly
    the participants, of which there is at least one; and the prompt is
    only posted for an event without teams that has at least two
    participants. *)
Theorem send_event_reminder_posts (b : bot) (e : Event.t) :
  let posts := _send_event_reminder b e in
  let reminder := Reminder (Event.participants e) (Event.name e) in
  let prompt :=
    TeamSizePrompt (Event.creator_id e) (Event.name e)
      (Z.of_nat (length (Event.participants e))) in
  posts = []
  \/ (exists thread,
        Event.thread_id e = Some thread /\ thread <> 0
        /\ Event.participants e <> []
        /\ (posts = [(thread, reminder)]
            \/ (posts = [(thread, reminder); (thread, prompt)]
                /\ Event.teams e = []
                /\ 2 <= Z.of_nat (length (Event.participants e))))).
Proof.
  cbn zeta. unfold _send_event_reminder.
  destruct (Event.thread_id e) as [thread|] eqn:Hthread; [|by left].
  simpl truthy_id. simpl default.
  destruct (Z.eqb_spec thread 0) as [H0|H0]; [by left|]. cbn [negb].
  destruct (negb (get_channel b thread) && negb (fetch_channel b thread));
    [by left|].
  case_bool_decide as Hps; [by left|].
  destruct (thread_send b thread _); [|by left].
  right. exists thread. split_and!; [done..|].
  unfold _send_team_creation_request, Event.has_teams.
  destruct (Event.teams e) eqn:Hteams; [|by left].
  destruct (Z.ltb_spec (Z.of_nat (length (Event.participants e))) 2);
    [by left|].
  destruct (thread_send b thread _); [|by left].
  right. by split_and!.
Qed.

(** A team-size prompt is only among the posts of an event without
    teams that has at least two participants. *)
Lemma prompt_posted_facts (b : bot) (e : Event.t) (thread creator count : Z)
    (nm : string) :
  (thread, TeamSizePrompt creator nm count) ∈ _send_event_reminder b e ->
  Event.teams e = [] /\ 2 <= Z.of_nat (length (Event.participants e)).
Proof.
  unfold _send_event_reminder.
  destruct (negb (truthy_id (Event.thread_id e)));
    [by intros ?%elem_of_nil|].
  cbn zeta.
  destruct (negb (get_channel b _) && negb (fetch_channel b _));
    [by intros ?%elem_of_nil|].
  case_bool_decide; [by intros ?%elem_of_nil|].
  destruct (thread_send b _ (Reminder _ _)); [|by intros ?%elem_of_nil].
  intros [Heq|Hin]%elem_of_cons; [discriminate Heq|]. revert Hin.
  unfold _send_team_creation_request, Event.has_teams.
  destruct (Event.teams e); [|by intros ?%elem_of_nil].
  destruct (Z.ltb_spec (Z.of_nat (length (Event.participants e))) 2);
    [by intros ?%elem_of_nil|].
  done.
Qed.

(** When [randomize_teams] returns, it returns at least one team. *)
Lemma randomize_teams_not_empty (rng : nat -> nat) (ids : list Z) (ts : Z)
    (teams : list (list Z)) :
  TeamService.randomize_teams rng ids ts = Ok teams ->
  ids <> [] /\ ts ∈ [1; 2; 3; 4; 6] /\ ts <= Z.of_nat (length ids)
  /\ teams <> []
  /\ length teams = (length ids / Z.to_nat ts)%nat
  /\ Forall (fun team => Z.of_nat (length team) = ts) teams
  /\ concat teams ⊆+ ids.
Proof.
  intros Hok.
  destruct (randomize_teams_cases rng ids ts) as [[_ [msg Hraise]]|[Hvalid _]];
    [congruence|].
  assert (Hne : ids <> []) by tauto.
  assert (Hsize : ts ∈ [1; 2; 3; 4; 6]).
  { destruct (decide (ts ∈ [1; 2; 3; 4; 6])); [done | tauto]. }
  pose proof (valid_team_size_range ts Hsize) as Hrange.
  assert (Hle : ts <= Z.of_nat (length ids)).
  { destruct (Z_lt_le_dec (Z.of_nat (length ids)) ts); [|done].
    destruct (decide (ts = 1)) as [->|]; [|exfalso; apply Hvalid; right; right; lia].
    destruct ids; [done | simpl; lia]. }
  rewrite randomize_teams_ok in Hok by done. injection Hok as <-.
  set (l := TeamService.shuffle rng ids).
  assert (Hperm : l ≡ₚ ids) by apply shuffle_Permutation.
  pose proof (Permutation_length Hperm) as Hlen.
  pose proof (chunks_facts l (Z.to_nat ts) ltac:(lia)) as Hfacts.
  cbn zeta in Hfacts. rewrite Hlen in Hfacts.
  destruct Hfacts as (Hcount & Hsizes & _ & Hsub).
  split_and!; [done | done | done | | done | |].
  - intros Hnil. apply (f_equal length) in Hnil. rewrite Hcount in Hnil.
    simpl in Hnil. apply Nat.div_small_iff in Hnil; lia.
  - eapply Forall_impl; [exact Hsizes|]. simpl. intros team ->. lia.
  - trans l; [by apply sublist_submseteq | by apply Permutation_submseteq].
Qed.

(** X26. A click on a size button by anyone but the creator of the
    event changes nothing and shows the permission notice.  A click by
    the creator either leaves the event as it is (no participant, or
    [randomize_teams] raised) or assigns at least one team: then every
    team has the chosen size, the members come from the participant
    sequence, none more often than it occurs there, the chosen size is
    recorded and nothing else of the event changes.  The notice for a
    failed creation is never shown. *)
Theorem click_team_size_spec (rng : nat -> nat) (edit_ok : bool)
    (user_id ts : Z) (e : Event.t) :
  let r := click_team_size rng edit_ok user_id ts e in
  (user_id <> Event.creator_id e -> r = (e, PermissionNotice))
  /\ r.2 <> CreationFailedNotice
  /\ ((r.1 = e /\ (r.2 = PermissionNotice \/ r.2 = NoParticipantNotice
                   \/ r.2 = ErrorNotice))
      \/ (exists teams,
            user_id = Event.creator_id e
            /\ TeamService.randomize_teams rng (Event.participants e) ts = Ok teams
            /\ teams <> []
            /\ Forall (fun team => Z.of_nat (length team) = ts) teams
            /\ concat teams ⊆+ Event.participants e
            /\ r.1 = Event.set_team_size (Some ts) (Event.set_teams_attr teams e)
            /\ r.2 = (if edit_ok
                      then TeamsCreatedNotice (Z.of_nat (length teams)) ts
                      else ErrorNotice))).
Proof.
  cbn zeta. unfold click_team_size, interaction_check.
  case_bool_decide as Hcreator; cbn [fst snd].
  - unfold _handle_team_size_selection.
    case_bool_decide as Hps; cbn [fst snd];
      [split_and!; [done | done | left; tauto]|].
    destruct (TeamService.randomize_teams rng (Event.participants e) ts)
      as [teams|err] eqn:Hteams; cbn [fst snd];
      [|split_and!; [done | done | left; tauto]].
    destruct (randomize_teams_not_empty _ _ _ _ Hteams)
      as (_ & _ & _ & Hne & _ & Hsizes & Hsub).
    rewrite bool_decide_eq_false_2 by done. cbn [fst snd].
    split_and!; [done | by destruct edit_ok |].
    right. exists teams. by split_and!.
  - split_and!; [done | done | left; tauto].
Qed.

(** X27. When the scheduler has posted the team-size prompt for an
    event, the creator's choice of 1 or of 2 players per team, made
    while the event is as it was at the prompt, always assigns teams:
    [participants / size] of them, at least one; the size is recorded
    and the participants stay as they were. *)
Theorem prompt_then_small_size (b : bot) (rng : nat -> nat) (edit_ok : bool)
    (ts : Z) (e : Event.t) (thread creator count : Z) (nm : string) :
  (thread, TeamSizePrompt creator nm count) ∈ _send_event_reminder b e ->
  ts ∈ [1; 2] ->
  let r := click_team_size rng edit_ok (Event.creator_id e) ts e in
  Event.teams r.1 <> []
  /\ length (Event.teams r.1)
     = (length (Event.participants e) / Z.to_nat ts)%nat
  /\ Event.team_size r.1 = Some ts
  /\ Event.participants r.1 = Event.participants e.
Proof.
  intros Hprompt Hts.
  destruct (prompt_posted_facts _ _ _ _ _ _ Hprompt) as [_ Hcount].
  assert (Hsize : ts ∈ [1; 2; 3; 4; 6] /\ ts <= 2).
  { rewrite !elem_of_cons, elem_of_nil in Hts.
    rewrite !elem_of_cons. lia. }
  destruct Hsize as [Hsize Hle].
  assert (Hne : Event.participants e <> []).
  { intros Hnil. rewrite Hnil in Hcount. simpl in Hcount. lia. }
  cbn zeta. unfold click_team_size, interaction_check.
  rewrite bool_decide_eq_true_2 by done.
  unfold _handle_team_size_selection.
  rewrite bool_decide_eq_false_2 by done.
  destruct (TeamService.randomize_teams rng (Event.participants e) ts)
    as [teams|err] eqn:Hteams.
  - destruct (randomize_teams_not_empty _ _ _ _ Hteams)
      as (_ & _ & _ & Hne' & Hlen & _).
    rewrite bool_decide_eq_false_2 by done. by destruct e.
  - rewrite randomize_teams_ok in Hteams by (done || lia). discriminate.
Qed.

Lemma prompt_then_small_size_witness :
  let e := Event.clear_teams threaded_event in
  let r := click_team_size (fun _ => 0%nat) true (Event.creator_id e) 2 e in
  Event.teams r.1 <> []
  /\ length (Event.teams r.1)
     = (length (Event.participants e) / Z.to_nat 2)%nat
  /\ Event.team_size r.1 = Some 2
  /\ Event.participants r.1 = Event.participants e.
Proof.
  apply (prompt_then_small_size obliging_bot (fun _ => 0%nat) true 2
           (Event.clear_teams threaded_event) 555 11 2 "Raid").
  - apply list_elem_of_In. vm_compute. right. left. reflexivity.
  - apply list_elem_of_further, list_elem_of_here.
Defined.

End prompt.

(** * Further properties of the participation buttons *)

Section buttons.
Import EventParticipationView.

(** Building the embed of an event raises exactly when check-in is
    enabled, somebody is checked in and nobody takes part. *)
Lemma create_event_embed_cases (e : Event.t) :
  (Event.check_in_enabled e = true
   /\ Event.checked_in_participants e <> []
   /\ Event.participants e = []
   /\ EventEmbeds.create_event_embed e = Raise ZeroDivisionError)
  \/ (~ (Event.check_in_enabled e = true
         /\ Event.checked_in_participants e <> []
         /\ Event.participants e = [])
      /\ EventEmbeds.create_event_embed e = Ok e).
Proof.
  unfold EventEmbeds.create_event_embed, Event.checked_in_count,
    Event.participant_count.
  destruct (Event.check_in_enabled e);
    [|right; split; [by intros [? _] | done]].
  destruct (Event.checked_in_participants e) as [|c cs];
    [right; split; [by intros (_ & ? & _) | done]|].
  destruct (Event.participants e) as [|p ps];
    [left; by split_and! | right; split; [|done]].
  by intros (_ & _ & ?).
Qed.

Lemma create_event_embed_ok (e : Event.t) :
  Event.participants e <> [] -> EventEmbeds.create_event_embed e = Ok e.
Proof.
  intros Hps. destruct (create_event_embed_cases e)
    as [(_ & _ & Hnil & _)|[_ Hok]]; done.
Qed.

(** A delegation whose call leaves the event as it is leaves the
    registry as it is. *)
Lemma on_event_unchanged (f : Event.t -> bool * Event.t) (event_id : string)
    (svc : EventService.t) (e : Event.t) (success : bool) :
  EventService.get_event event_id svc = Some e ->
  f e = (success, e) ->
  EventService.on_event f event_id svc = (success, svc).
Proof.
  intros Hget Hf. unfold EventService.on_event. rewrite Hget, Hf.
  unfold EventService.get_event in Hget. rewrite insert_id by done.
  by destruct svc.
Qed.

(** A delegation on a stored event stores what the call made of it. *)
Lemma on_event_changed (f : Event.t -> bool * Event.t) (event_id : string)
    (svc : EventService.t) (e : Event.t) :
  EventService.get_event event_id svc = Some e ->
  EventService.on_event f event_id svc
  = ((f e).1,
     EventService.mk (<[event_id := (f e).2]> (EventService._events svc))
       (EventService._message_to_event svc)).
Proof.
  intros Hget. unfold EventService.on_event. rewrite Hget. by destruct (f e).
Qed.

(** X28. A click on the join button for an identifier that the
    registry does not hold answers that the event was not found; for a
    stored event of which the user is already a participant it answers
    so, and for one that is full it answers that; in these three cases
    the registry is left as it is.  Otherwise the user is appended to
    the participants of the stored event, no other identifier of the
    registry is touched, and the embed, when the edit goes through,
    shows the event with the new participant.  The reply that joining
    is impossible is never given. *)
Theorem join_event_spec (edit_ok : bool) (event_id : string) (user_id : Z)
    (svc : EventService.t) :
  let r := join_event edit_ok event_id user_id svc in
  r.2 <> CannotJoinReply
  /\ match EventService.get_event event_id svc with
     | None => r = (svc, NotFoundReply)
     | Some e =>
         if decide (user_id ∈ Event.participants e) then
           r = (svc, AlreadyParticipantReply)
         else if decide (Event.max_participants e
                         <= Z.of_nat (length (Event.participants e))) then
           r = (svc, EventFullReply)
         else
           exists e',
             Event.add_participant user_id e = (true, e')
             /\ Event.participants e' = Event.participants e ++ [user_id]
             /\ EventService._events r.1
                = <[event_id := e']> (EventService._events svc)
             /\ EventService._message_to_event r.1
                = EventService._message_to_event svc
             /\ r.2 = (if edit_ok then EmbedUpdated e' else ErrorReply)
     end.
Proof.
  cbn zeta. unfold join_event, EventService.add_participant.
  destruct (EventService.get_event event_id svc) as [e|] eqn:Hget; [|done].
  pose proof (add_participant_eq user_id e) as Hadd.
  unfold Event.participant_count in Hadd.
  destruct (decide (user_id ∈ Event.participants e)) as [Hin|Hin].
  { rewrite decide_True in Hadd by tauto.
    rewrite (on_event_unchanged _ _ _ e false) by done.
    rewrite Hget. simpl default. unfold Event.is_participant.
    by rewrite (proj2 (py_in_true _ _) Hin). }
  destruct (decide (Event.max_participants e
                    <= Z.of_nat (length (Event.participants e)))) as [Hfull|Hfull].
  { rewrite decide_True in Hadd by tauto.
    rewrite (on_event_unchanged _ _ _ e false) by done.
    rewrite Hget. simpl default. unfold Event.is_participant, Event.is_full.
    rewrite (proj2 (py_in_false _ _) Hin). unfold Event.participant_count.
    by rewrite (proj2 (Z.leb_le _ _) Hfull). }
  rewrite decide_False in Hadd by tauto.
  rewrite (on_event_changed _ _ _ e) by done. rewrite Hadd.
  cbn [fst snd]. unfold EventService.get_event. cbn [EventService._events].
  rewrite lookup_insert_eq. simpl default.
  set (e' := let e1 := Event.set_participants _ e in
             if decide _ then Event.set_status FULL e1 else e1).
  assert (Hps : Event.participants e' = Event.participants e ++ [user_id])
    by (subst e'; cbn zeta; by destruct (decide _); destruct e).
  rewrite (create_event_embed_ok e')
    by (rewrite Hps; by destruct (Event.participants e)).
  clearbody e'. cbn [fst snd].
  split; [by destruct edit_ok|].
  exists e'. by split_and!.
Qed.

(** X29. A click on the leave button for an identifier that the
    registry does not hold answers that the event was not found, and
    for a stored event of which the user is no participant it answers
    so; in both cases the registry is left as it is.  Otherwise the
    stored event is replaced by what [remove_participant] makes of it,
    in which the user occurs once less, and no other identifier of the
    registry is touched.  The reply is then the error reply when
    building the embed raises, which happens exactly when the user was
    the only participant while check-in is enabled and somebody is
    still checked in; if not, the embed, when the edit goes through,
    shows the event without the user. *)
Theorem leave_event_spec (edit_ok : bool) (event_id : string) (user_id : Z)
    (svc : EventService.t) :
  let r := leave_event edit_ok event_id user_id svc in
  match EventService.get_event event_id svc with
  | None => r = (svc, NotFoundReply)
  | Some e =>
      if decide (user_id ∈ Event.participants e) then
        exists e',
          Event.remove_participant user_id e = (true, e')
          /\ Event.participants e' = py_remove user_id (Event.participants e)
          /\ S (length (Event.participants e'))
             = length (Event.participants e)
          /\ EventService._events r.1
             = <[event_id := e']> (EventService._events svc)
          /\ EventService._message_to_event r.1
             = EventService._message_to_event svc
          /\ r.2 = (if decide (Event.participants e = [user_id]
                               /\ Event.check_in_enabled e = true
                               /\ Event.checked_in_participants e <> [])
                    then ErrorReply
                    else if edit_ok then EmbedUpdated e' else ErrorReply)
      else r = (svc, NotParticipantReply)
  end.
Proof.
  cbn zeta. unfold leave_event, EventService.remove_participant.
  destruct (EventService.get_event event_id svc) as [e|] eqn:Hget; [|done].
  destruct (decide (user_id ∈ Event.participants e)) as [Hin|Hin].
  - rewrite (on_event_changed _ _ _ e) by done.
    assert (Hrem : exists e', Event.remove_participant user_id e = (true, e')
              /\ Event.participants e'
                 = py_remove user_id (Event.participants e)
              /\ Event.check_in_enabled e' = Event.check_in_enabled e
              /\ Event.checked_in_participants e'
                 = Event.checked_in_participants e).
    { unfold Event.remove_participant.
      rewrite (proj2 (py_in_true _ _) Hin). cbn [negb]. cbn zeta.
      eexists. split; [reflexivity|].
      by destruct (_ && _); destruct e. }
    destruct Hrem as (e' & Hrem & Hps & Hen & Hcs). rewrite Hrem. cbn [fst snd].
    unfold EventService.get_event. cbn [EventService._events].
    rewrite lookup_insert_eq. simpl default.
    assert (Hlen : S (length (Event.participants e'))
                   = length (Event.participants e)).
    { rewrite Hps.
      destruct (py_remove_split _ _ Hin) as (l1 & l2 & Hl & _ & ->).
      rewrite Hl, !length_app. simpl. lia. }
    assert (Hone : Event.participants e = [user_id]
                   <-> Event.participants e' = []).
    { split.
      - intros Heq. rewrite Heq in Hlen. simpl in Hlen.
        destruct (Event.participants e'); [done | simpl in Hlen; lia].
      - intros Hnil. rewrite Hnil in Hlen. simpl in Hlen.
        destruct (Event.participants e) as [|p [|q ps]] eqn:Hpe;
          simpl in Hlen; try lia.
        apply list_elem_of_singleton in Hin. by subst. }
    exists e'.
    destruct (create_event_embed_cases e')
      as [(Hen' & Hcs' & Hnil & ->)|[Hno ->]]; cbn [fst snd].
    + split_and!; [done..|].
      rewrite decide_True; [done|].
      rewrite Hone, <- Hen, <- Hcs. by split_and!.
    + split_and!; [done..|].
      rewrite decide_False; [done|].
      rewrite Hone, <- Hen, <- Hcs. tauto.
  - rewrite (on_event_unchanged _ _ _ e false); [|done|].
    + done.
    + unfold Event.remove_participant.
      by rewrite (proj2 (py_in_false _ _) Hin).
Qed.

End buttons.
